(** * AHKv2_Finetune: the dataset-build pipeline, embedded and verified

    Shallow embedding of [src/build_dataset.py] (snippet collector,
    deduplicator, splitter) and of [src/data_prep.py] (Harmony conversion).

    Conventions of the embedding:
    - a Python [str] is the list of its Unicode code points ([str := list N]);
    - [bytes] are lists of numbers below 256;
    - a [dict] with string keys is a [gmap str _] (Python compares dicts
      without regard to insertion order, and so does [=] on [gmap]);
    - a Python [float] is an IEEE 754 binary64 value, taken from the
      standard library's [SpecFloat] with [prec = 53] and [emax = 1024];
    - an exception is a value of [exn], returned through [result]. *)

From Stdlib Require Import ZArith NArith Reals Lia Lra SpecFloat.
From Stdlib Require Import String Ascii.
From stdpp Require Import gmap list.

Set Default Proof Using "Type".

(* ===================================================================== *)
(** * Python strings *)
(* ===================================================================== *)

Module PyStr.

(** A [str] is a sequence of code points. *)
Abbreviation str := (list N).

Local Open Scope N_scope.

(** An ASCII literal of the source, as a [str]. *)
Definition py (s : string) : str :=
  List.map N_of_ascii (list_ascii_of_string s).
Arguments py s%_string.

(** The byte-order mark, written as the escape u+feff in the source. *)
Definition BOM : N := 0xFEFF.
Definition LF : N := 10.
Definition CR : N := 13.

(** [str.isspace] on one code point: the characters whose bidirectional
    class is WS, B or S, or whose category is Zs. *)
Definition isspace (c : N) : bool :=
  ((9 <=? c) && (c <=? 13)) || ((28 <=? c) && (c <=? 32))
  || (c =? 0x85) || (c =? 0xA0) || (c =? 0x1680)
  || ((0x2000 <=? c) && (c <=? 0x200A))
  || (c =? 0x2028) || (c =? 0x2029) || (c =? 0x202F)
  || (c =? 0x205F) || (c =? 0x3000).

Fixpoint drop_while (p : N -> bool) (s : str) : str :=
  match s with
  | [] => []
  | c :: rest => if p c then drop_while p rest else s
  end.

(** [s.lstrip()], [s.rstrip()], [s.strip()] *)
Definition lstrip (s : str) : str := drop_while isspace s.
Definition rstrip (s : str) : str := rev (drop_while isspace (rev s)).
Definition strip (s : str) : str := rstrip (lstrip s).

(** What it means for [c] to be [s] without its leading and trailing
    white space: [s] is [c] between two runs of white space, and [c]
    neither begins nor ends with white space. *)
Definition stripped_of (s c : str) : Prop :=
  (exists l r, s = l ++ c ++ r
               /\ forallb isspace l = true /\ forallb isspace r = true)
  /\ (forall x c', c = x :: c' -> isspace x = false)
  /\ (forall x c', c = c' ++ [x] -> isspace x = false).

(** [s.lstrip(chars)] removes the leading characters that occur in [chars]. *)
Definition lstrip_chars (chars : str) (s : str) : str :=
  drop_while (fun c => existsb (N.eqb c) chars) s.

(** [s.startswith(prefix)] *)
Fixpoint startswith (s prefix : str) : bool :=
  match prefix, s with
  | [], _ => true
  | p :: prefix', c :: s' => (c =? p) && startswith s' prefix'
  | _ :: _, [] => false
  end.

(** [sep.join(parts)] *)
Fixpoint join (sep : str) (parts : list str) : str :=
  match parts with
  | [] => []
  | [p] => p
  | p :: rest => p ++ sep ++ join sep rest
  end.

(** The line boundaries of [str.splitlines]. *)
Definition is_linebreak (c : N) : bool :=
  (c =? 10) || (c =? 13) || (c =? 11) || (c =? 12)
  || (c =? 0x1C) || (c =? 0x1D) || (c =? 0x1E)
  || (c =? 0x85) || (c =? 0x2028) || (c =? 0x2029).

(** [s.splitlines()]; [cur] collects the current line, last character
    first.  A carriage return followed by a line feed is one boundary. *)
Fixpoint splitlines_from (cur : str) (s : str) : list str :=
  match s with
  | [] => match cur with [] => [] | _ => [rev cur] end
  | c :: rest =>
      if is_linebreak c then
        rev cur ::
          match rest with
          | c' :: rest' =>
              if (c =? CR) && (c' =? LF) then splitlines_from [] rest'
              else splitlines_from [] rest
          | [] => splitlines_from [] rest
          end
      else splitlines_from (c :: cur) rest
  end.

Definition splitlines (s : str) : list str := splitlines_from [] s.

(** [s.rfind(c)] for a single character, [None] standing for [-1]. *)
Fixpoint rfind_from (i : nat) (c : N) (s : str) : option nat :=
  match s with
  | [] => None
  | d :: rest =>
      match rfind_from (S i) c rest with
      | Some j => Some j
      | None => if d =? c then Some i else None
      end
  end.

Definition rfind (c : N) (s : str) : option nat := rfind_from 0%nat c s.

(** [s.encode("utf-8")]: surrogates (and numbers that are no code point)
    cannot be encoded, Python raises [UnicodeEncodeError]. *)
Definition utf8_char (c : N) : option (list N) :=
  if c <? 0x80 then Some [c]
  else if c <? 0x800 then
    Some [N.lor 0xC0 (N.shiftr c 6); N.lor 0x80 (N.land c 0x3F)]
  else if (0xD800 <=? c) && (c <=? 0xDFFF) then None
  else if c <? 0x10000 then
    Some [N.lor 0xE0 (N.shiftr c 12);
          N.lor 0x80 (N.land (N.shiftr c 6) 0x3F);
          N.lor 0x80 (N.land c 0x3F)]
  else if c <? 0x110000 then
    Some [N.lor 0xF0 (N.shiftr c 18);
          N.lor 0x80 (N.land (N.shiftr c 12) 0x3F);
          N.lor 0x80 (N.land (N.shiftr c 6) 0x3F);
          N.lor 0x80 (N.land c 0x3F)]
  else None.

Fixpoint utf8_encode (s : str) : option (list N) :=
  match s with
  | [] => Some []
  | c :: rest =>
      match utf8_char c, utf8_encode rest with
      | Some bs, Some bs' => Some (bs ++ bs')
      | _, _ => None
      end
  end.


(** ** Shapes of strings the properties below speak of *)

(** Single spacing: every white space character of [s] is a space, no two
    of them are adjacent, and [s] does not begin with one when
    [after_space] is set. *)
Fixpoint single_spaced (after_space : bool) (s : str) : bool :=
  match s with
  | [] => true
  | c :: rest =>
      if isspace c then (c =? 32)%N && negb after_space && single_spaced true rest
      else single_spaced false rest
  end.

(** A string that ends with a character that is no white space. *)
Definition ends_well (p : str) : Prop :=
  exists l y, p = l ++ [y] /\ isspace y = false.

(** The strings [s.encode("utf-8")] accepts: code points that are no
    surrogates. *)
Definition encodable (s : str) : Prop :=
  Forall (fun c => (c < 0xD800 \/ 0xDFFF < c) /\ c < 0x110000)%N s.

End PyStr.

(* ===================================================================== *)
(** * hashlib.sha256 *)
(* ===================================================================== *)

Module Sha256.

Local Open Scope N_scope.

Definition w32 (x : N) : N := N.land x 0xFFFFFFFF.
Definition add32 (x y : N) : N := w32 (x + y).
Definition rotr (n x : N) : N :=
  N.lor (N.shiftr x n) (w32 (N.shiftl x (32 - n))).
Definition not32 (x : N) : N := N.lxor x 0xFFFFFFFF.

Definition Ch (x y z : N) := N.lxor (N.land x y) (N.land (not32 x) z).
Definition Maj (x y z : N) :=
  N.lxor (N.lxor (N.land x y) (N.land x z)) (N.land y z).
Definition Sigma0 x := N.lxor (N.lxor (rotr 2 x) (rotr 13 x)) (rotr 22 x).
Definition Sigma1 x := N.lxor (N.lxor (rotr 6 x) (rotr 11 x)) (rotr 25 x).
Definition sigma0 x := N.lxor (N.lxor (rotr 7 x) (rotr 18 x)) (N.shiftr x 3).
Definition sigma1 x := N.lxor (N.lxor (rotr 17 x) (rotr 19 x)) (N.shiftr x 10).

(** The first 64 primes. *)
Definition primes : list N :=
  [2; 3; 5; 7; 11; 13; 17; 19; 23; 29; 31; 37; 41; 43; 47; 53;
   59; 61; 67; 71; 73; 79; 83; 89; 97; 101; 103; 107; 109; 113; 127; 131;
   137; 139; 149; 151; 157; 163; 167; 173; 179; 181; 191; 193; 197; 199;
   211; 223; 227; 229; 233; 239; 241; 251; 257; 263; 269; 271; 277; 281;
   283; 293; 307; 311].

(** The integer cube root below [2 ^ bits], found bit by bit. *)
Fixpoint cube_root_bits (bits : nat) (x r : N) : N :=
  match bits with
  | O => r
  | S b =>
      let r' := r + 2 ^ N.of_nat b in
      cube_root_bits b x (if r' * r' * r' <=? x then r' else r)
  end.

(** The initial hash value: the first 32 bits of the fractional parts of
    the square roots of the first 8 primes. *)
Definition H0 : list N :=
  List.map (fun p => w32 (N.sqrt (p * 2 ^ 64))) (take 8 primes).

(** The round constants: the first 32 bits of the fractional parts of the
    cube roots of the first 64 primes. *)
Definition K : list N :=
  List.map (fun p => w32 (cube_root_bits 36 (p * 2 ^ 96) 0)) primes.

(** Big-endian bytes of a number, [n] of them. *)
Fixpoint be_bytes (n : nat) (x : N) : list N :=
  match n with
  | O => []
  | S n' => N.land (N.shiftr x (8 * N.of_nat n')) 0xFF :: be_bytes n' x
  end.

Definition be_word (bs : list N) : N :=
  fold_left (fun acc b => N.lor (N.shiftl acc 8) b) bs 0.

(** The message, a 1 bit, zeros up to 56 modulo 64, and the bit length. *)
Definition pad (msg : list N) : list N :=
  let len := N.of_nat (length msg) in
  let zeros := N.to_nat ((119 - len mod 64) mod 64) in
  msg ++ [0x80] ++ repeat 0 zeros ++ be_bytes 8 (8 * len).

Fixpoint words (n : nat) (bs : list N) : list N :=
  match n with
  | O => []
  | S n' => be_word (take 4 bs) :: words n' (drop 4 bs)
  end.

(** The message schedule, most recent word first. *)
Fixpoint extend (n : nat) (rw : list N) : list N :=
  match n with
  | O => rw
  | S n' =>
      let w := add32 (add32 (sigma1 (nth 1 rw 0)) (nth 6 rw 0))
                     (add32 (sigma0 (nth 14 rw 0)) (nth 15 rw 0)) in
      extend n' (w :: rw)
  end.

Definition schedule (block : list N) : list N :=
  rev (extend 48 (rev (words 16 block))).

Definition round (st : list N) (kw : N * N) : list N :=
  match st with
  | [a; b; c; d; e; f; g; h] =>
      let t1 := add32 (add32 (add32 h (Sigma1 e)) (add32 (Ch e f g) (fst kw))) (snd kw) in
      let t2 := add32 (Sigma0 a) (Maj a b c) in
      [add32 t1 t2; a; b; c; add32 d t1; e; f; g]
  | _ => st
  end.

Definition compress (st : list N) (block : list N) : list N :=
  let st' := fold_left round (combine K (schedule block)) st in
  List.map (fun p => add32 (fst p) (snd p)) (combine st st').

Fixpoint blocks (n : nat) (bs : list N) (st : list N) : list N :=
  match n with
  | O => st
  | S n' => blocks n' (drop 64 bs) (compress st (take 64 bs))
  end.

(** [hashlib.sha256(data).digest()] *)
Definition digest (msg : list N) : list N :=
  let p := pad msg in
  flat_map (be_bytes 4) (blocks (length p / 64) p H0).

Definition hex_digit (d : N) : N := if d <? 10 then 48 + d else 87 + d.

(** [hashlib.sha256(data).hexdigest()], as a [str] *)
Definition hexdigest (msg : list N) : list N :=
  flat_map (fun b => [hex_digit (N.shiftr b 4); hex_digit (N.land b 0xF)])
           (digest msg).

End Sha256.

(* ===================================================================== *)
(** * Python floats: IEEE 754 binary64 *)
(* ===================================================================== *)

Module PyFloat.

Abbreviation float := spec_float.

Definition prec : Z := 53.
Definition emax : Z := 1024.

Definition zero : float := S754_zero false.
Definition one : float := S754_finite false 4503599627370496 (-52).

(** [x + y], [x * y], [x < y], [x <= y], [x >= y] on floats *)
Definition add (x y : float) : float := SFadd prec emax x y.
Definition mul (x y : float) : float := SFmul prec emax x y.
Definition lt (x y : float) : bool := SFltb x y.
Definition le (x y : float) : bool := SFleb x y.
Definition ge (x y : float) : bool := SFleb y x.

(** The values a Python float can hold. *)
Definition is_float (x : float) : Prop := valid_binary prec emax x = true.

(** Some floats of the unit tests: [0.1] and [0.15]; then [-0.1], [0.75]
    and [0.24999999999999992], the third float below [0.25]. *)
Definition point_one : float := S754_finite false 7205759403792794 (-56).
Definition point_one_five : float := S754_finite false 5404319552844595 (-55).
Definition minus_point_one : float := S754_finite true 7205759403792794 (-56).
Definition three_quarters : float := S754_finite false 6755399441055744 (-53).
Definition almost_quarter : float := S754_finite false 9007199254740989 (-55).

(** *** The real number a float stands for *)

Definition bpow (e : Z) : R := powerRZ 2 e.
Definition F2R (m e : Z) : R := (IZR m * bpow e)%R.

Definition value (x : float) : R :=
  match x with
  | S754_finite s m e => F2R (if s then Zneg m else Zpos m) e
  | _ => 0%R
  end.

(** A float in the interval [[0, 1)]: neither infinite nor NaN, and with
    a value in that interval (both zeros have the value 0). *)
Definition is_finite (x : float) : Prop :=
  match x with
  | S754_zero _ | S754_finite _ _ _ => True
  | _ => False
  end.

Definition in_unit_interval (x : float) : Prop :=
  is_finite x /\ (0 <= value x < 1)%R.

(** *** Rounding, as [binary_round_aux] computes it

    After [k] bits of [M] were shifted out, the record holds the quotient
    of [M] by [2 ^ k]; its round bit tells whether the remainder reaches
    one half of [2 ^ k], its sticky bit whether the remainder is neither
    zero nor that half. *)
Definition shr_inv (M k : Z) (mrs : shr_record) : Prop :=
  (0 <= shr_m mrs
  /\ exists rem,
       0 <= rem < 2 ^ k
       /\ M = shr_m mrs * 2 ^ k + rem
       /\ (shr_r mrs = true <-> 2 ^ k <= 2 * rem)
       /\ (shr_s mrs = true <-> rem <> 0 /\ 2 * rem <> 2 ^ k))%Z.

(** The last step of [binary_round_aux]: the float of a rounded mantissa
    [q] at the exponent [e]. *)
Definition finish (q e : Z) : float :=
  match q with
  | Z0 => S754_zero false
  | Zpos m =>
      if (e <=? emax - prec)%Z then S754_finite false m e
      else S754_infinity false
  | Zneg _ => S754_nan
  end.

End PyFloat.

(* ===================================================================== *)
(** * src/build_dataset.py *)
(* ===================================================================== *)

Module BuildDataset.

Import PyStr.

(** ** Exceptions and results *)

Inductive exn :=
  | ValueError (msg : str)
  | OverflowError (msg : str)
  | IndexError (msg : str)
  | UnicodeEncodeError.

Inductive result (A : Type) :=
  | Ok (a : A)
  | Raise (e : exn).
Arguments Ok {A} a.
Arguments Raise {A} e.

(** ** Records *)

(** The values the collector and the CSV loader store in metadata. *)
Inductive MetaVal :=
  | MStr (s : str)
  | MInt (n : Z).

(** [@dataclass class SnippetRecord] *)
Record SnippetRecord := {
  prompt : str;
  response : str;
  metadata : gmap str MetaVal;
}.

(** ** humanise_title *)

Fixpoint replace_char (old new : N) (s : str) : str :=
  match s with
  | [] => []
  | c :: rest => (if (c =? old)%N then new else c) :: replace_char old new rest
  end.

(** [re.sub(r"\s+", " ", s)]; [in_run] tells that the previous character
    was white space and has been replaced already. *)
Fixpoint collapse_whitespace (in_run : bool) (s : str) : str :=
  match s with
  | [] => []
  | c :: rest =>
      if isspace c then
        if in_run then collapse_whitespace true rest
        else 32%N :: collapse_whitespace true rest
      else c :: collapse_whitespace false rest
  end.

Definition humanise_title (stem : str) : str :=
  let cleaned := replace_char 95 32 stem in
  let cleaned := replace_char 45 32 cleaned in
  let cleaned := collapse_whitespace false cleaned in
  strip cleaned.

(** ** build_prompt

    The source computes [title_label = humanise_title(title)] and never
    uses it; the prompt is built from the raw title. *)
Definition build_prompt (category title source_path : str) : str :=
  let title_label := humanise_title title in
  let lines :=
    [ py "You are maintaining a knowledge base of AutoHotkey examples.";
      py "Category: " ++ category;
      py "Example ID: " ++ title;
      py "Source Path: " ++ source_path;
      py "Return the exact AutoHotkey snippet associated with this reference." ] in
  join [LF] lines.

(** ** iterate_snippets *)

(** One entry of [sorted(root.rglob("*.ahk"))]: the parts of its path
    relative to [root] (the last one is the file name), whether it is a
    regular file, and its text as [read_text] decodes it. *)
Record SourceFile := {
  rel_parts : list str;
  is_file : bool;
  text : str;
}.

(** [path.name] *)
Definition file_name (f : SourceFile) : str := List.last (rel_parts f) [].

(** [path.stem]: the name without its last suffix. *)
Definition file_stem (f : SourceFile) : str :=
  let name := file_name f in
  match rfind 46 name with
  | Some i =>
      if ((0 <? i) && (i <? length name - 1))%nat then take i name else name
  | None => name
  end.

(** [rel_path.as_posix()] *)
Definition as_posix (f : SourceFile) : str := join [47%N] (rel_parts f).

(** [rel_path.parts[0] if len(rel_path.parts) > 1 else rel_path.parent.name];
    the parent of a one-part relative path is ["."], whose name is empty. *)
Definition file_category (f : SourceFile) : str :=
  match rel_parts f with
  | first :: _ :: _ => first
  | _ => []
  end.

(** The body of the loop: [None] is [continue]. *)
Definition snippet_of_file (f : SourceFile) : option SnippetRecord :=
  if negb (is_file f) then None
  else
    let raw_text := lstrip_chars [BOM] (text f) in
    let snippet := strip raw_text in
    match snippet with
    | [] => None
    | _ :: _ =>
        let category := file_category f in
        let title := file_stem f in
        let prompt := build_prompt category title (as_posix f) in
        let metadata : gmap str MetaVal :=
          <[py "record_type" := MStr (py "snippet")]>
          (<[py "line_count" := MInt (Z.of_nat (length (splitlines snippet)))]>
          (<[py "filename" := MStr (file_name f)]>
          (<[py "category" := MStr category]>
          (<[py "source_path" := MStr (as_posix f)]> ∅)))) in
        let response := rstrip snippet ++ [LF] in
        Some {| prompt := prompt; response := response; metadata := metadata |}
    end.

Definition iterate_snippets (files : list SourceFile) : list SnippetRecord :=
  omap snippet_of_file files.


(** ** iterate_reference_elements *)

(** A row as [csv.DictReader] yields it: the fields by column name; a
    column the row is too short for holds [None]. *)
Abbreviation Row := (gmap str (option str)).

(** [row.get(key) or default] *)
Definition get_or (row : Row) (key default : str) : str :=
  match row !! key with
  | Some (Some (c :: s)) => c :: s
  | _ => default
  end.

(** [if value: parts.append(label + value)] *)
Definition append_if (label value : str) (parts : list str) : list str :=
  match value with
  | [] => parts
  | _ :: _ => parts ++ [label ++ value]
  end.

(** The exceptions of the loader: the one it raises itself for a
    missing file, and those [open] and the reader raise on a file that is
    there, which no [try] of the function catches: the path is a
    directory or may not be read (an [OSError], by the name of its
    class), the bytes are no UTF-8 (the decoding is strict), a field is
    longer than the [csv] module allows. *)
Inductive load_error :=
  | FileNotFoundError (msg : str)
  | OSError (class_name : str)
  | UnicodeDecodeError
  | CsvError (msg : str).

(** The CSV file at [csv_path]: whether [csv_path.exists()],
    [str(csv_path)], [csv_path.as_posix()], the exception that [open] or
    the reader raises on the file if one of them does, and the rows the
    reader yields when it reads the file to its end. *)
Record CsvFile := {
  csv_exists : bool;
  csv_str : str;
  csv_posix : str;
  csv_failure : option load_error;
  csv_rows : list Row;
}.

(** The body of the loop: [None] is [continue]. *)
Definition reference_of_row (source_csv : str) (row : Row) : option SnippetRecord :=
  let name := strip (get_or row (py "Name") []) in
  let description := strip (get_or row (py "Description") []) in
  match name, description with
  | [], _ | _, [] => None
  | _ :: _, _ :: _ =>
      let element_type :=
        match strip (get_or row (py "ElementType") (py "Unknown")) with
        | [] => py "Unknown"
        | c :: s => c :: s
        end in
      let source_file := strip (get_or row (py "SourceFile") []) in
      let logical_path := strip (get_or row (py "Path") []) in
      let prompt_lines :=
        [ py "You are maintaining a knowledge base of AutoHotkey reference entries.";
          py "Element Type: " ++ element_type;
          py "Element Name: " ++ name ] in
      let prompt_lines := append_if (py "Source File: ") source_file prompt_lines in
      let prompt_lines := append_if (py "Category Path: ") logical_path prompt_lines in
      let prompt_lines :=
        prompt_lines
        ++ [py "Provide the official description and any pertinent usage details."] in
      let prompt := join [LF] prompt_lines in
      let response_parts := [description] in
      let element_type_field := strip (get_or row (py "Type") []) in
      let response_parts :=
        append_if (py "Signature Type: ") element_type_field response_parts in
      let return_type := strip (get_or row (py "ReturnType") []) in
      let response_parts := append_if (py "Return Type: ") return_type response_parts in
      let symbol := strip (get_or row (py "Symbol") []) in
      let response_parts := append_if (py "Symbol: ") symbol response_parts in
      let parameters := strip (get_or row (py "Parameters") []) in
      let response_parts := append_if (py "Parameters: ") parameters response_parts in
      let response := strip (join [LF] response_parts) ++ [LF] in
      let metadata : gmap str MetaVal :=
        <[py "category_path" := MStr logical_path]>
        (<[py "source_file" := MStr source_file]>
        (<[py "source_csv" := MStr source_csv]>
        (<[py "name" := MStr name]>
        (<[py "element_type" := MStr element_type]>
        (<[py "record_type" := MStr (py "reference")]> ∅))))) in
      Some {| prompt := prompt; response := response; metadata := metadata |}
  end.

(** The generator as [main] and the unit tests consume it, with [list]:
    all its records, or the exception that ended it.  It raises for a
    missing file when its first item is asked for; an exception of
    [open] or of the reader passes through it, and [list] then returns
    nothing of what was yielded before. *)
Definition iterate_reference_elements (csv_path : CsvFile)
    : load_error + list SnippetRecord :=
  if negb (csv_exists csv_path) then
    inl (FileNotFoundError (py "Reference CSV not found: " ++ csv_str csv_path))
  else
    match csv_failure csv_path with
    | Some e => inl e
    | None => inr (omap (reference_of_row (csv_posix csv_path)) (csv_rows csv_path))
    end.

(** A row with a name and a description that are not blank. *)
Definition has_reference (row : Row) : bool :=
  negb (forallb isspace (get_or row (py "Name") []))
  && negb (forallb isspace (get_or row (py "Description") [])).

(** The fields of a row are strings that can be encoded. *)
Definition row_encodable (row : Row) : Prop :=
  map_Forall (fun _ field => match field with
                             | Some s => encodable s
                             | None => True
                             end) row.

(** ** dedupe *)

(** [hashlib.sha256(s.encode("utf-8")).hexdigest()] *)
Definition sha256_hex (s : str) : result str :=
  match utf8_encode s with
  | Some bytes => Ok (Sha256.hexdigest bytes)
  | None => Raise UnicodeEncodeError
  end.

Arguments sha256_hex : simpl never.

(** The hash a record carries: [rec.metadata.get("sha256")]. *)
Definition stored_hash (rec : SnippetRecord) : option MetaVal :=
  metadata rec !! py "sha256".

(** [m_out] is [m_in] with exactly one added key, ["sha256"]. *)
Definition adds_only_sha256 (m_in m_out : gmap str MetaVal) : Prop :=
  m_in !! py "sha256" = None /\ exists v, m_out = <[py "sha256" := v]> m_in.

(** The [for] loop of [dedupe], with its two accumulators. *)
Fixpoint dedupe_loop (records : list SnippetRecord)
    (unique : list SnippetRecord) (seen : gset str)
    : result (list SnippetRecord) :=
  match records with
  | [] => Ok unique
  | rec :: rest =>
      match sha256_hex (response rec) with
      | Raise e => Raise e
      | Ok digest =>
          if decide (digest ∈ seen) then dedupe_loop rest unique seen
          else
            let seen := {[digest]} ∪ seen in
            let enriched :=
              {| prompt := prompt rec;
                 response := response rec;
                 metadata := <[py "sha256" := MStr digest]> (metadata rec) |} in
            dedupe_loop rest (unique ++ [enriched]) seen
      end
  end.

Definition dedupe (records : list SnippetRecord) : result (list SnippetRecord) :=
  dedupe_loop records [] ∅.

(** What the loop appends for the input record at position [i]: the
    record is the first of the input with its response, its digest was
    not seen before the loop started, and the appended record is the
    input record with the digest stored under ["sha256"]. *)
Definition kept_from (rs : list SnippetRecord) (seen : gset str)
    (o : SnippetRecord) : Prop :=
  exists i r d,
    rs !! i = Some r
    /\ sha256_hex (response r) = Ok d
    /\ (d ∉ seen)
    /\ prompt o = prompt r
    /\ response o = response r
    /\ metadata o = <[py "sha256" := MStr d]> (metadata r)
    /\ (forall j r', (j < i)%nat -> rs !! j = Some r' ->
                     sha256_hex (response r') <> Ok d).



(** ** The store of list objects

    [split_records] receives a reference to the caller's list, copies it
    and shuffles the copy in place.  List objects live in a store; a
    location is an index into it, and a new object is put at its end. *)

Abbreviation loc := nat.
Abbreviation store := (list (list SnippetRecord)).

(** Computations that read and write the store and may raise. *)
Definition M (A : Type) : Type := store -> result A * store.

Definition ret {A} (a : A) : M A := fun h => (Ok a, h).
Definition raise {A} (e : exn) : M A := fun h => (Raise e, h).
Definition bind {A B} (m : M A) (k : A -> M B) : M B :=
  fun h =>
    match m h with
    | (Ok a, h') => k a h'
    | (Raise e, h') => (Raise e, h')
    end.
Definition lift {A} (r : result A) : M A := fun h => (r, h).

#[global] Instance M_ret : MRet M := @ret.
#[global] Instance M_bind : MBind M := fun A B k m => bind m k.

(** The items of the list object at [l]; every reference of a running
    program points to an object, so the default is never met there. *)
Definition items (h : store) (l : loc) : list SnippetRecord :=
  default [] (h !! l).

(** [list(x)]: a new list object with the items of [x]. *)
Definition py_list (x : loc) : M loc :=
  fun h => (Ok (length h), h ++ [items h x]).

(** [len(x)] *)
Definition len (x : loc) : M Z :=
  fun h => (Ok (Z.of_nat (length (items h x))), h).

(** An index as [x[i]] reads it: negative indices count from the end. *)
Definition index_of (n : nat) (i : Z) : option nat :=
  let i := (if i <? 0 then i + Z.of_nat n else i)%Z in
  if ((0 <=? i) && (i <? Z.of_nat n))%Z then Some (Z.to_nat i) else None.

(** [x[i]] *)
Definition getitem (x : loc) (i : Z) : M SnippetRecord :=
  fun h =>
    match index_of (length (items h x)) i with
    | Some k =>
        match items h x !! k with
        | Some r => (Ok r, h)
        | None => (Raise (IndexError (py "list index out of range")), h)
        end
    | None => (Raise (IndexError (py "list index out of range")), h)
    end.

(** [x[i] = r] *)
Definition setitem (x : loc) (i : Z) (r : SnippetRecord) : M unit :=
  fun h =>
    match index_of (length (items h x)) i with
    | Some k => (Ok tt, <[x := <[k := r]> (items h x)]> h)
    | None => (Raise (IndexError (py "list assignment index out of range")), h)
    end.

(** A bound of a slice, clamped as [PySlice_AdjustIndices] does for a
    step of one. *)
Definition clamp (n : Z) (i : Z) : Z :=
  if (i <? 0)%Z then Z.max 0 (i + n) else Z.min i n.

(** [x[lo:hi]], a new list; [None] is an omitted bound. *)
Definition slice_list {A} (l : list A) (lo hi : option Z) : list A :=
  let n := Z.of_nat (length l) in
  let start := match lo with Some i => clamp n i | None => 0%Z end in
  let stop := match hi with Some i => clamp n i | None => n end in
  take (Z.to_nat (stop - start)) (drop (Z.to_nat start) l).

Definition slice (x : loc) (lo hi : option Z) : M (list SnippetRecord) :=
  fun h => (Ok (slice_list (items h x) lo hi), h).

(** ** Numbers *)

Import PyFloat.

(** [float(n)] for an int, as the product of an int and a float converts
    it: rounded to nearest, [OverflowError] beyond the range of floats. *)
Definition float_of_int (n : Z) : result float :=
  match binary_normalize prec emax n 0 false with
  | S754_infinity _ => Raise (OverflowError (py "int too large to convert to float"))
  | x => Ok x
  end.

(** [n * x] for an int [n] and a float [x] *)
Definition int_mul_float (n : Z) (x : float) : result float :=
  match float_of_int n with
  | Ok y => Ok (mul y x)
  | Raise e => Raise e
  end.

(** [int(x)]: truncation towards zero. *)
Definition int_of_float (x : float) : result Z :=
  match x with
  | S754_zero _ => Ok 0%Z
  | S754_finite s m e =>
      let a := match e with
               | Zneg p => (Zpos m / 2 ^ Zpos p)%Z
               | _ => (Zpos m * 2 ^ e)%Z
               end in
      Ok (if s then (- a)%Z else a)
  | S754_infinity _ =>
      Raise (OverflowError (py "cannot convert float infinity to integer"))
  | S754_nan => Raise (ValueError (py "cannot convert float NaN to integer"))
  end.

(** [int(n * x)] *)
Definition int_times (n : Z) (x : float) : result Z :=
  match int_mul_float n x with
  | Ok y => int_of_float y
  | Raise e => Raise e
  end.

Definition int_of_product (n : Z) (x : float) : M Z := lift (int_times n x).

(** ** random.Random

    The generator is the standard library's; the splitter uses two things
    of it: seeding from an int, and [_randbelow(n)], which returns an int
    in [range(n)] for a positive [n] and advances the generator. *)
Class Random := {
  rng_state : Type;
  seed_rng : Z -> rng_state;
  randbelow : rng_state -> Z -> Z * rng_state;
  randbelow_range : forall s n, (0 < n)%Z -> (0 <= (randbelow s n).1 < n)%Z;
}.

Section Splitter.

Context {R : Random}.

(** [random.Random.shuffle]:
    [for i in reversed(range(1, len(x))): j = randbelow(i + 1);
     x[i], x[j] = x[j], x[i]].  The loop counter runs downwards and the
    loop ends below one. *)
Fixpoint shuffle_loop (x : loc) (i : nat) (rng : rng_state) : M rng_state :=
  match i with
  | O => ret rng
  | S i' =>
      let '(j, rng) := randbelow rng (Z.of_nat i + 1) in
      xj ← getitem x j;
      xi ← getitem x (Z.of_nat i);
      setitem x (Z.of_nat i) xj;;
      setitem x j xi;;
      shuffle_loop x i' rng
  end.

Definition shuffle (rng : rng_state) (x : loc) : M rng_state :=
  n ← len x;
  shuffle_loop x (Z.to_nat (n - 1)) rng.

(** ** split_records *)

Definition split_records (records : loc) (val_ratio test_ratio : float)
    (seed : Z)
    : M (list SnippetRecord * list SnippetRecord * list SnippetRecord) :=
  if negb (le zero val_ratio && lt val_ratio one) then
    raise (ValueError (py "val-ratio must be in [0, 1)"))
  else if negb (le zero test_ratio && lt test_ratio one) then
    raise (ValueError (py "test-ratio must be in [0, 1)"))
  else if ge (add val_ratio test_ratio) one then
    raise (ValueError (py "val-ratio + test-ratio must be less than 1"))
  else
    records ← py_list records;
    let rng := seed_rng seed in
    shuffle rng records;;
    total ← len records;
    val_count ← int_of_product total val_ratio;
    test_count ← int_of_product total test_ratio;
    let train_count := (total - val_count - test_count)%Z in
    train ← slice records None (Some train_count);
    val ← slice records (Some train_count) (Some (train_count + val_count)%Z);
    test ← slice records (Some (train_count + val_count)%Z) None;
    ret (train, val, test).

(** ** The splitter on the items themselves

    What [shuffle] and [split_records] compute, written on the items of
    the list instead of a location of the store; the run of the code is
    compared with it below. *)

(** [x[i], x[j] = x[j], x[i]] *)
Definition swap_items (i j : nat) (l : list SnippetRecord) : list SnippetRecord :=
  match l !! j, l !! i with
  | Some xj, Some xi => <[j := xi]> (<[i := xj]> l)
  | _, _ => l
  end.

Fixpoint shuffle_items (i : nat) (rng : rng_state) (l : list SnippetRecord)
    : list SnippetRecord * rng_state :=
  match i with
  | O => (l, rng)
  | S i' =>
      let '(j, rng) := randbelow rng (Z.of_nat i + 1) in
      shuffle_items i' rng (swap_items i (Z.to_nat j) l)
  end.

Definition shuffled (seed : Z) (l : list SnippetRecord) : list SnippetRecord :=
  (shuffle_items (length l - 1) (seed_rng seed) l).1.

(** The three checks of the ratios, [true] when one of them raises. *)
Definition ratios_rejected (val_ratio test_ratio : float) : bool :=
  negb (le zero val_ratio && lt val_ratio one)
  || negb (le zero test_ratio && lt test_ratio one)
  || ge (add val_ratio test_ratio) one.

Definition split_items (records : list SnippetRecord)
    (val_ratio test_ratio : float) (seed : Z)
    : result (list SnippetRecord * list SnippetRecord * list SnippetRecord) :=
  if negb (le zero val_ratio && lt val_ratio one) then
    Raise (ValueError (py "val-ratio must be in [0, 1)"))
  else if negb (le zero test_ratio && lt test_ratio one) then
    Raise (ValueError (py "test-ratio must be in [0, 1)"))
  else if ge (add val_ratio test_ratio) one then
    Raise (ValueError (py "val-ratio + test-ratio must be less than 1"))
  else
    let records := shuffled seed records in
    let total := Z.of_nat (length records) in
    match int_times total val_ratio with
    | Raise e => Raise e
    | Ok val_count =>
        match int_times total test_ratio with
        | Raise e => Raise e
        | Ok test_count =>
            let train_count := (total - val_count - test_count)%Z in
            Ok (slice_list records None (Some train_count),
                slice_list records (Some train_count)
                                   (Some (train_count + val_count)%Z),
                slice_list records (Some (train_count + val_count)%Z) None)
        end
    end.

End Splitter.

(** A generator to run the splitter with: a linear congruential one. *)
#[program] Definition lcg : Random := {|
  rng_state := Z;
  seed_rng := fun seed => seed;
  randbelow := fun s n =>
    ((s mod n)%Z, ((6364136223846793005 * s + 1442695040888963407) mod 2 ^ 64)%Z);
|}.
Next Obligation. intros s n Hn. simpl. apply Z.mod_pos_bound. exact Hn. Qed.

End BuildDataset.

(* ===================================================================== *)
(** * src/data_prep.py *)
(* ===================================================================== *)

Module DataPrep.

Import PyStr.

(** The values [to_harmony] builds: strings, lists, and dicts in the
    order their keys were inserted. *)
Local Unset Elimination Schemes.
Inductive pyval :=
  | VStr (s : str)
  | VList (l : list pyval)
  | VDict (d : list (str * pyval)).
Local Set Elimination Schemes.

(** [d[key]] *)
Fixpoint dict_get (key : str) (d : list (str * pyval)) : option pyval :=
  match d with
  | [] => None
  | (k, v) :: rest => if decide (k = key) then Some v else dict_get key rest
  end.

Definition message (role content : str) : pyval :=
  VDict [(py "role", VStr role); (py "content", VStr content)].

Definition to_harmony (prompt response : str) : pyval :=
  VDict
    [(py "messages",
      VList
        [ message (py "system") (py "Reasoning medium. You are a helpful assistant.");
          message (py "user") (strip prompt);
          message (py "assistant") (strip response) ])].

(** [v["messages"]] when it is a list, and [m[key]] when it is a string. *)
Definition messages_of (v : pyval) : option (list pyval) :=
  match v with
  | VDict d => match dict_get (py "messages") d with
               | Some (VList l) => Some l
               | _ => None
               end
  | _ => None
  end.

Definition field (key : str) (m : pyval) : option str :=
  match m with
  | VDict d => match dict_get key d with
               | Some (VStr s) => Some s
               | _ => None
               end
  | _ => None
  end.

End DataPrep.

(* ===================================================================== *)
(** * Sample inputs, after the unit tests of the repository *)
(* ===================================================================== *)

Module Samples.

Import PyStr BuildDataset.

Definition rec (p r : str) (m : gmap str MetaVal) : SnippetRecord :=
  {| prompt := p; response := r; metadata := m |}.

(** [test_removes_duplicates] *)
Definition three_records : list SnippetRecord :=
  [ rec (py "prompt1") (py "response1") ∅;
    rec (py "prompt2") (py "response1") ∅;
    rec (py "prompt3") (py "response2") ∅ ].

(** [test_keeps_first_occurrence], with metadata that tells the two
    records apart. *)
Definition duplicates_with_origin : list SnippetRecord :=
  [ rec (py "first") (py "duplicate") {[ py "origin" := MStr (py "a") ]};
    rec (py "second") (py "duplicate") {[ py "origin" := MStr (py "b") ]} ].

(** [test_adds_sha256_to_metadata] *)
Definition with_metadata : list SnippetRecord :=
  [ rec (py "prompt") (py "response") {[ py "existing" := MStr (py "data") ]} ].

(** [str(n)] for a natural number. *)
Fixpoint decimal (fuel n : nat) (acc : str) : str :=
  match fuel with
  | O => acc
  | S fuel' =>
      let acc := (48 + N.of_nat (n mod 10))%N :: acc in
      if (n / 10 =? 0)%nat then acc else decimal fuel' (n / 10) acc
  end.

Definition str_of_nat (n : nat) : str := decimal (S n) n [].

(** [test_basic_split]: the records [p0, r0] to [p99, r99]. *)
Definition hundred_records : list SnippetRecord :=
  List.map (fun i => rec (py "p" ++ str_of_nat i) (py "r" ++ str_of_nat i) ∅)
           (seq 0 100).

(** [test_strips_bom], and a file whose text has a byte-order mark, a
    space and a second byte-order mark before the code. *)
Definition bom_file : SourceFile :=
  {| rel_parts := [py "bom.ahk"]; is_file := true;
     text := [BOM] ++ py "#Requires AutoHotkey v2.0" ++ [LF] ++ py "MsgBox('Test')" |}.

Definition bom_space_bom_file : SourceFile :=
  {| rel_parts := [py "bom.ahk"]; is_file := true;
     text := [BOM; 32%N; BOM] ++ py "MsgBox('Test')" |}.

(** A record that already carries a hash, and not that of its response. *)
Definition with_stale_hash : list SnippetRecord :=
  [ rec (py "p") (py "r") {[ py "sha256" := MStr (py "x") ]} ].

(** Files as the collector meets them: one with code, one with only
    white space, and a directory whose name ends in [.ahk]. *)
Definition gui_file : SourceFile :=
  {| rel_parts := [py "GUI"; py "Button_Click.ahk"]; is_file := true;
     text := py "MsgBox('Test')" |}.
Definition blank_file : SourceFile :=
  {| rel_parts := [py "whitespace.ahk"]; is_file := true;
     text := py "   " ++ [LF; LF] ++ py "  " |}.
Definition directory_entry : SourceFile :=
  {| rel_parts := [py "dir.ahk"]; is_file := false; text := [] |}.

(** A response that cannot be encoded, and a snippet with a reference
    entry of the same response behind it. *)
Definition surrogate_record : list SnippetRecord :=
  [ rec (py "p") [0xD800%N] ∅ ].

(** A change of the metadata that leaves the rest of a record alone. *)
Definition tag_record (r : SnippetRecord) : SnippetRecord :=
  {| prompt := prompt r; response := response r;
     metadata := <[py "tag" := MInt 1]> (metadata r) |}.

(** [test_skips_empty_name_or_description] *)
Definition reference_rows : list Row :=
  [ {[ py "Name" := Some []; py "Description" := Some (py "Description without name");
       py "ElementType" := Some (py "Function") ]};
    {[ py "Name" := Some (py "NameWithoutDescription"); py "Description" := Some [];
       py "ElementType" := Some (py "Function") ]};
    {[ py "Name" := Some (py "ValidEntry"); py "Description" := Some (py "Valid description");
       py "ElementType" := None; py "Parameters" := Some (py " param1 ") ]} ].

Definition reference_csv : CsvFile :=
  {| csv_exists := true; csv_str := py "test.csv"; csv_posix := py "test.csv";
     csv_failure := None; csv_rows := reference_rows |}.

(** A file that is there and is no UTF-8. *)
Definition undecodable_csv : CsvFile :=
  {| csv_exists := true; csv_str := py "bad.csv"; csv_posix := py "bad.csv";
     csv_failure := Some UnicodeDecodeError; csv_rows := [] |}.

(** What a run returned or yielded, nothing when it raised; the records
    of the sample file, and [three_records] without duplicates. *)
Definition returned (r : result (list SnippetRecord)) : list SnippetRecord :=
  match r with
  | Ok out => out
  | Raise _ => []
  end.

Definition yielded (r : load_error + list SnippetRecord) : list SnippetRecord :=
  match r with
  | inr references => references
  | inl _ => []
  end.

Definition reference_records : list SnippetRecord :=
  yielded (iterate_reference_elements reference_csv).

Definition deduped_three : list SnippetRecord :=
  returned (dedupe three_records).

End Samples.

(* ===================================================================== *)
(** * Properties of the string operations *)
(* ===================================================================== *)

Import PyStr PyFloat BuildDataset DataPrep Samples.

Section Strings.

Lemma drop_while_split (p : N -> bool) (s : str) :
  exists l, s = l ++ drop_while p s /\ forallb p l = true.
Proof.
  induction s as [|c s IH]; simpl.
  - exists []. done.
  - destruct (p c) eqn:Hc.
    + destruct IH as (l & Hl & Hp). exists (c :: l). simpl.
      rewrite Hc, Hp. split; [congruence | done].
    + exists []. done.
Qed.

Lemma drop_while_head (p : N -> bool) (s : str) x rest :
  drop_while p s = x :: rest -> p x = false.
Proof.
  induction s as [|c s IH]; simpl; [done |].
  destruct (p c) eqn:Hc; [done |]. intros [= -> _]. done.
Qed.

Lemma forallb_rev (p : N -> bool) (l : str) :
  forallb p (rev l) = forallb p l.
Proof.
  induction l as [|c l IH]; simpl; [done |].
  rewrite forallb_app, IH. simpl. rewrite andb_true_r. apply andb_comm.
Qed.

Lemma rstrip_split (s : str) :
  exists r, s = rstrip s ++ r /\ forallb isspace r = true.
Proof.
  unfold rstrip. destruct (drop_while_split isspace (rev s)) as (l & Hl & Hp).
  exists (rev l). rewrite forallb_rev. split; [| done].
  rewrite <- rev_app_distr, <- Hl. by rewrite rev_involutive.
Qed.

Lemma rstrip_last (s : str) x c :
  rstrip s = c ++ [x] -> isspace x = false.
Proof.
  unfold rstrip. intros H.
  apply (f_equal (@rev N)) in H. rewrite rev_involutive, rev_app_distr in H.
  simpl in H. by apply drop_while_head in H.
Qed.

(** While something is left of it, [rstrip] keeps the first character. *)
Lemma rstrip_head (s : str) x rest :
  rstrip s = x :: rest -> exists rest', s = x :: rest'.
Proof.
  intros H. destruct (rstrip_split s) as (r & Hs & _).
  rewrite H in Hs. exists (rest ++ r). done.
Qed.

Lemma strip_stripped_of (s : str) : stripped_of s (strip s).
Proof.
  unfold strip, lstrip. split; [| split].
  - destruct (drop_while_split isspace s) as (l & Hl & Hp).
    destruct (rstrip_split (drop_while isspace s)) as (r & Hr & Hq).
    exists l, r. split; [| done]. rewrite <- Hr. done.
  - intros x c' H. apply rstrip_head in H as [rest' H].
    by apply drop_while_head in H.
  - intros x c' H. by apply rstrip_last in H.
Qed.

End Strings.

(* ===================================================================== *)
(** * data_prep: the Harmony structure *)
(* ===================================================================== *)

Section Harmony.

(** C10. For every prompt and response, [to_harmony] returns a structure
    whose ["messages"] field is a list of exactly three messages, with the
    roles ["system"], ["user"] and ["assistant"] in that order; the content
    of the user message is the prompt without its leading and trailing
    white space, and the content of the assistant message is the response
    stripped in the same way. *)
Theorem to_harmony_three_messages (prompt response : str) :
  exists m0 m1 m2,
    messages_of (to_harmony prompt response) = Some [m0; m1; m2]
    /\ field (py "role") m0 = Some (py "system")
    /\ field (py "role") m1 = Some (py "user")
    /\ field (py "role") m2 = Some (py "assistant")
    /\ field (py "content") m1 = Some (strip prompt)
    /\ field (py "content") m2 = Some (strip response)
    /\ stripped_of prompt (strip prompt)
    /\ stripped_of response (strip response).
Proof.
  eexists _, _, _. split; [reflexivity |].
  repeat split; try reflexivity; apply strip_stripped_of.
Qed.

End Harmony.

(* ===================================================================== *)
(** * Deduplication *)
(* ===================================================================== *)

Section Dedupe.

Implicit Types (rs unique out kept : list SnippetRecord) (seen : gset str).

Lemma kept_from_cons r rs seen seen' o :
  kept_from rs seen' o ->
  seen ⊆ seen' ->
  (forall d, sha256_hex (response r) = Ok d -> d ∈ seen') ->
  kept_from (r :: rs) seen o.
Proof.
  intros (i & r0 & d & Hi & Hd & Hns & Hp & Hr & Hm & Hfirst) Hsub Hin.
  exists (S i), r0, d. repeat split; try done.
  - set_solver.
  - intros [|j] r' Hj Hr'; simpl in Hr'.
    + injection Hr' as <-. intros Hd'. apply Hns. by apply Hin.
    + apply (Hfirst j); [lia | done].
Qed.

Lemma kept_from_stored_hash rs seen o :
  kept_from rs seen o ->
  exists d, sha256_hex (response o) = Ok d
            /\ stored_hash o = Some (MStr d) /\ (d ∉ seen).
Proof.
  intros (i & r & d & _ & Hd & Hns & _ & Hr & Hm & _).
  exists d. unfold stored_hash. rewrite Hr, Hm, lookup_insert_eq. done.
Qed.

(** The loop only appends, what it appends comes from first occurrences,
    and the appended records carry pairwise different hashes. *)
Lemma dedupe_loop_spec rs : forall unique seen out,
  dedupe_loop rs unique seen = Ok out ->
  exists kept,
    out = unique ++ kept
    /\ (forall o, o ∈ kept -> kept_from rs seen o)
    /\ NoDup (stored_hash <$> kept).
Proof.
  induction rs as [|r rs IH]; intros unique seen out; simpl.
  - intros [= <-]. exists []. rewrite app_nil_r.
    split; [done |]. split; [| constructor]. intros o Ho. inversion Ho.
  - destruct (sha256_hex (response r)) as [d|e] eqn:Hd; [| done].
    destruct (decide (d ∈ seen)) as [Hin|Hnin].
    + intros H. apply IH in H as (kept & -> & Hk & Hnd).
      exists kept. split; [done |]. split; [| done].
      intros o Ho. apply (kept_from_cons _ _ _ seen); [by apply Hk | done |].
      intros d' Hd'. rewrite Hd in Hd'. by injection Hd' as <-.
    + intros H. apply IH in H as (kept & -> & Hk & Hnd).
      set (enriched := {| prompt := prompt r; response := response r;
                          metadata := <[py "sha256" := MStr d]> (metadata r) |}).
      exists (enriched :: kept). split; [by rewrite <- app_assoc |]. split.
      * intros o Ho. apply elem_of_cons in Ho as [-> | Ho].
        -- exists 0%nat, r, d. repeat split; try done.
           intros j r' Hj. lia.
        -- apply (kept_from_cons _ _ _ ({[d]} ∪ seen)); [by apply Hk | set_solver |].
           intros d' Hd'. rewrite Hd in Hd'. injection Hd' as <-. set_solver.
      * simpl. constructor; [| done].
        intros Hin. apply list_elem_of_fmap in Hin as (o & Ho & Hoin).
        apply Hk, kept_from_stored_hash in Hoin as (d' & _ & Hs & Hns).
        unfold stored_hash in Ho at 1. simpl in Ho.
        rewrite lookup_insert_eq, Hs in Ho. injection Ho as <-. set_solver.
Qed.

Lemma dedupe_spec rs out :
  dedupe rs = Ok out ->
  (forall o, o ∈ out -> kept_from rs ∅ o) /\ NoDup (stored_hash <$> out).
Proof.
  intros H. apply dedupe_loop_spec in H as (kept & -> & Hk & Hnd). done.
Qed.

(** C5. For every input list, the records returned by [dedupe] carry
    pairwise distinct response hashes: every returned record stores a
    ["sha256"] value, the digest of its response, and the stored values of
    two different positions of the output differ. *)
Theorem dedupe_hashes_unique rs out :
  dedupe rs = Ok out ->
  (forall o, o ∈ out ->
     exists d, sha256_hex (response o) = Ok d /\ stored_hash o = Some (MStr d))
  /\ NoDup (stored_hash <$> out)
  /\ (forall i j oi oj, out !! i = Some oi -> out !! j = Some oj ->
        i <> j -> stored_hash oi <> stored_hash oj).
Proof.
  intros H. apply dedupe_spec in H as [Hk Hnd]. split; [| split; [done |]].
  - intros o Ho. apply Hk, kept_from_stored_hash in Ho as (d & ? & ? & _). eauto.
  - intros i j oi oj Hi Hj Hne Heq. apply Hne.
    apply (NoDup_lookup _ i j (stored_hash oi) Hnd).
    + by rewrite list_lookup_fmap, Hi.
    + by rewrite list_lookup_fmap, Hj, Heq.
Qed.

(** The digest of a response, as [dedupe] stores it. *)
Lemma stored_hash_of_response rs out o :
  dedupe rs = Ok out -> o ∈ out ->
  stored_hash o = match sha256_hex (response o) with
                  | Ok d => Some (MStr d)
                  | Raise _ => None
                  end.
Proof.
  intros H Ho. apply dedupe_spec in H as [Hk _].
  apply Hk, kept_from_stored_hash in Ho as (d & -> & -> & _). done.
Qed.

(** C2. For every input list of records, the output of [dedupe] holds at
    most one record per response string, and a record it holds is the
    first record of the input with that response: it is the input record
    at some position, prompt, response and metadata, with the digest of
    the response stored under ["sha256"] as [dedupe] stores it in every
    record it keeps, and no earlier input record has that response. *)
Theorem dedupe_keeps_first_occurrence rs out :
  dedupe rs = Ok out ->
  NoDup (response <$> out)
  /\ (forall o, o ∈ out ->
        exists i r d,
          rs !! i = Some r
          /\ sha256_hex (response r) = Ok d
          /\ o = {| prompt := prompt r;
                    response := response r;
                    metadata := <[py "sha256" := MStr d]> (metadata r) |}
          /\ (forall j r', (j < i)%nat -> rs !! j = Some r' ->
                           response r' <> response r)).
Proof.
  intros H. pose proof (dedupe_spec _ _ H) as [Hk Hnd]. split.
  - apply (NoDup_fmap_1 (fun s => match sha256_hex s with
                                   | Ok d => Some (MStr d)
                                   | Raise _ => None
                                   end)).
    rewrite <- list_fmap_compose.
    erewrite list_fmap_ext; [exact Hnd |].
    intros i o Hi. simpl. symmetry.
    apply (stored_hash_of_response rs out); [done |].
    by apply list_elem_of_lookup_2 in Hi.
  - intros o Ho. apply Hk in Ho as (i & r & d & Hi & Hd & _ & Hp & Hr & Hm & Hfirst).
    exists i, r, d. split; [done |]. split; [done |]. split.
    + destruct o as [po ro mo]. simpl in Hp, Hr, Hm. by subst.
    + intros j r' Hj Hr' Heq. apply (Hfirst j r' Hj Hr'). by rewrite Heq.
Qed.

(** C7, amended. A record that [dedupe] retains has the prompt and the
    response of an input record, and its metadata is the input metadata
    with the key ["sha256"] set to the digest of the response: every
    other key keeps its value, and when the input metadata has no
    ["sha256"] key, exactly that one key is added. *)
Theorem dedupe_frame rs out :
  dedupe rs = Ok out ->
  forall o, o ∈ out ->
    exists r d,
      r ∈ rs
      /\ sha256_hex (response r) = Ok d
      /\ prompt o = prompt r
      /\ response o = response r
      /\ metadata o = <[py "sha256" := MStr d]> (metadata r)
      /\ (forall k, k <> py "sha256" -> metadata o !! k = metadata r !! k)
      /\ (metadata r !! py "sha256" = None ->
            adds_only_sha256 (metadata r) (metadata o)
            /\ size (metadata o) = S (size (metadata r))).
Proof.
  intros H o Ho. apply dedupe_spec in H as [Hk _].
  apply Hk in Ho as (i & r & d & Hi & Hd & _ & Hp & Hr & Hm & _).
  exists r, d. split; [by apply list_elem_of_lookup_2 in Hi |].
  repeat split; try done.
  - intros k Hne. by rewrite Hm, lookup_insert_ne.
  - by exists (MStr d).
  - rewrite Hm. by apply map_size_insert_None.
Qed.

(** The loop leaves a list alone whose records already store the digest
    of their response, when these digests are pairwise different and none
    of them has been seen. *)
Lemma dedupe_loop_fixed l : forall unique seen,
  (forall o, o ∈ l ->
     exists d, sha256_hex (response o) = Ok d
               /\ stored_hash o = Some (MStr d) /\ (d ∉ seen)) ->
  NoDup (stored_hash <$> l) ->
  dedupe_loop l unique seen = Ok (unique ++ l).
Proof.
  induction l as [|o l IH]; intros unique seen Hall Hnd; simpl.
  - by rewrite app_nil_r.
  - destruct (Hall o) as (d & Hd & Hs & Hns); [apply list_elem_of_here |].
    rewrite Hd. destruct (decide (d ∈ seen)); [done |].
    assert (Ho : {| prompt := prompt o; response := response o;
                    metadata := <[py "sha256" := MStr d]> (metadata o) |} = o).
    { destruct o as [p r m]. simpl in *. f_equal. by apply insert_id. }
    rewrite Ho. simpl in Hnd. apply NoDup_cons in Hnd as [Hnotin Hnd].
    rewrite IH; [by rewrite <- app_assoc | | done].
    intros o' Ho'.
    destruct (Hall o') as (d' & Hd' & Hs' & Hns'); [by apply list_elem_of_further |].
    exists d'. repeat split; try done.
    intros Hin. apply elem_of_union in Hin as [Hin | Hin]; [| done].
    apply elem_of_singleton in Hin as ->. apply Hnotin.
    apply list_elem_of_fmap. exists o'. by rewrite Hs, Hs'.
Qed.

(** C9. [dedupe] is idempotent: applied to its own output it returns that
    output, no record removed and no prompt, response or metadata
    changed. *)
Theorem dedupe_idempotent rs out :
  dedupe rs = Ok out -> dedupe out = Ok out.
Proof.
  intros H. apply dedupe_spec in H as [Hk Hnd].
  unfold dedupe. rewrite dedupe_loop_fixed; [done | | done].
  intros o Ho. by apply Hk, kept_from_stored_hash in Ho.
Qed.

End Dedupe.

(** The claim C7 as it is written fails on a record that already has a
    ["sha256"] key: [dedupe] overwrites the value and adds no key. *)
Lemma dedupe_overwrites_existing_hash :
  ~ (forall rs out, dedupe rs = Ok out ->
       forall o, o ∈ out ->
         exists r, r ∈ rs /\ prompt o = prompt r /\ response o = response r
                   /\ adds_only_sha256 (metadata r) (metadata o)).
Proof.
  intros H.
  assert (Hout : exists o, dedupe with_stale_hash = Ok [o]).
  { eexists. vm_compute. reflexivity. }
  destruct Hout as [o Hout].
  destruct (H with_stale_hash [o] Hout o) as (r & Hr & _ & _ & Hnone & _).
  { apply list_elem_of_here. }
  apply list_elem_of_singleton in Hr as ->.
  assert (Hsome : metadata (rec (py "p") (py "r") {[ py "sha256" := MStr (py "x") ]})
                  !! py "sha256" = Some (MStr (py "x"))).
  { apply lookup_singleton_eq. }
  congruence.
Qed.

Lemma dedupe_hashes_unique_witness :
  exists out,
    dedupe three_records = Ok out
    /\ length out = 2%nat
    /\ NoDup (stored_hash <$> out).
Proof.
  eexists. split; [vm_compute; reflexivity |]. split; [reflexivity |].
  eapply (dedupe_hashes_unique three_records). vm_compute. reflexivity.
Defined.

Lemma dedupe_keeps_first_occurrence_witness :
  exists out,
    dedupe duplicates_with_origin = Ok out
    /\ prompt <$> out = [py "first"]
    /\ (fun o => metadata o !! py "origin") <$> out = [Some (MStr (py "a"))]
    /\ NoDup (response <$> out)
    /\ (forall o, o ∈ out ->
          exists i r d,
            duplicates_with_origin !! i = Some r
            /\ sha256_hex (response r) = Ok d
            /\ o = {| prompt := prompt r;
                      response := response r;
                      metadata := <[py "sha256" := MStr d]> (metadata r) |}
            /\ (forall j r', (j < i)%nat -> duplicates_with_origin !! j = Some r' ->
                             response r' <> response r)).
Proof.
  eexists. split; [vm_compute; reflexivity |]. split; [reflexivity |].
  split; [vm_compute; reflexivity |].
  apply (dedupe_keeps_first_occurrence duplicates_with_origin).
  vm_compute. reflexivity.
Defined.

Lemma dedupe_frame_witness :
  exists out,
    dedupe with_metadata = Ok out
    /\ length out = 1%nat
    /\ forall o, o ∈ out ->
         exists r d,
           r ∈ with_metadata
           /\ sha256_hex (response r) = Ok d
           /\ prompt o = prompt r
           /\ response o = response r
           /\ metadata o = <[py "sha256" := MStr d]> (metadata r)
           /\ (forall k, k <> py "sha256" -> metadata o !! k = metadata r !! k)
           /\ (metadata r !! py "sha256" = None ->
                 adds_only_sha256 (metadata r) (metadata o)
                 /\ size (metadata o) = S (size (metadata r))).
Proof.
  eexists. split; [vm_compute; reflexivity |]. split; [reflexivity |].
  apply (dedupe_frame with_metadata). vm_compute. reflexivity.
Defined.

Lemma dedupe_idempotent_witness :
  exists out,
    dedupe (three_records ++ with_metadata) = Ok out
    /\ length out = 3%nat
    /\ dedupe out = Ok out.
Proof.
  eexists. split; [vm_compute; reflexivity |]. split; [reflexivity |].
  eapply (dedupe_idempotent (three_records ++ with_metadata)).
  vm_compute. reflexivity.
Defined.


(* ===================================================================== *)
(** * Floats: rounding of products and sums *)
(* ===================================================================== *)

Section Floats.

Local Open Scope Z_scope.

Lemma digits2_pos_bounds (p : positive) :
  2 ^ (Zpos (digits2_pos p) - 1) <= Zpos p < 2 ^ Zpos (digits2_pos p).
Proof.
  induction p as [p IH|p IH|]; simpl digits2_pos.
  - rewrite Pos2Z.inj_succ. replace (Z.succ (Zpos (digits2_pos p)) - 1) with (Z.succ (Zpos (digits2_pos p) - 1)) by lia.
    rewrite !Z.pow_succ_r by lia. lia.
  - rewrite Pos2Z.inj_succ. replace (Z.succ (Zpos (digits2_pos p)) - 1) with (Z.succ (Zpos (digits2_pos p) - 1)) by lia.
    rewrite !Z.pow_succ_r by lia. lia.
  - simpl. lia.
Qed.

Lemma shr_1_inv M k mrs :
  0 <= k -> shr_inv M k mrs -> shr_inv M (k + 1) (shr_1 mrs).
Proof.
  intros Hk (Hm & rem & Hrem & HM & Hr & Hs).
  assert (Hp : 0 < 2 ^ k) by (apply Z.pow_pos_nonneg; lia).
  assert (Hp1 : 2 ^ (k + 1) = 2 * 2 ^ k) by (rewrite Z.pow_add_r by lia; lia).
  destruct mrs as [m r s]. simpl in *. unfold shr_inv. rewrite Hp1.
  assert (Hr' : if r then 2 ^ k <= 2 * rem else 2 * rem < 2 ^ k).
  { destruct r; [by apply Hr | ]. destruct (Z.le_gt_cases (2 ^ k) (2 * rem)) as [H|H]; [| done].
    apply Hr in H. done. }
  assert (Hs' : if s then rem <> 0 /\ 2 * rem <> 2 ^ k else rem = 0 \/ 2 * rem = 2 ^ k).
  { destruct s; [by apply Hs |]. destruct (Z.eq_dec rem 0); [by left |].
    destruct (Z.eq_dec (2 * rem) (2 ^ k)); [by right |].
    assert (false = true) by (by apply Hs). done. }
  clear Hr Hs.
  destruct m as [|[p|p|]|p]; simpl; [| | | | exfalso; lia].
  - split; [lia |]. exists rem. split; [lia |]. split; [lia |].
    destruct r, s; simpl; split; split; (done || lia).
  - split; [lia |]. exists (2 ^ k + rem). split; [lia |]. split; [lia |].
    destruct r, s; simpl; split; split; (done || lia).
  - split; [lia |]. exists rem. split; [lia |]. split; [lia |].
    destruct r, s; simpl; split; split; (done || lia).
  - split; [lia |]. exists (2 ^ k + rem). split; [lia |]. split; [lia |].
    destruct r, s; simpl; split; split; (done || lia).
Qed.

Lemma iter_shr_inv (p : positive) : forall M k mrs,
  0 <= k -> shr_inv M k mrs -> shr_inv M (k + Zpos p) (SpecFloat.iter_pos shr_1 p mrs).
Proof.
  induction p as [p IH|p IH|]; intros M k mrs Hk H; simpl.
  - replace (k + Zpos p~1) with (k + 1 + Zpos p + Zpos p) by lia.
    apply IH; [lia |]. apply IH; [lia |]. by apply shr_1_inv.
  - replace (k + Zpos p~0) with (k + Zpos p + Zpos p) by lia.
    apply IH; [lia |]. by apply IH.
  - by apply shr_1_inv.
Qed.

Lemma fexp_eq e : fexp prec emax e = Z.max (e - 53) (-1074).
Proof. reflexivity. Qed.

Lemma shr_inv_div M k mrs :
  0 <= k -> shr_inv M k mrs ->
  shr_m mrs = M / 2 ^ k
  /\ (M mod 2 ^ k = 0 -> shr_r mrs = false /\ shr_s mrs = false).
Proof.
  intros Hk (Hm & rem & Hrem & HM & Hr & Hs).
  assert (Hp : 0 < 2 ^ k) by (apply Z.pow_pos_nonneg; lia).
  split.
  - apply (Z.div_unique_pos M (2 ^ k) (shr_m mrs) rem); lia.
  - intros Hmod.
    assert (Hrm : M mod 2 ^ k = rem).
    { symmetry. apply (Z.mod_unique_pos M (2 ^ k) (shr_m mrs) rem); lia. }
    rewrite Hrm in Hmod. subst rem. split.
    + destruct (shr_r mrs); [| done]. assert (2 ^ k <= 2 * 0) by (by apply Hr). lia.
    + destruct (shr_s mrs); [| done]. assert (0 <> 0 /\ 2 * 0 <> 2 ^ k) by (by apply Hs). lia.
Qed.

(** Rounding to nearest, ties to even, after [k] bits were shifted out. *)
Lemma round_nearest_even_spec M k mrs :
  0 <= k -> shr_inv M k mrs ->
  let q := round_nearest_even (shr_m mrs) (loc_of_shr_record mrs) in
  M / 2 ^ k <= q <= M / 2 ^ k + 1
  /\ 2 * (q * 2 ^ k) <= 2 * M + 2 ^ k
  /\ (M mod 2 ^ k = 0 -> q = M / 2 ^ k).
Proof.
  intros Hk Hinv q.
  destruct (shr_inv_div M k mrs Hk Hinv) as [Hdiv Hexact].
  destruct Hinv as (Hm & rem & Hrem & HM & Hr & Hs).
  assert (Hp : 0 < 2 ^ k) by (apply Z.pow_pos_nonneg; lia).
  rewrite <- Hdiv. subst q.
  destruct mrs as [m r s]. simpl in *.
  split; [| split].
  - destruct r, s; simpl; try lia; destruct (Z.even m); lia.
  - destruct r, s; simpl.
    + assert (2 ^ k <= 2 * rem) by (by apply Hr). nia.
    + assert (2 ^ k <= 2 * rem) by (by apply Hr). destruct (Z.even m); nia.
    + nia.
    + nia.
  - intros Hmod. destruct (Hexact Hmod) as [-> ->]. done.
Qed.

Lemma shr_fexp_exact M E :
  0 < M ->
  let k := Z.max 0 (fexp prec emax (Zdigits2 M + E) - E) in
  exists mrs, shr_fexp prec emax M E loc_Exact = (mrs, E + k) /\ shr_inv M k mrs.
Proof.
  intros HM k. unfold shr_fexp, shr. simpl shr_record_of_loc.
  assert (H0 : shr_inv M 0 {| shr_m := M; shr_r := false; shr_s := false |}).
  { split; [simpl; lia |]. exists 0. simpl. repeat split; try lia; try done. }
  subst k. destruct (fexp prec emax (Zdigits2 M + E) - E) as [|p|p] eqn:Hs.
  - eexists. split; [by rewrite Z.add_0_r |]. done.
  - eexists. split; [reflexivity |].
    replace (Z.max 0 (Zpos p)) with (0 + Zpos p) by lia.
    by apply iter_shr_inv.
  - eexists. split; [by rewrite Z.add_0_r |]. done.
Qed.

Lemma shr_fexp_small q e :
  0 <= q < 2 ^ 53 -> -1074 <= e ->
  shr_fexp prec emax q e loc_Exact = ({| shr_m := q; shr_r := false; shr_s := false |}, e).
Proof.
  intros Hq He. unfold shr_fexp, shr. simpl shr_record_of_loc.
  assert (Hd : Zdigits2 q <= 53).
  { destruct q as [|p|p]; simpl; [lia | | lia].
    pose proof (digits2_pos_bounds p) as [Hlo _].
    destruct (Z.le_gt_cases (Zpos (digits2_pos p)) 53) as [|Hgt]; [done |].
    assert (2 ^ 53 <= 2 ^ (Zpos (digits2_pos p) - 1)) by (apply Z.pow_le_mono_r; lia). lia. }
  rewrite fexp_eq.
  destruct (Z.max (Zdigits2 q + e - 53) (-1074) - e) as [|p|p] eqn:Hs; [done | lia | done].
Qed.

Lemma binary_round_aux_spec (M : positive) E :
  let k := Z.max 0 (fexp prec emax (Zpos (digits2_pos M) + E) - E) in
  exists q,
    Zpos M / 2 ^ k <= q <= Zpos M / 2 ^ k + 1
    /\ 2 * (q * 2 ^ k) <= 2 * Zpos M + 2 ^ k
    /\ (Zpos M mod 2 ^ k = 0 -> q = Zpos M / 2 ^ k)
    /\ q <= 2 ^ 53
    /\ binary_round_aux prec emax false (Zpos M) E loc_Exact
       = if q =? 2 ^ 53 then finish (2 ^ 52) (E + k + 1) else finish q (E + k).
Proof.
  intros k.
  destruct (shr_fexp_exact (Zpos M) E) as (mrs & Hshr & Hinv); [lia |].
  change (Zdigits2 (Zpos M)) with (Zpos (digits2_pos M)) in Hshr, Hinv.
  fold k in Hshr, Hinv.
  assert (Hk : 0 <= k) by lia.
  pose proof (round_nearest_even_spec _ _ _ Hk Hinv) as (Hq & Hup & Hex).
  set (q := round_nearest_even (shr_m mrs) (loc_of_shr_record mrs)) in *.
  assert (Hp : 0 < 2 ^ k) by (apply Z.pow_pos_nonneg; lia).
  assert (Hdiv : 0 <= Zpos M / 2 ^ k < 2 ^ 53).
  { split; [apply Z.div_pos; lia |].
    apply Z.div_lt_upper_bound; [lia |].
    pose proof (digits2_pos_bounds M) as [_ Hhi].
    rewrite <- Z.pow_add_r by lia.
    eapply Z.lt_le_trans; [exact Hhi |].
    apply Z.pow_le_mono_r; [lia |]. subst k. rewrite fexp_eq. lia. }
  assert (He : -1074 <= E + k) by (subst k; rewrite fexp_eq; lia).
  exists q. repeat split; try lia; try done.
  unfold binary_round_aux. rewrite Hshr.
  fold q. destruct (Z.eqb_spec q (2 ^ 53)) as [Heq | Hne].
  - rewrite Heq. unfold shr_fexp, shr. simpl shr_record_of_loc.
    change (Zdigits2 (2 ^ 53)) with 54. rewrite fexp_eq.
    replace (Z.max (54 + (E + k) - 53) (-1074) - (E + k)) with 1 by lia.
    change (2 ^ 53) with 9007199254740992. change (2 ^ 52) with 4503599627370496.
    reflexivity.
  - rewrite shr_fexp_small by lia. simpl. reflexivity.
Qed.

Lemma bpow_pos e : (0 < bpow e)%R.
Proof. apply powerRZ_lt. lra. Qed.

Lemma bpow_add a b : bpow (a + b) = (bpow a * bpow b)%R.
Proof. apply powerRZ_add. lra. Qed.

Lemma bpow_0 : bpow 0 = 1%R.
Proof. reflexivity. Qed.

Lemma bpow_IZR k : 0 <= k -> bpow k = IZR (2 ^ k).
Proof.
  intros Hk. unfold bpow. rewrite <- (Z2Nat.id k Hk) at 1 2.
  rewrite <- pow_powerRZ, pow_IZR. done.
Qed.

Lemma bpow_le a b : a <= b -> (bpow a <= bpow b)%R.
Proof.
  intros H. replace b with (a + (b - a)) by lia. rewrite bpow_add.
  rewrite (bpow_IZR (b - a)) by lia.
  assert (1 <= IZR (2 ^ (b - a)))%R.
  { apply IZR_le. assert (0 < 2 ^ (b - a)) by (apply Z.pow_pos_nonneg; lia). lia. }
  pose proof (bpow_pos a). nra.
Qed.

Lemma bpow_lt a b : a < b -> (bpow a < bpow b)%R.
Proof.
  intros H. replace b with (a + (b - a)) by lia. rewrite bpow_add.
  rewrite (bpow_IZR (b - a)) by lia.
  assert (2 <= IZR (2 ^ (b - a)))%R.
  { apply IZR_le. replace (b - a) with (Z.succ (b - a - 1)) by lia.
    rewrite Z.pow_succ_r by lia.
    assert (0 < 2 ^ (b - a - 1)) by (apply Z.pow_pos_nonneg; lia). lia. }
  pose proof (bpow_pos a). nra.
Qed.

Lemma bpow_lt_inv a b : (bpow a < bpow b)%R -> a < b.
Proof.
  intros H. destruct (Z.lt_ge_cases a b) as [|Hge]; [done |].
  apply bpow_le in Hge. lra.
Qed.

Lemma bpow_opp e : (bpow e * bpow (- e) = 1)%R.
Proof. rewrite <- bpow_add. replace (e + - e) with 0 by lia. apply bpow_0. Qed.

Lemma F2R_shift m e k : 0 <= k -> F2R (m * 2 ^ k) e = F2R m (e + k).
Proof.
  intros Hk. unfold F2R. rewrite mult_IZR, <- bpow_IZR by done.
  rewrite bpow_add. lra.
Qed.

Lemma F2R_mul m1 e1 m2 e2 : F2R (m1 * m2) (e1 + e2) = (F2R m1 e1 * F2R m2 e2)%R.
Proof. unfold F2R. rewrite mult_IZR, bpow_add. lra. Qed.

Lemma F2R_le m1 m2 e : m1 <= m2 -> (F2R m1 e <= F2R m2 e)%R.
Proof.
  intros H. unfold F2R. apply IZR_le in H. pose proof (bpow_pos e). nra.
Qed.

Lemma F2R_lt m1 m2 e : m1 < m2 -> (F2R m1 e < F2R m2 e)%R.
Proof.
  intros H. unfold F2R. apply IZR_lt in H. pose proof (bpow_pos e). nra.
Qed.

Lemma F2R_bpow k e : 0 <= k -> F2R (2 ^ k) e = bpow (e + k).
Proof.
  intros Hk. unfold F2R. rewrite <- bpow_IZR by done. rewrite bpow_add. lra.
Qed.

Lemma finish_value q e r :
  0 <= q -> finish q e = r ->
  r <> S754_nan
  /\ (forall s m e', r = S754_finite s m e' ->
        s = false /\ Zpos m = q /\ e' = e /\ e <= 971)
  /\ (forall s, r = S754_zero s -> q = 0)
  /\ (forall s, r = S754_infinity s -> 971 < e).
Proof.
  intros Hq <-. unfold finish. destruct q as [|p|p]; [| | lia].
  - repeat split; try done.
  - change (emax - prec) with 971. destruct (Z.leb_spec e 971).
    + repeat split; try done; congruence.
    + repeat split; try done.
Qed.

(** The shape of a rounded product or sum: a mantissa [q], rounded from
    [M / 2 ^ k], at the exponent [E + k]. *)
Lemma round_shape (M : positive) E :
  let k := Z.max 0 (fexp prec emax (Zpos (digits2_pos M) + E) - E) in
  let r := binary_round_aux prec emax false (Zpos M) E loc_Exact in
  exists q,
    Zpos M / 2 ^ k <= q <= Zpos M / 2 ^ k + 1
    /\ 2 * (q * 2 ^ k) <= 2 * Zpos M + 2 ^ k
    /\ (Zpos M mod 2 ^ k = 0 -> q = Zpos M / 2 ^ k)
    /\ r <> S754_nan
    /\ (forall s, r = S754_zero s -> q = 0)
    /\ (forall s, r = S754_infinity s -> 970 < E + k)
    /\ (forall s m e, r = S754_finite s m e ->
          s = false /\ Zpos m < 2 ^ 53 /\ -1074 <= e
          /\ F2R (Zpos m) e = F2R q (E + k)).
Proof.
  intros k r.
  destruct (binary_round_aux_spec M E) as (q & Hq & Hup & Hex & Hle & Hr).
  fold k in Hq, Hup, Hex, Hr. fold r in Hr.
  assert (Hk : 0 <= k) by lia.
  assert (Hp : 0 < 2 ^ k) by (apply Z.pow_pos_nonneg; lia).
  assert (Hq0 : 0 <= q).
  { assert (0 <= Zpos M / 2 ^ k) by (apply Z.div_pos; lia). lia. }
  assert (He : -1074 <= E + k) by (subst k; rewrite fexp_eq; lia).
  exists q. repeat split; try lia; try done.
  - destruct (q =? 2 ^ 53); symmetry in Hr; apply finish_value in Hr; try lia; tauto.
  - intros s Hs. rewrite Hs in Hr. destruct (Z.eqb_spec q (2 ^ 53)); symmetry in Hr.
    + apply finish_value in Hr as (_ & _ & H0 & _); [| lia]. specialize (H0 s eq_refl). lia.
    + apply finish_value in Hr as (_ & _ & H0 & _); [| lia]. by apply (H0 s).
  - intros s Hs. rewrite Hs in Hr. destruct (Z.eqb_spec q (2 ^ 53)); symmetry in Hr.
    + apply finish_value in Hr as (_ & _ & _ & H0); [| lia]. specialize (H0 s eq_refl). lia.
    + apply finish_value in Hr as (_ & _ & _ & H0); [| lia]. specialize (H0 s eq_refl). lia.
  - rewrite H in Hr. destruct (Z.eqb_spec q (2 ^ 53)); symmetry in Hr;
      (apply finish_value in Hr as (_ & H0 & _); [| lia]); by destruct (H0 s m e eq_refl).
  - rewrite H in Hr. destruct (Z.eqb_spec q (2 ^ 53)); symmetry in Hr;
      (apply finish_value in Hr as (_ & H0 & _); [| lia]);
      destruct (H0 s m e eq_refl) as (_ & -> & _); lia.
  - rewrite H in Hr. destruct (Z.eqb_spec q (2 ^ 53)); symmetry in Hr;
      (apply finish_value in Hr as (_ & H0 & _); [| lia]);
      destruct (H0 s m e eq_refl) as (_ & _ & -> & _); lia.
  - rewrite H in Hr. destruct (Z.eqb_spec q (2 ^ 53)) as [Heq|Hne]; symmetry in Hr;
      (apply finish_value in Hr as (_ & H0 & _); [| lia]);
      destruct (H0 s m e eq_refl) as (_ & -> & -> & _).
    + rewrite Heq. replace (2 ^ 53) with (2 ^ 52 * 2 ^ 1) by reflexivity.
      rewrite F2R_shift by lia. done.
    + done.
Qed.

Section RoundValue.

Variables (M : positive) (E : Z).

Let x : R := F2R (Zpos M) E.
Let r : float := binary_round_aux prec emax false (Zpos M) E loc_Exact.

Lemma digits_value_bounds :
  (bpow (Zpos (digits2_pos M) - 1 + E) <= x < bpow (Zpos (digits2_pos M) + E))%R.
Proof.
  pose proof (digits2_pos_bounds M) as [Hlo Hhi]. subst x.
  rewrite (Z.add_comm _ E), (Z.add_comm _ E).
  rewrite <- (F2R_bpow (Zpos (digits2_pos M) - 1)), <- (F2R_bpow (Zpos (digits2_pos M))) by lia.
  split; [by apply F2R_le | by apply F2R_lt].
Qed.

(** A rounded value exceeds the exact one by at most one part in
    [2 ^ 53], unless it is subnormal. *)
Lemma round_upper s m e :
  r = S754_finite s m e ->
  (value r <= x * (1 + bpow (-53)) \/ value r < 1)%R.
Proof.
  intros Hr. destruct (round_shape M E) as (q & Hq & Hup & Hex & _ & _ & _ & Hfin).
  fold r in Hfin. destruct (Hfin s m e Hr) as (-> & Hm & He & Hval).
  rewrite Hr. simpl value. rewrite Hval. clear Hfin Hval.
  set (d := Zpos (digits2_pos M)) in *.
  set (k := Z.max 0 (fexp prec emax (d + E) - E)) in *.
  assert (Hk : 0 <= k) by lia.
  assert (Hp : 0 < 2 ^ k) by (apply Z.pow_pos_nonneg; lia).
  pose proof (digits2_pos_bounds M) as [Hlo Hhi]. fold d in Hlo, Hhi.
  assert (Hq53 : q <= 2 ^ 53).
  { assert (Zpos M / 2 ^ k < 2 ^ 53); [| lia].
    apply Z.div_lt_upper_bound; [lia |]. rewrite <- Z.pow_add_r by lia.
    eapply Z.lt_le_trans; [exact Hhi |]. apply Z.pow_le_mono_r; [lia |].
    subst k. rewrite fexp_eq. lia. }
  destruct (Z.le_gt_cases (-1074) (d + E - 53)) as [Hnorm | Hsub].
  - (* normal range: [E + k = max E (d + E - 53)] *)
    left. destruct (Z.le_gt_cases d 53) as [Hd | Hd].
    + (* no bit is shifted out *)
      assert (k = 0) by (subst k; rewrite fexp_eq; lia).
      assert (q = Zpos M).
      { rewrite H in *. rewrite Z.pow_0_r, Z.div_1_r in *. rewrite Hex; [done |].
        apply Z.mod_1_r. }
      rewrite H, H0, Z.add_0_r. fold x.
      assert (0 < x)%R by (apply Rmult_lt_0_compat; [by apply IZR_lt | apply bpow_pos]).
      pose proof (bpow_pos (-53)). nra.
    + assert (Hkd : k = d - 53) by (subst k; rewrite fexp_eq; lia).
      assert (H52 : 2 ^ k * 2 ^ 52 <= Zpos M).
      { rewrite <- Z.pow_add_r by lia. replace (k + 52) with (d - 1) by lia. done. }
      assert (Hz : q * 2 ^ k * 2 ^ 53 <= Zpos M * (2 ^ 53 + 1)) by lia.
      rewrite <- F2R_shift by lia. subst x. unfold F2R.
      apply IZR_le in Hz. rewrite !mult_IZR, plus_IZR in Hz. rewrite mult_IZR.
      rewrite <- (bpow_IZR 53) in Hz by lia.
      assert (Hinv : (bpow 53 * bpow (-53) = 1)%R) by (rewrite <- bpow_add; apply bpow_0).
      pose proof (bpow_pos E).
      pose proof (bpow_pos 53). pose proof (bpow_pos (-53)).
      apply Rmult_le_reg_r with (r := bpow 53); [done |].
      replace (IZR (Zpos M) * bpow E * (1 + bpow (-53)) * bpow 53)%R
        with (IZR (Zpos M) * (bpow 53 + bpow 53 * bpow (-53)) * bpow E)%R by ring.
      rewrite Hinv. nra.
  - (* subnormal range: the exponent is the least one *)
    right. assert (Hke : E + k = -1074 \/ (k = 0 /\ -1074 < E)).
    { subst k. rewrite fexp_eq. lia. }
    destruct Hke as [-> | [Hk0 HE]].
    + eapply Rle_lt_trans; [apply F2R_le, Hq53 |].
      rewrite F2R_bpow by lia. rewrite <- bpow_0. apply bpow_lt. lia.
    + assert (q = Zpos M).
      { rewrite Hk0 in *. rewrite Z.pow_0_r, Z.div_1_r in *. rewrite Hex; [done |].
        apply Z.mod_1_r. }
      rewrite H, Hk0, Z.add_0_r. fold x.
      pose proof digits_value_bounds as [_ Hxhi]. fold d in Hxhi.
      eapply Rlt_trans; [exact Hxhi |]. rewrite <- bpow_0. apply bpow_lt. lia.
Qed.

(** Rounding does not take a value of at least one below one. *)
Lemma round_ge_1 :
  (1 <= x)%R ->
  (forall s, r <> S754_zero s)
  /\ (forall s m e, r = S754_finite s m e -> (1 <= value r)%R).
Proof.
  intros Hx. destruct (round_shape M E) as (q & Hq & Hup & Hex & _ & Hzero & _ & Hfin).
  fold r in Hfin, Hzero.
  set (d := Zpos (digits2_pos M)) in *.
  set (k := Z.max 0 (fexp prec emax (d + E) - E)) in *.
  assert (Hk : 0 <= k) by lia.
  assert (Hp : 0 < 2 ^ k) by (apply Z.pow_pos_nonneg; lia).
  pose proof (digits2_pos_bounds M) as [Hlo Hhi]. fold d in Hlo, Hhi.
  pose proof digits_value_bounds as [_ Hxhi]. fold d in Hxhi.
  assert (HdE : 0 < d + E).
  { apply bpow_lt_inv. rewrite bpow_0. lra. }
  assert (Hd1 : 1 <= d) by (subst d; lia).
  assert (Hkd : k <= d - 1) by (subst k; rewrite fexp_eq; lia).
  assert (Hq1 : 1 <= Zpos M / 2 ^ k).
  { apply Z.div_le_lower_bound; [lia |]. rewrite Z.mul_1_r.
    eapply Z.le_trans; [| exact Hlo]. apply Z.pow_le_mono_r; lia. }
  assert (Hval : (1 <= F2R q (E + k))%R).
  { destruct (Z.le_gt_cases (E + k) 0) as [Hneg | Hpos].
    - assert (HM : 2 ^ (- E) <= Zpos M).
      { apply le_IZR. rewrite <- bpow_IZR by lia.
        subst x. unfold F2R in Hx. pose proof (bpow_opp E). pose proof (bpow_pos E).
        pose proof (bpow_pos (- E)).
        apply Rmult_le_reg_r with (r := bpow E); [done |]. 
        rewrite Rmult_comm at 1. lra. }
      assert (2 ^ (- E - k) <= Zpos M / 2 ^ k).
      { apply Z.div_le_lower_bound; [lia |]. rewrite <- Z.pow_add_r by lia.
        replace (k + (- E - k)) with (- E) by lia. done. }
      eapply Rle_trans; [| apply (F2R_le (2 ^ (- E - k))); lia].
      rewrite F2R_bpow by lia. replace (E + k + (- E - k)) with 0 by lia.
      rewrite bpow_0. lra.
    - eapply Rle_trans; [| apply (F2R_le 1); lia].
      unfold F2R. rewrite Rmult_1_l. rewrite <- bpow_0. apply bpow_le. lia. }
  split.
  - intros s Hs. specialize (Hzero s Hs). lia.
  - intros s m e Hr. destruct (Hfin s m e Hr) as (-> & _ & _ & Hv).
    rewrite Hr. simpl value. by rewrite Hv.
Qed.

(** A value of at most [2 ^ B], for [B] up to 970, does not overflow. *)
Lemma round_no_overflow B s :
  B <= 970 -> (x <= bpow B)%R -> r <> S754_infinity s.
Proof.
  intros HB Hx Hr. destruct (round_shape M E) as (q & _ & _ & _ & _ & _ & Hinf & _).
  fold r in Hinf. specialize (Hinf s Hr).
  set (d := Zpos (digits2_pos M)) in *.
  pose proof digits_value_bounds as [Hxlo _]. fold d in Hxlo.
  assert (d - 1 + E < B + 1).
  { apply bpow_lt_inv. eapply Rle_lt_trans; [exact Hxlo |].
    eapply Rle_lt_trans; [exact Hx |]. apply bpow_lt. lia. }
  assert (1 <= d) by (subst d; lia).
  rewrite fexp_eq in Hinf. lia.
Qed.

(** When no set bit is shifted out, the value is kept. *)
Lemma round_exact s m e :
  Zpos M mod 2 ^ Z.max 0 (fexp prec emax (Zpos (digits2_pos M) + E) - E) = 0 ->
  r = S754_finite s m e -> value r = x.
Proof.
  intros Hmod Hr. destruct (round_shape M E) as (q & _ & _ & Hex & _ & _ & _ & Hfin).
  fold r in Hfin. destruct (Hfin s m e Hr) as (-> & _ & _ & Hv).
  rewrite Hr. simpl value. rewrite Hv. specialize (Hex Hmod).
  set (k := Z.max 0 (fexp prec emax (Zpos (digits2_pos M) + E) - E)) in *.
  assert (Hk : 0 <= k) by lia.
  assert (Hp : 0 < 2 ^ k) by (apply Z.pow_pos_nonneg; lia).
  rewrite <- F2R_shift by lia. subst x. f_equal.
  rewrite Hex. symmetry. rewrite Z.mul_comm. apply Z.div_exact; lia.
Qed.

End RoundValue.

Lemma digits2_pos_unique (p : positive) d :
  2 ^ (d - 1) <= Zpos p < 2 ^ d -> Zpos (digits2_pos p) = d.
Proof.
  intros [Hlo Hhi]. pose proof (digits2_pos_bounds p) as [Hlo' Hhi'].
  set (d' := Zpos (digits2_pos p)) in *.
  assert (0 < d).
  { destruct (Z.lt_ge_cases 0 d); [done |]. 
    assert (2 ^ d <= 2 ^ 0) by (apply Z.pow_le_mono_r; lia). lia. }
  destruct (Z.lt_trichotomy d' d) as [Hlt | [Heq | Hgt]]; [| done |].
  - assert (2 ^ d' <= 2 ^ (d - 1)) by (apply Z.pow_le_mono_r; lia). lia.
  - assert (2 ^ d <= 2 ^ (d' - 1)) by (apply Z.pow_le_mono_r; lia). lia.
Qed.

Lemma pos_iter_xO (d : positive) : forall m, Zpos (Pos.iter xO m d) = Zpos m * 2 ^ Zpos d.
Proof.
  induction d as [|d IH] using Pos.peano_ind; intros m.
  - simpl. lia.
  - rewrite Pos.iter_succ, Pos2Z.inj_xO, IH, Pos2Z.inj_succ, Z.pow_succ_r by lia. lia.
Qed.

Lemma shl_align_spec mx ex ex' :
  let '(mz, ez) := shl_align mx ex ex' in
  ez = Z.min ex ex' /\ Zpos mz = Zpos mx * 2 ^ (ex - ez).
Proof.
  unfold shl_align. destruct (ex' - ex) as [|d|d] eqn:Hd.
  - split; [lia |]. rewrite Z.sub_diag. simpl. lia.
  - split; [lia |]. rewrite Z.sub_diag. simpl. lia.
  - split; [lia |]. rewrite pos_iter_xO. f_equal. f_equal. lia.
Qed.

Lemma shl_align_value mx ex ex' mz ez :
  shl_align mx ex ex' = (mz, ez) -> F2R (Zpos mz) ez = F2R (Zpos mx) ex.
Proof.
  intros H. pose proof (shl_align_spec mx ex ex') as Hs. rewrite H in Hs.
  destruct Hs as [Hez ->]. rewrite F2R_shift by lia. f_equal. lia.
Qed.

(** The shape of a ratio that passes the checks [0 <= v < 1]. *)
Lemma ratio_cases v :
  is_float v -> le zero v = true -> lt v one = true ->
  (exists s, v = S754_zero s)
  \/ (exists m e, v = S754_finite false m e /\ (0 < value v < 1)%R).
Proof.
  intros Hv Hle Hlt. destruct v as [s|s| |s m e].
  - left. eauto.
  - destruct s; [done |]. done.
  - done.
  - right. destruct s; [done |]. exists m, e. split; [done |].
    unfold is_float in Hv. simpl in Hv. unfold bounded, canonical_mantissa in Hv.
    apply andb_prop in Hv as [Hc _]. apply Z.eqb_eq in Hc. rewrite fexp_eq in Hc.
    pose proof (digits2_pos_bounds m) as [_ Hhi].
    set (d := Zpos (digits2_pos m)) in *.
    assert (Hm : Zpos m < 2 ^ 53).
    { eapply Z.lt_le_trans; [exact Hhi |]. apply Z.pow_le_mono_r; lia. }
    simpl value. split.
    { apply Rmult_lt_0_compat; [by apply IZR_lt | apply bpow_pos]. }
    unfold lt, SFltb, SFcompare, one in Hlt.
    destruct (Z.compare_spec e (-52)) as [Heq | Hlt' | Hgt]; [| | done].
    + assert (Hm' : Zpos m < 2 ^ 52).
      { by destruct (Pos.compare_cont Eq m 4503599627370496) eqn:Hcmp. }
      eapply Rlt_le_trans; [apply F2R_lt, Hm' |].
      rewrite F2R_bpow by lia. rewrite <- bpow_0. apply bpow_le. lia.
    + eapply Rlt_le_trans; [apply F2R_lt, Hm |].
      rewrite F2R_bpow by lia. rewrite <- bpow_0. apply bpow_le. lia.
Qed.

(** The comparison of mantissas in [SFcompare] is that of integers. *)
Lemma compare_cont_Z (p q : positive) :
  Pos.compare_cont Eq p q = (Zpos p ?= Zpos q).
Proof.
  rewrite Pos.compare_cont_spec. cbn [Z.compare].
  by destruct (Pos.compare p q).
Qed.

(** The check [0 <= v < 1] of the source holds exactly for the floats of
    the interval [[0, 1)]. *)
Lemma unit_interval_check v :
  is_float v -> (le zero v && lt v one = true <-> in_unit_interval v).
Proof.
  intros Hv. split.
  - intros H. apply andb_prop in H as [Hle Hlt].
    destruct (ratio_cases v Hv Hle Hlt) as [[s ->] | (m & e & -> & Hval)].
    + split; [done |]. simpl. lra.
    + split; [done |]. lra.
  - intros [Hfin Hval]. destruct v as [s|s| |s m e]; try done.
    destruct s; simpl value in Hval.
    { exfalso. assert (F2R (Zneg m) e < 0)%R; [| lra].
      unfold F2R. pose proof (bpow_pos e).
      assert (IZR (Zneg m) < 0)%R by (by apply IZR_lt). nra. }
    apply andb_true_intro. split; [done |].
    unfold is_float in Hv. simpl in Hv. unfold bounded, canonical_mantissa in Hv.
    apply andb_prop in Hv as [Hc _]. apply Z.eqb_eq in Hc. rewrite fexp_eq in Hc.
    pose proof (digits2_pos_bounds m) as [Hlo _].
    set (d := Zpos (digits2_pos m)) in *.
    unfold lt, SFltb, SFcompare, one.
    destruct (Z.compare_spec e (-52)) as [Heq | Hlt' | Hgt]; [| done |].
    + subst e. assert (Hm : Zpos m < 2 ^ 52).
      { apply lt_IZR. rewrite <- bpow_IZR by lia. unfold F2R in Hval.
        assert (Hinv : (bpow 52 * bpow (-52) = 1)%R) by (rewrite <- bpow_add; apply bpow_0).
        pose proof (bpow_pos 52). pose proof (bpow_pos (-52)).
        apply Rmult_lt_reg_r with (r := bpow (-52)); [done |]. lra. }
      rewrite compare_cont_Z.
      destruct (Z.compare_spec (Zpos m) (Zpos 4503599627370496)); [lia | done | lia].
    + exfalso. assert (Hd : d = 53) by lia.
      assert (1 <= F2R (Zpos m) e)%R; [| lra].
      eapply Rle_trans; [| apply (F2R_le (2 ^ 52)); by rewrite Hd in Hlo].
      rewrite F2R_bpow by lia. rewrite <- bpow_0. apply bpow_le. lia.
Qed.

(** Comparison with one, for a mantissa of at most 53 bits. *)
Lemma one_le_finite m e :
  Zpos m < 2 ^ 53 -> (1 <= F2R (Zpos m) e)%R ->
  SFleb one (S754_finite false m e) = true.
Proof.
  intros Hm Hv. unfold SFleb, SFcompare, one.
  destruct (Z.compare_spec (-52) e) as [Heq | Hlt | Hgt]; [| done |].
  - subst e.
    assert (2 ^ 52 <= Zpos m).
    { apply le_IZR. rewrite <- bpow_IZR by lia. unfold F2R in Hv.
      assert (Hinv : (bpow 52 * bpow (-52) = 1)%R) by (rewrite <- bpow_add; apply bpow_0).
      pose proof (bpow_pos 52). pose proof (bpow_pos (-52)).
      apply Rmult_le_reg_r with (r := bpow (-52)); [done |]. lra. }
    destruct (Pos.compare_cont Eq 4503599627370496 m) eqn:Hcmp; try done;
      exfalso; apply H; exact Hcmp.
  - exfalso. assert (F2R (Zpos m) e < 1)%R; [| lra].
    eapply Rlt_le_trans; [apply F2R_lt, Hm |].
    rewrite F2R_bpow by lia. rewrite <- bpow_0. apply bpow_le. lia.
Qed.

Lemma F2R_0 m : F2R m 0 = IZR m.
Proof. unfold F2R. rewrite bpow_0. lra. Qed.

(** Up to [2 ^ 53] an int converts to a float without rounding. *)
Lemma float_of_int_exact n :
  0 < n <= 2 ^ 53 ->
  exists m e, float_of_int n = Ok (S754_finite false m e)
              /\ F2R (Zpos m) e = IZR n.
Proof.
  intros [Hpos Hle]. destruct n as [|p|p]; [lia | | lia].
  unfold float_of_int, binary_normalize, binary_round.
  pose proof (shl_align_spec p 0 (fexp prec emax (Zpos (digits2_pos p) + 0))) as Hal.
  destruct (shl_align p 0 (fexp prec emax (Zpos (digits2_pos p) + 0))) as [mz ez] eqn:Heq.
  destruct Hal as [Hez Hmz]. rewrite Z.add_0_r, fexp_eq in Hez.
  pose proof (shl_align_value _ _ _ _ _ Heq) as Hx. rewrite F2R_0 in Hx.
  pose proof (digits2_pos_bounds p) as [Hlo Hhi].
  set (d := Zpos (digits2_pos p)) in *.
  assert (Hd1 : 1 <= d) by (subst d; lia).
  assert (Hd54 : d <= 54).
  { destruct (Z.le_gt_cases d 54); [done |].
    assert (2 ^ 54 <= 2 ^ (d - 1)) by (apply Z.pow_le_mono_r; lia). lia. }
  assert (Hdiv : Zpos mz mod 2 ^ Z.max 0 (fexp prec emax (Zpos (digits2_pos mz) + ez) - ez) = 0).
  { destruct (Z.le_gt_cases d 53) as [Hd | Hd].
    - assert (Hez' : ez = d - 53) by lia.
      assert (Hdz : Zpos (digits2_pos mz) = 53).
      { apply digits2_pos_unique. rewrite Hmz.
        replace (0 - ez) with (53 - d) by lia.
        replace (2 ^ (53 - 1)) with (2 ^ (d - 1) * 2 ^ (53 - d))
          by (rewrite <- Z.pow_add_r by lia; f_equal; lia).
        replace (2 ^ 53) with (2 ^ d * 2 ^ (53 - d))
          by (rewrite <- Z.pow_add_r by lia; f_equal; lia).
        assert (0 < 2 ^ (53 - d)) by (apply Z.pow_pos_nonneg; lia). nia. }
      rewrite Hdz, fexp_eq.
      replace (Z.max 0 (Z.max (53 + ez - 53) (-1074) - ez)) with 0 by lia.
      apply Z.mod_1_r.
    - assert (d = 54) by lia. assert (Hez' : ez = 0) by lia.
      assert (Hp : Zpos p = 2 ^ 53).
      { assert (2 ^ 53 <= Zpos p); [| lia]. replace 53 with (d - 1) by lia. done. }
      rewrite Hez', Z.sub_diag, Z.pow_0_r, Z.mul_1_r in Hmz.
      assert (Hdz : Zpos (digits2_pos mz) = 54).
      { apply digits2_pos_unique. rewrite Hmz, Hp. simpl. lia. }
      rewrite Hdz, fexp_eq, Hez'.
      replace (Z.max 0 (Z.max (54 + 0 - 53) (-1074) - 0)) with 1 by lia.
      rewrite Hmz, Hp. reflexivity. }
  assert (Hx1 : (1 <= F2R (Zpos mz) ez)%R) by (rewrite Hx; apply IZR_le; lia).
  assert (Hx53 : (F2R (Zpos mz) ez <= bpow 53)%R).
  { rewrite Hx, bpow_IZR by lia. by apply IZR_le. }
  destruct (round_shape mz ez) as (q & _ & _ & _ & Hnan & _ & _ & Hfin).
  pose proof (round_ge_1 mz ez Hx1) as [Hzero _].
  destruct (binary_round_aux prec emax false (Zpos mz) ez loc_Exact) as [s|s| |s m e] eqn:Hr.
  - by destruct (Hzero s).
  - exfalso. by apply (round_no_overflow mz ez 53 s ltac:(lia) Hx53).
  - done.
  - destruct (Hfin s m e eq_refl) as (-> & _).
    exists m, e. split; [done |].
    pose proof (round_exact mz ez false m e Hdiv Hr) as Hv. rewrite Hr in Hv.
    simpl in Hv. by rewrite Hv.
Qed.

(** [int(x)] of a non-negative finite float is the floor of its value. *)
Lemma int_of_float_floor m e :
  exists a, int_of_float (S754_finite false m e) = Ok a
            /\ 0 <= a /\ (IZR a <= F2R (Zpos m) e)%R.
Proof.
  unfold int_of_float. eexists. split; [reflexivity |].
  destruct e as [|p|p].
  - rewrite Z.pow_0_r, Z.mul_1_r, F2R_0. split; [lia | lra].
  - split; [lia |]. rewrite <- F2R_0, F2R_shift by lia. apply Req_le. f_equal.
  - assert (Hp : 0 < 2 ^ Zpos p) by (apply Z.pow_pos_nonneg; lia).
    assert (Ha : 0 <= Zpos m / 2 ^ Zpos p) by (apply Z.div_pos; lia).
    split; [done |].
    replace (IZR (Zpos m / 2 ^ Zpos p)) with (F2R (Zpos m / 2 ^ Zpos p * 2 ^ Zpos p) (Zneg p)).
    + apply F2R_le. rewrite Z.mul_comm. apply Z.mul_div_le. lia.
    + rewrite F2R_shift by lia. replace (Zneg p + Zpos p) with 0 by lia. apply F2R_0.
Qed.

(** The value of a ratio: zero for both zeros. *)
Lemma value_zero s : value (S754_zero s) = 0%R.
Proof. reflexivity. Qed.

(** [int(total * ratio)] for a ratio in [[0, 1)]: it returns, and its
    result is at most the exact product plus one part in [2 ^ 53]. *)
Lemma int_times_bound n v :
  0 <= n <= 2 ^ 53 ->
  (exists s, v = S754_zero s)
  \/ (exists m e, v = S754_finite false m e /\ (0 < value v < 1)%R) ->
  exists a,
    int_times n v = Ok a
    /\ 0 <= a
    /\ (IZR a <= IZR n * value v * (1 + bpow (-53)))%R.
Proof.
  intros Hn Hv. unfold int_times, int_mul_float.
  pose proof (bpow_pos (-53)) as Heps.
  destruct (Z.eq_dec n 0) as [-> | Hn0].
  { exists 0. simpl float_of_int. destruct Hv as [[s ->] | (m & e & -> & _)].
    - split; [done |]. split; [lia |]. rewrite value_zero. lra.
    - split; [done |]. split; [lia |]. lra. }
  destruct (float_of_int_exact n) as (mN & eN & -> & HN); [lia |].
  destruct Hv as [[s ->] | (m & e & -> & Hval)].
  { exists 0. split; [done |]. split; [lia |]. rewrite value_zero. lra. }
  simpl value in *. unfold mul, SFmul. simpl xorb.
  change (Zpos (mN * m)) with (Zpos mN * Zpos m).
  assert (Hx : F2R (Zpos mN * Zpos m) (eN + e) = (IZR n * F2R (Zpos m) e)%R).
  { by rewrite F2R_mul, HN. }
  assert (Hn1 : (1 <= IZR n <= bpow 53)%R).
  { split; [apply IZR_le; lia |]. rewrite bpow_IZR by lia. apply IZR_le. lia. }
  assert (Hx53 : (F2R (Zpos (mN * m)) (eN + e) <= bpow 53)%R).
  { change (Zpos (mN * m)) with (Zpos mN * Zpos m). rewrite Hx. nra. }
  change (Zpos mN * Zpos m) with (Zpos (mN * m)) in *.
  assert (Hnn : (0 <= IZR n * F2R (Zpos m) e * (1 + bpow (-53)))%R).
  { apply Rmult_le_pos; [apply Rmult_le_pos |]; lra. }
  destruct (round_shape (mN * m) (eN + e)) as (q & _ & _ & _ & Hnan & _ & _ & Hfin).
  pose proof (round_upper (mN * m) (eN + e)) as Hup.
  destruct (binary_round_aux prec emax false (Zpos (mN * m)) (eN + e) loc_Exact)
    as [s|s| |s m' e'] eqn:Hr.
  - exists 0. split; [done |]. split; [lia |]. exact Hnn.
  - exfalso. by apply (round_no_overflow (mN * m) (eN + e) 53 s ltac:(lia) Hx53).
  - done.
  - destruct (Hfin s m' e' eq_refl) as (-> & _).
    destruct (int_of_float_floor m' e') as (a & Ha & Ha0 & Hle).
    exists a. rewrite Ha. split; [done |]. split; [done |].
    destruct (Hup false m' e' eq_refl) as [Hrel | Hsmall]; simpl value in *.
    + rewrite Hx in Hrel. lra.
    + assert (a < 1) by (apply lt_IZR; lra).
      assert (a = 0) by lia. subst a. exact Hnn.
Qed.

Lemma F2R_add m1 m2 e : F2R (m1 + m2) e = (F2R m1 e + F2R m2 e)%R.
Proof. unfold F2R. rewrite plus_IZR. lra. Qed.

(** When the check [val_ratio + test_ratio >= 1] passes, the exact sum of
    the two ratios is below one. *)
Lemma sum_below_one v t :
  (exists s, v = S754_zero s)
  \/ (exists m e, v = S754_finite false m e /\ (0 < value v < 1)%R) ->
  (exists s, t = S754_zero s)
  \/ (exists m e, t = S754_finite false m e /\ (0 < value t < 1)%R) ->
  ge (add v t) one = false ->
  (value v + value t < 1)%R.
Proof.
  intros [[sv ->] | (mv & ev & -> & Hv)] [[st ->] | (mt & et & -> & Ht)] Hge;
    rewrite ?value_zero; try lra.
  destruct (Rlt_or_le (value (S754_finite false mv ev) + value (S754_finite false mt et)) 1)
    as [|Hx]; [done | exfalso].
  simpl value in *. unfold ge, add, SFadd, binary_normalize, cond_Zopp in Hge.
  set (ez := Z.min ev et) in *.
  pose proof (shl_align_spec mv ev ez) as Hav.
  pose proof (shl_align_spec mt et ez) as Hat.
  destruct (shl_align mv ev ez) as [mv' ev'] eqn:Hev.
  destruct (shl_align mt et ez) as [mt' et'] eqn:Het.
  simpl fst in Hge. destruct Hav as [Hev' Hmv]. destruct Hat as [Het' Hmt].
  assert (Hev2 : ev' = ez) by lia. assert (Het2 : et' = ez) by lia.
  rewrite Hev2 in Hev. rewrite Het2 in Het. clear Hmv Hmt Hev' Het' Hev2 Het2 ev' et'.
  apply shl_align_value in Hev, Het.
  change (Zpos mv' + Zpos mt') with (Zpos (mv' + mt')) in Hge.
  unfold binary_round in Hge.
  destruct (shl_align (mv' + mt') ez
              (fexp prec emax (Zpos (digits2_pos (mv' + mt')) + ez))) as [mz ez'] eqn:Hal.
  apply shl_align_value in Hal.
  assert (Hsum : F2R (Zpos mz) ez' = (F2R (Zpos mv) ev + F2R (Zpos mt) et)%R).
  { rewrite Hal, <- Hev, <- Het, <- F2R_add. done. }
  assert (Hx1 : (1 <= F2R (Zpos mz) ez')%R) by lra.
  assert (Hx53 : (F2R (Zpos mz) ez' <= bpow 53)%R).
  { rewrite Hsum. assert (2 <= bpow 53)%R; [| lra].
    rewrite bpow_IZR by lia. apply IZR_le. lia. }
  destruct (round_shape mz ez') as (q & _ & _ & _ & Hnan & _ & _ & Hfin).
  pose proof (round_ge_1 mz ez' Hx1) as [Hzero Hone].
  destruct (binary_round_aux prec emax false (Zpos mz) ez' loc_Exact) as [s|s| |s m e] eqn:Hr.
  - by destruct (Hzero s).
  - by apply (round_no_overflow mz ez' 53 s ltac:(lia) Hx53).
  - done.
  - destruct (Hfin s m e eq_refl) as (-> & Hm & _).
    specialize (Hone false m e eq_refl). simpl value in Hone.
    rewrite one_le_finite in Hge; done.
Qed.

(** The two counts of the splitter fit in the list: for ratios that pass
    the checks and a list of at most [2 ^ 53] records, both conversions
    return, neither count is negative, and their sum is at most the length
    of the list. *)
Lemma counts_fit n v t :
  0 <= n <= 2 ^ 53 ->
  is_float v -> is_float t ->
  le zero v = true -> lt v one = true ->
  le zero t = true -> lt t one = true ->
  ge (add v t) one = false ->
  exists a b,
    int_times n v = Ok a
    /\ int_times n t = Ok b
    /\ 0 <= a /\ 0 <= b /\ a + b <= n.
Proof.
  intros Hn Hfv Hft Hv0 Hv1 Ht0 Ht1 Hsum.
  pose proof (ratio_cases v Hfv Hv0 Hv1) as Hcv.
  pose proof (ratio_cases t Hft Ht0 Ht1) as Hct.
  pose proof (sum_below_one v t Hcv Hct Hsum) as Hlt.
  destruct (int_times_bound n v Hn Hcv) as (a & Ha & Ha0 & Hale).
  destruct (int_times_bound n t Hn Hct) as (b & Hb & Hb0 & Hble).
  exists a, b. repeat split; try done.
  assert (HV : (0 <= value v)%R).
  { destruct Hcv as [[s ->] | (m & e & -> & HV)]; [rewrite value_zero |]; lra. }
  assert (HT : (0 <= value t)%R).
  { destruct Hct as [[s ->] | (m & e & -> & HT)]; [rewrite value_zero |]; lra. }
  assert (Heps : (0 < bpow (-53))%R) by apply bpow_pos.
  assert (Hinv : (bpow 53 * bpow (-53) = 1)%R) by (rewrite <- bpow_add; apply bpow_0).
  assert (Hn53 : (0 <= IZR n <= bpow 53)%R).
  { split; [apply IZR_le; lia |]. rewrite bpow_IZR by lia. apply IZR_le. lia. }
  assert (Hne : (IZR n * bpow (-53) <= 1)%R) by nra.
  destruct (Z.eq_dec n 0) as [-> | Hn0].
  - assert (IZR a <= 0)%R by lra. assert (IZR b <= 0)%R by lra.
    assert (a <= 0) by (by apply le_IZR). assert (b <= 0) by (by apply le_IZR). lia.
  - assert (1 <= IZR n)%R by (apply IZR_le; lia).
    assert (IZR (a + b) < IZR (n + 1))%R; [| apply lt_IZR in H0; lia].
    rewrite !plus_IZR.
    set (S := (value v + value t)%R) in *.
    assert (IZR a + IZR b <= IZR n * S * (1 + bpow (-53)))%R by (subst S; lra).
    assert (IZR n * S * (1 + bpow (-53)) < IZR n * (1 + bpow (-53)))%R.
    { assert (0 < IZR n * (1 + bpow (-53)))%R by nra.
      replace (IZR n * S * (1 + bpow (-53)))%R with (IZR n * (1 + bpow (-53)) * S)%R by ring.
      nra. }
    lra.
Qed.

(** An int below [2 ^ 63], the lengths a list can have, converts to a
    finite float of at most [2 ^ 64]. *)
Lemma float_of_int_finite n :
  0 < n < 2 ^ 63 ->
  exists m e, float_of_int n = Ok (S754_finite false m e)
              /\ (F2R (Zpos m) e <= bpow 64)%R.
Proof.
  intros [Hpos Hlt]. destruct n as [|p|p]; [lia | | lia].
  unfold float_of_int, binary_normalize, binary_round.
  destruct (shl_align p 0 (fexp prec emax (Zpos (digits2_pos p) + 0))) as [mz ez] eqn:Heq.
  pose proof (shl_align_value _ _ _ _ _ Heq) as Hx. rewrite F2R_0 in Hx.
  assert (Hx1 : (1 <= F2R (Zpos mz) ez)%R) by (rewrite Hx; apply IZR_le; lia).
  assert (Hx63 : (F2R (Zpos mz) ez <= bpow 63)%R).
  { rewrite Hx, bpow_IZR by lia. apply IZR_le. lia. }
  destruct (round_shape mz ez) as (q & _ & _ & _ & Hnan & _ & _ & Hfin).
  pose proof (round_ge_1 mz ez Hx1) as [Hzero _].
  pose proof (round_upper mz ez) as Hup.
  destruct (binary_round_aux prec emax false (Zpos mz) ez loc_Exact) as [s|s| |s m e] eqn:Hr.
  - by destruct (Hzero s).
  - exfalso. by apply (round_no_overflow mz ez 63 s ltac:(lia) Hx63).
  - done.
  - destruct (Hfin s m e eq_refl) as (-> & _).
    exists m, e. split; [done |].
    assert (H64 : (bpow 64 = 2 * bpow 63)%R).
    { rewrite !bpow_IZR by lia. rewrite <- mult_IZR. f_equal. }
    assert (Heps : (bpow (-53) <= 1)%R).
    { rewrite <- bpow_0. apply bpow_le. lia. }
    pose proof (bpow_pos (-53)).
    destruct (Hup false m e eq_refl) as [Hrel | Hsmall]; simpl value in *; nra.
Qed.

(** For a list a machine can hold and a ratio in [[0, 1)],
    [int(total * ratio)] returns. *)
Lemma int_times_returns n v :
  0 <= n < 2 ^ 63 ->
  (exists s, v = S754_zero s)
  \/ (exists m e, v = S754_finite false m e /\ (0 < value v < 1)%R) ->
  exists a, int_times n v = Ok a.
Proof.
  intros Hn Hv. unfold int_times, int_mul_float.
  destruct (Z.eq_dec n 0) as [-> | Hn0].
  { simpl float_of_int. destruct Hv as [[s ->] | (m & e & -> & _)]; by eexists. }
  destruct (float_of_int_finite n) as (mN & eN & -> & HN); [lia |].
  destruct Hv as [[s ->] | (m & e & -> & Hval)]; [by eexists |].
  simpl value in *. unfold mul, SFmul. simpl xorb.
  assert (Hx : (F2R (Zpos (mN * m)) (eN + e) <= bpow 64)%R).
  { change (Zpos (mN * m)) with (Zpos mN * Zpos m). rewrite F2R_mul.
    assert (0 < F2R (Zpos mN) eN)%R.
    { apply Rmult_lt_0_compat; [by apply IZR_lt | apply bpow_pos]. }
    nra. }
  destruct (round_shape (mN * m) (eN + e)) as (q & _ & _ & _ & Hnan & _ & _ & Hfin).
  destruct (binary_round_aux prec emax false (Zpos (mN * m)) (eN + e) loc_Exact)
    as [s|s| |s m' e'] eqn:Hr.
  - by eexists.
  - exfalso. by apply (round_no_overflow (mN * m) (eN + e) 64 s ltac:(lia) Hx).
  - done.
  - destruct (Hfin s m' e' eq_refl) as (-> & _).
    destruct (int_of_float_floor m' e') as (a & Ha & _). eauto.
Qed.

(** Whatever the length of the list, [int(total * ratio)] does not raise
    a [ValueError] for a ratio that passes the check [0 <= ratio < 1]. *)
Lemma int_times_no_ValueError n v msg :
  0 <= n -> le zero v = true -> lt v one = true ->
  int_times n v <> Raise (ValueError msg).
Proof.
  intros Hn Hle Hlt.
  assert (Hv : (exists s, v = S754_zero s) \/ (exists m e, v = S754_finite false m e)).
  { destruct v as [s|[|]| |[|] m e]; try done; eauto. }
  clear Hle Hlt.
  unfold int_times, int_mul_float, float_of_int, binary_normalize.
  destruct n as [|p|p]; [| | lia].
  - destruct Hv as [[s ->] | (m & e & ->)]; done.
  - unfold binary_round.
    destruct (shl_align p 0 (fexp prec emax (Zpos (digits2_pos p) + 0))) as [mz ez].
    destruct (round_shape mz ez) as (q & _ & _ & _ & Hnan & _ & _ & Hfin).
    destruct (binary_round_aux prec emax false (Zpos mz) ez loc_Exact)
      as [s|s| |s m e] eqn:Hr; [| done | done |].
    + destruct Hv as [[s' ->] | (m' & e' & ->)]; done.
    + destruct (Hfin s m e eq_refl) as (-> & _).
      destruct Hv as [[s' ->] | (m' & e' & ->)]; [done |].
      unfold mul, SFmul. simpl xorb.
      destruct (round_shape (m * m') (e + e')) as (q' & _ & _ & _ & Hnan' & _ & _ & Hfin').
      destruct (binary_round_aux prec emax false (Zpos (m * m')) (e + e') loc_Exact)
        as [s|s| |s m2 e2] eqn:Hr'; done.
Qed.

(** [x < y] excludes [y <= x], for a positive finite [y]. *)
Lemma SFltb_not_SFleb x m0 e0 :
  SFltb x (S754_finite false m0 e0) = true ->
  SFleb (S754_finite false m0 e0) x = false.
Proof.
  unfold SFltb, SFleb, SFcompare.
  destruct x as [s|[|]| |[|] m e]; try done.
  rewrite (Z.compare_antisym e e0).
  destruct (e ?= e0) eqn:He; cbn [CompOpp]; try done.
  replace (Pos.compare_cont Eq m0 m) with (CompOpp (Pos.compare_cont Eq m m0))
    by apply Pos.compare_cont_antisym.
  by destruct (Pos.compare_cont Eq m m0).
Qed.

Lemma lt_one_not_ge x : lt x one = true -> ge x one = false.
Proof. apply SFltb_not_SFleb. Qed.

End Floats.

(* ===================================================================== *)
(** * The store: what the splitter reads and writes *)
(* ===================================================================== *)

Section Store.

Context {R : Random}.

Implicit Types (h : store) (x : loc) (l rs : list SnippetRecord).

Lemma bind_run {A B} (m : M A) (k : A -> M B) h :
  (m ≫= k) h = match m h with
               | (Ok a, h') => k a h'
               | (Raise e, h') => (Raise e, h')
               end.
Proof. reflexivity. Qed.

Lemma items_lookup h x l : h !! x = Some l -> items h x = l.
Proof. intros H. unfold items. by rewrite H. Qed.

Lemma index_of_nat n k : (k < n)%nat -> index_of n (Z.of_nat k) = Some k.
Proof.
  intros Hk. unfold index_of.
  destruct (Z.ltb_spec (Z.of_nat k) 0); [lia |].
  destruct (Z.leb_spec 0 (Z.of_nat k)); [| lia].
  destruct (Z.ltb_spec (Z.of_nat k) (Z.of_nat n)); [| lia].
  simpl. by rewrite Nat2Z.id.
Qed.

Lemma getitem_run h x l k r :
  h !! x = Some l -> l !! k = Some r ->
  getitem x (Z.of_nat k) h = (Ok r, h).
Proof.
  intros Hx Hk. unfold getitem. rewrite (items_lookup h x l Hx).
  rewrite index_of_nat by (by eapply lookup_lt_Some). by rewrite Hk.
Qed.

Lemma setitem_run h x l k r :
  h !! x = Some l -> (k < length l)%nat ->
  setitem x (Z.of_nat k) r h = (Ok tt, <[x := <[k := r]> l]> h).
Proof.
  intros Hx Hk. unfold setitem. rewrite (items_lookup h x l Hx).
  by rewrite index_of_nat.
Qed.

Lemma swap_items_perm i j l : swap_items i j l ≡ₚ l.
Proof.
  unfold swap_items.
  destruct (l !! j) as [xj|] eqn:Hj; [| done].
  destruct (l !! i) as [xi|] eqn:Hi; [| done].
  by apply Permutation_insert_swap.
Qed.

Lemma swap_items_length i j l : length (swap_items i j l) = length l.
Proof. apply Permutation_length, swap_items_perm. Qed.

Lemma shuffle_items_perm i : forall rng l, (shuffle_items i rng l).1 ≡ₚ l.
Proof.
  induction i as [|i IH]; intros rng l; [done |].
  cbn [shuffle_items]. destruct (randbelow rng (Z.of_nat (S i) + 1)) as [j rng'].
  rewrite IH. apply swap_items_perm.
Qed.

Lemma shuffled_perm seed l : shuffled seed l ≡ₚ l.
Proof. apply shuffle_items_perm. Qed.

Lemma shuffled_length seed l : length (shuffled seed l) = length l.
Proof. apply Permutation_length, shuffled_perm. Qed.

(** The loop of [shuffle] on the list object at [x] does to it what
    [shuffle_items] does to its items, raises nothing and touches no
    other object. *)
Lemma shuffle_loop_run i : forall rng h x l,
  h !! x = Some l -> (i <= length l - 1)%nat ->
  shuffle_loop x i rng h
  = (Ok (shuffle_items i rng l).2, <[x := (shuffle_items i rng l).1]> h).
Proof.
  induction i as [|i IH]; intros rng h x l Hx Hi.
  - simpl. unfold mret, M_ret, ret. by rewrite list_insert_id.
  - cbn [shuffle_loop shuffle_items].
    pose proof (randbelow_range rng (Z.of_nat (S i) + 1)) as Hj.
    destruct (randbelow rng (Z.of_nat (S i) + 1)) as [j rng'].
    simpl in Hj. specialize (Hj ltac:(lia)).
    assert (Hi' : (S i < length l)%nat) by lia.
    assert (Hjn : exists jn, j = Z.of_nat jn /\ (jn < length l)%nat).
    { exists (Z.to_nat j). lia. }
    destruct Hjn as (jn & -> & Hjl). rewrite Nat2Z.id.
    destruct (lookup_lt_is_Some_2 l (S i) Hi') as [xi Hxi].
    destruct (lookup_lt_is_Some_2 l jn Hjl) as [xj Hxj].
    rewrite bind_run, (getitem_run h x l _ xj Hx Hxj).
    rewrite bind_run, (getitem_run h x l _ xi Hx Hxi).
    rewrite bind_run, (setitem_run h x l _ xj Hx Hi').
    assert (Hxh : (x < length h)%nat) by (by eapply lookup_lt_Some).
    rewrite bind_run, (setitem_run _ x (<[S i := xj]> l) _ xi).
    2: { by apply list_lookup_insert_eq. }
    2: { by rewrite length_insert. }
    rewrite list_insert_insert_eq.
    rewrite (IH rng' _ x (<[jn := xi]> (<[S i := xj]> l))).
    2: { by apply list_lookup_insert_eq. }
    2: { rewrite !length_insert. lia. }
    rewrite list_insert_insert_eq.
    unfold swap_items. by rewrite Hxj, Hxi.
Qed.

Lemma shuffle_run seed h x l :
  h !! x = Some l ->
  exists rng, shuffle (seed_rng seed) x h = (Ok rng, <[x := shuffled seed l]> h).
Proof.
  intros Hx. unfold shuffle, len. rewrite bind_run, (items_lookup h x l Hx).
  replace (Z.to_nat (Z.of_nat (length l) - 1)) with (length l - 1)%nat by lia.
  rewrite (shuffle_loop_run _ _ h x l Hx) by lia. eexists. reflexivity.
Qed.

(** A run of [split_records] on the list object at [x]: it returns what
    [split_items] computes from the items, and the store is left as it
    was when a check fails, and with one more object, the shuffled copy,
    otherwise. *)
Lemma split_records_run h x rs v t seed :
  h !! x = Some rs ->
  split_records x v t seed h
  = (split_items rs v t seed,
     if ratios_rejected v t then h else h ++ [shuffled seed rs]).
Proof.
  intros Hx. unfold split_records, split_items, ratios_rejected.
  destruct (negb (le zero v && lt v one)); [done |].
  destruct (negb (le zero t && lt t one)); [done |].
  destruct (ge (add v t) one); [done |]. simpl orb. cbv iota.
  rewrite bind_run. unfold py_list at 1. rewrite (items_lookup h x rs Hx).
  assert (Hc : (h ++ [rs]) !! length h = Some rs).
  { by rewrite lookup_app_r, Nat.sub_diag. }
  rewrite bind_run.
  destruct (shuffle_run seed (h ++ [rs]) (length h) rs Hc) as [rng ->].
  assert (Hins : <[length h := shuffled seed rs]> (h ++ [rs]) = h ++ [shuffled seed rs]).
  { rewrite insert_app_r_alt, Nat.sub_diag by done. done. }
  rewrite Hins.
  assert (Hc' : (h ++ [shuffled seed rs]) !! length h = Some (shuffled seed rs)).
  { by rewrite lookup_app_r, Nat.sub_diag. }
  rewrite bind_run. unfold len at 1. rewrite (items_lookup _ _ _ Hc').
  rewrite bind_run. unfold int_of_product at 1, lift.
  destruct (int_times (Z.of_nat (length (shuffled seed rs))) v) as [a|e]; [| done].
  rewrite bind_run. unfold int_of_product at 1, lift.
  destruct (int_times (Z.of_nat (length (shuffled seed rs))) t) as [b|e]; [| done].
  unfold slice, mbind, M_bind, bind, mret, M_ret, ret. cbv beta iota.
  rewrite !(items_lookup _ _ _ Hc'). reflexivity.
Qed.

End Store.

(* ===================================================================== *)
(** * The splitter *)
(* ===================================================================== *)

Section Split.

Context {R : Random}.

Implicit Types (h : store) (x : loc) (l rs train val test : list SnippetRecord).

(** With counts that fit, the three slices are the list cut in three. *)
Lemma slices_partition l (a b : Z) :
  (0 <= a)%Z -> (0 <= b)%Z -> (a + b <= Z.of_nat (length l))%Z ->
  let tc := (Z.of_nat (length l) - a - b)%Z in
  slice_list l None (Some tc)
  ++ slice_list l (Some tc) (Some (tc + a)%Z)
  ++ slice_list l (Some (tc + a)%Z) None = l.
Proof.
  intros Ha Hb Hab tc. unfold slice_list, clamp.
  destruct (Z.ltb_spec tc 0); [lia |].
  destruct (Z.ltb_spec (tc + a) 0); [lia |].
  rewrite !Z.min_l by lia. rewrite Z.sub_0_r. simpl drop.
  replace (Z.to_nat (tc + a - tc)) with (Z.to_nat a) by lia.
  replace (Z.to_nat (tc + a)) with (Z.to_nat tc + Z.to_nat a)%nat by lia.
  rewrite <- drop_drop.
  rewrite (take_ge (drop (Z.to_nat a) (drop (Z.to_nat tc) l))).
  2: { rewrite !length_drop. lia. }
  by rewrite !take_drop.
Qed.

Lemma ratios_accepted v t :
  ratios_rejected v t = false ->
  le zero v = true /\ lt v one = true /\ le zero t = true /\ lt t one = true
  /\ ge (add v t) one = false.
Proof.
  unfold ratios_rejected. intros H.
  apply orb_false_elim in H as [H Hsum]. apply orb_false_elim in H as [Hv Ht].
  apply negb_false_iff, andb_prop in Hv as [? ?].
  apply negb_false_iff, andb_prop in Ht as [? ?]. done.
Qed.

Lemma split_items_accepted rs v t seed :
  ratios_rejected v t = false ->
  split_items rs v t seed
  = let records := shuffled seed rs in
    let total := Z.of_nat (length records) in
    match int_times total v with
    | Raise e => Raise e
    | Ok val_count =>
        match int_times total t with
        | Raise e => Raise e
        | Ok test_count =>
            let train_count := (total - val_count - test_count)%Z in
            Ok (slice_list records None (Some train_count),
                slice_list records (Some train_count)
                                   (Some (train_count + val_count)%Z),
                slice_list records (Some (train_count + val_count)%Z) None)
        end
    end.
Proof.
  intros H. apply ratios_accepted in H as (Hv0 & Hv1 & Ht0 & Ht1 & Hsum).
  unfold split_items. by rewrite Hv0, Hv1, Ht0, Ht1, Hsum.
Qed.

(** For ratios that pass the checks and a list of at most [2 ^ 53]
    records, the splitter returns the shuffled list cut in three. *)
Lemma split_items_ok rs v t seed :
  is_float v -> is_float t ->
  (Z.of_nat (length rs) <= 2 ^ 53)%Z ->
  ratios_rejected v t = false ->
  exists train val test,
    split_items rs v t seed = Ok (train, val, test)
    /\ train ++ val ++ test = shuffled seed rs.
Proof.
  intros Hfv Hft Hlen Hacc. rewrite split_items_accepted by done.
  apply ratios_accepted in Hacc as (Hv0 & Hv1 & Ht0 & Ht1 & Hsum).
  cbv zeta.
  destruct (counts_fit (Z.of_nat (length (shuffled seed rs))) v t)
    as (a & b & -> & -> & Ha & Hb & Hab); try done.
  { rewrite shuffled_length. lia. }
  eexists _, _, _. split; [reflexivity |]. by apply slices_partition.
Qed.

(** C1. For every record list and every pair of ratios with
    [0 <= val_ratio < 1], [0 <= test_ratio < 1] and
    [val_ratio + test_ratio < 1], as [split_records] checks them,
    [split_records] returns three lists whose lengths add up to the
    length of the input.  The list has at most [2 ^ 53] records, as every
    list has that the function can be given: the references alone of a
    longer one take more than [2 ^ 56] bytes, beyond the address space of
    a program, and [list(records)] cannot copy it. *)
Theorem split_lengths_add_up h x rs v t seed :
  h !! x = Some rs ->
  is_float v -> is_float t ->
  (Z.of_nat (length rs) <= 2 ^ 53)%Z ->
  le zero v = true -> lt v one = true ->
  le zero t = true -> lt t one = true ->
  lt (add v t) one = true ->
  exists train val test h',
    split_records x v t seed h = (Ok (train, val, test), h')
    /\ (length train + length val + length test = length rs)%nat.
Proof.
  intros Hx Hfv Hft Hlen Hv0 Hv1 Ht0 Ht1 Hsum.
  assert (Hacc : ratios_rejected v t = false).
  { unfold ratios_rejected. by rewrite Hv0, Hv1, Ht0, Ht1, (lt_one_not_ge _ Hsum). }
  destruct (split_items_ok rs v t seed Hfv Hft Hlen Hacc)
    as (train & val & test & Hsplit & Happ).
  exists train, val, test. eexists. split.
  - rewrite (split_records_run h x rs v t seed Hx), Hsplit. reflexivity.
  - rewrite <- (shuffled_length seed rs), <- Happ, !length_app. lia.
Qed.

(** C6. For every record list, every valid pair of ratios and every
    seed, the three lists [split_records] returns, put one after the
    other, are a permutation of the input: each input record is in
    exactly one split, as often as it is in the input, and nothing else
    is.  The list has at most [2 ^ 53] records, as every list has that
    the function can be given: the references alone of a longer one take
    more than [2 ^ 56] bytes, and [list(records)] cannot copy it. *)
Theorem split_is_permutation h x rs v t seed :
  h !! x = Some rs ->
  is_float v -> is_float t ->
  (Z.of_nat (length rs) <= 2 ^ 53)%Z ->
  le zero v = true -> lt v one = true ->
  le zero t = true -> lt t one = true ->
  lt (add v t) one = true ->
  exists train val test h',
    split_records x v t seed h = (Ok (train, val, test), h')
    /\ train ++ val ++ test ≡ₚ rs.
Proof.
  intros Hx Hfv Hft Hlen Hv0 Hv1 Ht0 Ht1 Hsum.
  assert (Hacc : ratios_rejected v t = false).
  { unfold ratios_rejected. by rewrite Hv0, Hv1, Ht0, Ht1, (lt_one_not_ge _ Hsum). }
  destruct (split_items_ok rs v t seed Hfv Hft Hlen Hacc)
    as (train & val & test & Hsplit & Happ).
  exists train, val, test. eexists. split.
  - rewrite (split_records_run h x rs v t seed Hx), Hsplit. reflexivity.
  - rewrite Happ. apply shuffled_perm.
Qed.

(** C3. [split_records] is deterministic in its arguments: a run leaves
    the caller's list as it was, a second run on it with the same ratios
    and seed returns the same result as the first, and so does a run in
    any store on any list object with the same records. *)
Theorem split_same_seed_same_split h x rs v t seed :
  h !! x = Some rs ->
  let first := split_records x v t seed h in
  let second := split_records x v t seed first.2 in
  first.2 !! x = Some rs
  /\ second.1 = first.1
  /\ (forall h' x', h' !! x' = Some rs ->
        (split_records x' v t seed h').1 = first.1).
Proof.
  intros Hx first second.
  assert (Hkeep : first.2 !! x = Some rs).
  { subst first. rewrite (split_records_run h x rs v t seed Hx). simpl.
    destruct (ratios_rejected v t); [done |]. by apply lookup_app_l_Some. }
  split; [done |]. split.
  - subst second. rewrite (split_records_run _ x rs v t seed Hkeep).
    subst first. by rewrite (split_records_run h x rs v t seed Hx).
  - intros h' x' Hx'. subst first.
    by rewrite (split_records_run h' x' rs v t seed Hx'),
               (split_records_run h x rs v t seed Hx).
Qed.

Lemma ratios_rejected_iff v t :
  is_float v -> is_float t ->
  (ratios_rejected v t = true
   <-> ~ in_unit_interval v \/ ~ in_unit_interval t \/ ge (add v t) one = true).
Proof.
  intros Hv Ht. unfold ratios_rejected.
  pose proof (unit_interval_check v Hv) as Hcv.
  pose proof (unit_interval_check t Ht) as Hct.
  destruct (le zero v && lt v one), (le zero t && lt t one), (ge (add v t) one);
    simpl; split; try done; try tauto;
    intros [H | [H | H]]; try done; exfalso; apply H; tauto.
Qed.

(** C4. [split_records] raises a [ValueError] exactly when [val_ratio]
    is outside [[0, 1)], or [test_ratio] is, or their sum is at least one;
    it then leaves the store as it was, no copy made and nothing shuffled;
    for every other pair of ratios it returns three lists (the length of
    a list is below [2 ^ 63], as [len] has it). *)
Theorem split_raises_iff_ratios_rejected h x rs v t seed :
  h !! x = Some rs ->
  is_float v -> is_float t ->
  ((exists msg, (split_records x v t seed h).1 = Raise (ValueError msg))
   <-> ~ in_unit_interval v \/ ~ in_unit_interval t \/ ge (add v t) one = true)
  /\ ((exists msg, (split_records x v t seed h).1 = Raise (ValueError msg)) ->
      (split_records x v t seed h).2 = h)
  /\ (in_unit_interval v -> in_unit_interval t -> ge (add v t) one = false ->
      (Z.of_nat (length rs) < 2 ^ 63)%Z ->
      exists train val test,
        (split_records x v t seed h).1 = Ok (train, val, test)).
Proof.
  intros Hx Hfv Hft. rewrite (split_records_run h x rs v t seed Hx). simpl.
  rewrite <- (ratios_rejected_iff v t Hfv Hft).
  assert (Hraise : (exists msg, split_items rs v t seed = Raise (ValueError msg))
                   <-> ratios_rejected v t = true).
  { split.
    - intros [msg Hmsg]. destruct (ratios_rejected v t) eqn:Hrej; [done | exfalso].
      rewrite split_items_accepted in Hmsg by done. cbv zeta in Hmsg.
      apply ratios_accepted in Hrej as (Hv0 & Hv1 & Ht0 & Ht1 & _).
      set (n := Z.of_nat (length (shuffled seed rs))) in *.
      assert (Hn : (0 <= n)%Z) by (subst n; lia).
      destruct (int_times n v) as [a|e] eqn:Ha.
      + destruct (int_times n t) as [b|e] eqn:Hb; [done |].
        injection Hmsg as ->. exact (int_times_no_ValueError n t msg Hn Ht0 Ht1 Hb).
      + injection Hmsg as ->. exact (int_times_no_ValueError n v msg Hn Hv0 Hv1 Ha).
    - intros Hrej. unfold ratios_rejected in Hrej. unfold split_items.
      destruct (negb (le zero v && lt v one)); [eauto |].
      destruct (negb (le zero t && lt t one)); [eauto |].
      destruct (ge (add v t) one); [eauto | done]. }
  split; [exact Hraise |]. split.
  - intros Hmsg. apply Hraise in Hmsg. by rewrite Hmsg.
  - intros Hiv Hit Hsum Hlen.
    apply (unit_interval_check v Hfv), andb_prop in Hiv as [Hv0 Hv1].
    apply (unit_interval_check t Hft), andb_prop in Hit as [Ht0 Ht1].
    assert (Hacc : ratios_rejected v t = false).
    { unfold ratios_rejected. by rewrite Hv0, Hv1, Ht0, Ht1, Hsum. }
    rewrite split_items_accepted by done. cbv zeta.
    set (n := Z.of_nat (length (shuffled seed rs))).
    assert (Hn : (0 <= n < 2 ^ 63)%Z) by (subst n; rewrite shuffled_length; lia).
    destruct (int_times_returns n v Hn (ratio_cases v Hfv Hv0 Hv1)) as [a ->].
    destruct (int_times_returns n t Hn (ratio_cases t Hft Ht0 Ht1)) as [b ->].
    eauto.
Qed.

End Split.

(** ** The splitter on the samples *)

(** [test_basic_split] and [test_total_count_preserved], with the
    generator [lcg]: 100 records and the ratios [0.1] and [0.1] give 80,
    10 and 10 records; [int(100 * 0.15)] is 15, as the float product
    rounds to 15.0. *)
Example split_hundred_lengths :
  match (split_records (R := lcg) 0%nat point_one point_one 42 [hundred_records]).1 with
  | Ok (train, val, test) => (length train, length val, length test)
  | Raise _ => (0, 0, 0)%nat
  end = (80, 10, 10)%nat.
Proof. vm_compute. reflexivity. Qed.

Example int_times_point_one_five : int_times 100 point_one_five = Ok 15%Z.
Proof. vm_compute. reflexivity. Qed.

Lemma split_lengths_add_up_witness :
  exists train val test h',
    split_records (R := lcg) 0%nat point_one point_one 42 [hundred_records]
    = (Ok (train, val, test), h')
    /\ (length train + length val + length test = length hundred_records)%nat.
Proof.
  apply (@split_lengths_add_up lcg [hundred_records] 0%nat hundred_records
           point_one point_one 42);
    try (vm_compute; reflexivity).
  vm_compute. discriminate.
Defined.

Lemma split_is_permutation_witness :
  exists train val test h',
    split_records (R := lcg) 0%nat point_one_five point_one_five 2025 [hundred_records]
    = (Ok (train, val, test), h')
    /\ train ++ val ++ test ≡ₚ hundred_records.
Proof.
  apply (@split_is_permutation lcg [hundred_records] 0%nat hundred_records
           point_one_five point_one_five 2025);
    try (vm_compute; reflexivity).
  vm_compute. discriminate.
Defined.

Lemma split_same_seed_same_split_witness :
  let first := split_records (R := lcg) 0%nat point_one point_one 42 [three_records] in
  let second := split_records (R := lcg) 0%nat point_one point_one 42 first.2 in
  first.2 !! 0%nat = Some three_records
  /\ second.1 = first.1
  /\ (forall h' x', h' !! x' = Some three_records ->
        (split_records (R := lcg) x' point_one point_one 42 h').1 = first.1).
Proof.
  apply (@split_same_seed_same_split lcg [three_records] 0%nat three_records
           point_one point_one 42).
  reflexivity.
Defined.

Lemma split_raises_iff_ratios_rejected_witness :
  (exists msg,
     (split_records (R := lcg) 0%nat minus_point_one point_one 42 [three_records]).1
     = Raise (ValueError msg))
  <-> ~ in_unit_interval minus_point_one \/ ~ in_unit_interval point_one
      \/ ge (add minus_point_one point_one) one = true.
Proof.
  apply (@split_raises_iff_ratios_rejected lcg [three_records] 0%nat three_records
           minus_point_one point_one 42); vm_compute; reflexivity.
Defined.

(** ** The lengths of slices *)

Lemma slice_list_length {A} (l : list A) lo hi :
  let n := Z.of_nat (length l) in
  Z.of_nat (length (slice_list l lo hi))
  = Z.max 0 (match hi with Some i => clamp n i | None => n end
             - match lo with Some i => clamp n i | None => 0%Z end)%Z.
Proof.
  intros n. unfold slice_list. fold n. rewrite length_take, length_drop.
  assert (Hc : forall i, (0 <= clamp n i <= n)%Z).
  { intros i. unfold clamp. destruct (Z.ltb_spec i 0); lia. }
  destruct lo as [i|], hi as [j|];
    try (pose proof (Hc i)); try (pose proof (Hc j)); lia.
Qed.

(** ** The bound on the length

    The length of a list converts to a float without rounding up to
    [2 ^ 53], and the theorems above need no more of it.  The bound is
    one on the arithmetic, not on the lists of a program: [int(n * x)]
    rounds the number and the product, and for [n = 2 ^ 56 + 9] the
    ratios [0.75] and [0.24999999999999992] pass the checks while the
    two counts together are 5 more than [n].  No list is that long. *)
Example counts_beyond_exact_range :
  ratios_rejected three_quarters almost_quarter = false
  /\ int_times 72057594037927945 three_quarters = Ok 54043195528445968%Z
  /\ int_times 72057594037927945 almost_quarter = Ok 18014398509481982%Z.
Proof. split; [| split]; vm_compute; reflexivity. Qed.

(* ===================================================================== *)
(** * The snippet collector and byte-order marks *)
(* ===================================================================== *)

Section Collector.

Implicit Types (f : SourceFile) (r : SnippetRecord).

Lemma startswith_nil (s : str) : startswith s [] = true.
Proof. by destruct s. Qed.

(** The response begins with the first character that is left after the
    leading byte-order marks and then the leading white space are
    removed: when that character is no byte-order mark, neither is the
    first character of the response. *)
Lemma response_without_bom f r :
  snippet_of_file f = Some r ->
  startswith (lstrip (lstrip_chars [BOM] (text f))) [BOM] = false ->
  startswith (response r) [BOM] = false.
Proof.
  unfold snippet_of_file. destruct (is_file f); [| done]. simpl negb. cbv iota.
  destruct (strip (lstrip_chars [BOM] (text f))) as [|c s'] eqn:Hs; [done |].
  intros [= <-]. simpl response.
  unfold strip in Hs. apply rstrip_head in Hs as [rest' Hs]. rewrite Hs.
  simpl startswith. rewrite startswith_nil. intros Hc.
  destruct (rstrip (c :: s')) as [|x rest] eqn:Hr; [done |].
  apply rstrip_head in Hr as [rest'' [= <- _]]. simpl.
  by rewrite startswith_nil.
Qed.

(** [test_strips_bom]: one byte-order mark before the code is removed. *)
Example bom_file_response :
  exists r, iterate_snippets [bom_file] = [r]
            /\ startswith (response r) [BOM] = false
            /\ response r = py "#Requires AutoHotkey v2.0" ++ [LF]
                            ++ py "MsgBox('Test')" ++ [LF].
Proof. eexists. split; [vm_compute; reflexivity |]. split; reflexivity. Qed.

(** C8. The code at the failing input: the text of the file begins with
    a byte-order mark, and the response of the record [iterate_snippets]
    produces for it begins with a byte-order mark too.  The mark at the
    start of the text is removed; the second one, behind the space, is
    not, and [strip] then removes the space in front of it. *)
Theorem bom_after_space_survives :
  startswith (text bom_space_bom_file) [BOM] = true
  /\ exists r, iterate_snippets [bom_space_bom_file] = [r]
               /\ response r = [BOM] ++ py "MsgBox('Test')" ++ [LF]
               /\ startswith (response r) [BOM] = true.
Proof.
  split; [reflexivity |]. eexists.
  split; [vm_compute; reflexivity |]. split; reflexivity.
Qed.

End Collector.

(* ===================================================================== *)
(** * Titles *)
(* ===================================================================== *)

Section Titles.

Lemma replace_char_elem old new s c :
  c ∈ replace_char old new s -> (c ∈ s /\ c <> old) \/ c = new.
Proof.
  induction s as [|d s IH]; simpl; [by intros H; inversion H |].
  intros H. apply elem_of_cons in H as [-> | H].
  - destruct (N.eqb_spec d old) as [-> | Hne]; [by right |].
    left. split; [by left | done].
  - destruct (IH H) as [[Hin Hne] | ->]; [left | by right].
    split; [by right | done].
Qed.

Lemma replace_char_absent old new s :
  old ∉ s -> replace_char old new s = s.
Proof.
  induction s as [|d s IH]; simpl; [done |].
  intros H. apply not_elem_of_cons in H as [Hne Hs].
  destruct (N.eqb_spec d old) as [-> | _]; [done |]. by rewrite IH.
Qed.

Lemma collapse_whitespace_elem b s c :
  c ∈ collapse_whitespace b s -> (c ∈ s /\ isspace c = false) \/ c = 32%N.
Proof.
  revert b. induction s as [|d s IH]; intros b; simpl; [by intros H; inversion H |].
  destruct (isspace d) eqn:Hd.
  - destruct b.
    + intros H. destruct (IH _ H) as [[Hin Hc] | ->]; [left | by right].
      split; [by right | done].
    + intros H. apply elem_of_cons in H as [-> | H]; [by right |].
      destruct (IH _ H) as [[Hin Hc] | ->]; [left | by right].
      split; [by right | done].
  - intros H. apply elem_of_cons in H as [-> | H].
    + left. split; [by left | done].
    + destruct (IH _ H) as [[Hin Hc] | ->]; [left | by right].
      split; [by right | done].
Qed.

Lemma collapse_whitespace_single_spaced s : forall b,
  single_spaced b (collapse_whitespace b s) = true.
Proof.
  induction s as [|d s IH]; intros b; simpl; [done |].
  destruct (isspace d) eqn:Hd.
  - destruct b; [apply IH |]. simpl. apply IH.
  - simpl. rewrite Hd. apply IH.
Qed.

Lemma collapse_whitespace_fixed s : forall b,
  single_spaced b s = true -> collapse_whitespace b s = s.
Proof.
  induction s as [|d s IH]; intros b; simpl; [done |].
  destruct (isspace d) eqn:Hd.
  - intros H. apply andb_prop in H as [H Hs]. apply andb_prop in H as [Hd32 Hb].
    apply N.eqb_eq in Hd32 as ->. destruct b; [done |]. by rewrite IH.
  - intros H. by rewrite IH.
Qed.

Lemma single_spaced_weaken s b : single_spaced b s = true -> single_spaced false s = true.
Proof.
  destruct s as [|d s]; simpl; [done |].
  destruct (isspace d); [| done].
  intros H. apply andb_prop in H as [H Hs]. apply andb_prop in H as [Hd _].
  by rewrite Hd, Hs.
Qed.

Lemma single_spaced_app_l l s : forall b,
  single_spaced b (l ++ s) = true -> single_spaced b l = true.
Proof.
  induction l as [|d l IH]; intros b; simpl; [done |].
  destruct (isspace d); [| apply IH].
  intros H. apply andb_prop in H as [H Hs]. rewrite H. simpl. by apply IH.
Qed.

Lemma single_spaced_app_r l s : forall b,
  single_spaced b (l ++ s) = true -> single_spaced false s = true.
Proof.
  induction l as [|d l IH]; intros b; simpl; [apply single_spaced_weaken |].
  destruct (isspace d); [| apply IH].
  intros H. apply andb_prop in H as [_ Hs]. by apply IH in Hs.
Qed.

Lemma single_spaced_no_double s : forall b l r,
  single_spaced b s = true -> s <> l ++ [32; 32]%N ++ r.
Proof.
  intros b l r H ->. apply single_spaced_app_r in H. simpl in H. done.
Qed.

Lemma single_spaced_space s b c :
  single_spaced b s = true -> c ∈ s -> isspace c = true -> c = 32%N.
Proof.
  revert b. induction s as [|d s IH]; intros b H Hin Hc; [inversion Hin |].
  simpl in H. apply elem_of_cons in Hin as [-> | Hin].
  - rewrite Hc in H. apply andb_prop in H as [H _]. apply andb_prop in H as [H _].
    by apply N.eqb_eq in H.
  - destruct (isspace d).
    + apply andb_prop in H as [_ H]. by apply (IH true).
    + by apply (IH false).
Qed.

(** A string that neither begins nor ends with white space is its own
    [strip]. *)
Lemma drop_while_id (p : N -> bool) s :
  (forall x rest, s = x :: rest -> p x = false) -> drop_while p s = s.
Proof.
  destruct s as [|c s]; simpl; [done |].
  intros H. by rewrite (H c s eq_refl).
Qed.

Lemma strip_fixed s :
  (forall x rest, s = x :: rest -> isspace x = false) ->
  (forall x l, s = l ++ [x] -> isspace x = false) ->
  strip s = s.
Proof.
  intros Hh Hl. unfold strip, lstrip, rstrip.
  rewrite (drop_while_id _ s Hh).
  rewrite drop_while_id; [apply rev_involutive |].
  intros x rest H. apply (Hl x (rev rest)).
  apply (f_equal (@rev N)) in H. rewrite rev_involutive in H. by rewrite H.
Qed.

Lemma strip_idempotent s : strip (strip s) = strip s.
Proof.
  destruct (strip_stripped_of s) as (_ & Hh & Hl). by apply strip_fixed.
Qed.

Lemma strip_infix s : exists l r, s = l ++ strip s ++ r.
Proof.
  destruct (strip_stripped_of s) as ((l & r & H & _) & _). by exists l, r.
Qed.

Lemma humanise_title_shape stem :
  let title := humanise_title stem in
  (95%N ∉ title) /\ (45%N ∉ title)
  /\ single_spaced false title = true
  /\ (forall x rest, title = x :: rest -> isspace x = false)
  /\ (forall x l, title = l ++ [x] -> isspace x = false).
Proof.
  cbv zeta. unfold humanise_title.
  set (a := replace_char 45 32 (replace_char 95 32 stem)).
  set (b := collapse_whitespace false a).
  assert (Hb : single_spaced false b = true)
    by apply collapse_whitespace_single_spaced.
  destruct (strip_infix b) as (l0 & r0 & Hinf).
  assert (Hs : single_spaced false (strip b) = true).
  { rewrite Hinf in Hb. apply single_spaced_app_r in Hb.
    by apply single_spaced_app_l in Hb. }
  assert (Hsub : forall c, c ∈ strip b -> c ∈ b).
  { intros c Hc. rewrite Hinf. apply elem_of_app. right.
    apply elem_of_app. by left. }
  destruct (strip_stripped_of b) as (_ & Hh & Hl).
  repeat split; try done.
  - intros Hc. apply Hsub, collapse_whitespace_elem in Hc as [[Hin _] | ?]; [| done].
    apply replace_char_elem in Hin as [[Hin _] | ?]; [| done].
    apply replace_char_elem in Hin as [[_ Hne] | ?]; done.
  - intros Hc. apply Hsub, collapse_whitespace_elem in Hc as [[Hin _] | ?]; [| done].
    apply replace_char_elem in Hin as [[_ Hne] | ?]; done.
Qed.

Lemma humanise_title_fixed s :
  95%N ∉ s -> 45%N ∉ s -> single_spaced false s = true ->
  (forall x rest, s = x :: rest -> isspace x = false) ->
  (forall x l, s = l ++ [x] -> isspace x = false) ->
  humanise_title s = s.
Proof.
  intros H95 H45 Hs Hh Hl. unfold humanise_title.
  rewrite (replace_char_absent 95 32 s H95), (replace_char_absent 45 32 s H45).
  rewrite (collapse_whitespace_fixed s false Hs). by apply strip_fixed.
Qed.

(** X1. The label [humanise_title] returns has no underscore and no
    hyphen, its only white space characters are spaces, no two spaces
    are adjacent, and it neither begins nor ends with white space. *)
Theorem humanise_title_clean stem :
  let title := humanise_title stem in
  (forall c, c ∈ title ->
     c <> 95%N /\ c <> 45%N /\ (isspace c = true -> c = 32%N))
  /\ (forall l r, title <> l ++ [32; 32]%N ++ r)
  /\ (forall c rest, title = c :: rest -> isspace c = false)
  /\ (forall c l, title = l ++ [c] -> isspace c = false).
Proof.
  cbv zeta. destruct (humanise_title_shape stem) as (H95 & H45 & Hs & Hh & Hl).
  split; [| split; [| split]].
  - intros c Hc. split; [by intros -> | split; [by intros -> |]].
    by apply (single_spaced_space (humanise_title stem) false).
  - intros l r. by apply (single_spaced_no_double _ false).
  - exact Hh.
  - exact Hl.
Qed.

(** X2. [humanise_title] is idempotent: a label it returned is
    returned unchanged. *)
Theorem humanise_title_idempotent stem :
  humanise_title (humanise_title stem) = humanise_title stem.
Proof.
  destruct (humanise_title_shape stem) as (H95 & H45 & Hs & Hh & Hl).
  by apply humanise_title_fixed.
Qed.

Example humanise_title_tests :
  humanise_title (py "File_Read_Example") = py "File Read Example"
  /\ humanise_title (py "my-test-file") = py "my test file"
  /\ humanise_title (py "test__multiple___spaces") = py "test multiple spaces"
  /\ humanise_title (py "  test_file  ") = py "test file"
  /\ humanise_title (py "test_file-name_here") = py "test file name here".
Proof. repeat split; vm_compute; reflexivity. Qed.

End Titles.

(* ===================================================================== *)
(** * Prompts *)
(* ===================================================================== *)

Section Prompts.

Lemma join_five (sep a b c d e : str) :
  join sep [a; b; c; d; e]
  = a ++ sep ++ b ++ sep ++ c ++ sep ++ d ++ sep ++ e.
Proof. reflexivity. Qed.

(** Two strings cut at the first occurrence of a character. *)
Lemma app_cons_first (x : N) (a a' r r' : str) :
  x ∉ a -> x ∉ a' -> a ++ x :: r = a' ++ x :: r' -> a = a' /\ r = r'.
Proof.
  revert a'. induction a as [|c a IH]; intros [|c' a'] Ha Ha'; simpl.
  - by intros [= ->].
  - intros [= <- _]. exfalso. apply Ha'. by left.
  - intros [= -> _]. exfalso. apply Ha. by left.
  - intros [= -> H]. apply not_elem_of_cons in Ha as [_ Ha].
    apply not_elem_of_cons in Ha' as [_ Ha'].
    destruct (IH a' Ha Ha' H) as [-> ->]. done.
Qed.

Lemma prompt_lines_inj (l1 pc pt pp l5 c t p c' t' p' : str) :
  LF ∉ c -> LF ∉ t -> LF ∉ c' -> LF ∉ t' ->
  join [LF] [l1; pc ++ c; pt ++ t; pp ++ p; l5]
  = join [LF] [l1; pc ++ c'; pt ++ t'; pp ++ p'; l5] ->
  c = c' /\ t = t' /\ p = p'.
Proof.
  intros Hc Ht Hc' Ht'. rewrite !join_five, <- !app_assoc.
  intros H. apply app_inv_head in H. injection H as H.
  apply app_inv_head in H.
  apply app_cons_first in H as [-> H]; [| done | done].
  apply app_inv_head in H.
  apply app_cons_first in H as [-> H]; [| done | done].
  apply app_inv_head in H.
  change (p ++ [LF] ++ l5 = p' ++ [LF] ++ l5) in H.
  rewrite !(app_assoc _ [LF]) in H. apply app_inv_tail in H.
  apply app_inv_tail in H. done.
Qed.

(** X3. On categories and titles without a line feed [build_prompt] is
    injective: two prompts are equal only when the category, the title
    and the source path are. *)
Theorem build_prompt_injective category title source_path
    category' title' source_path' :
  LF ∉ category -> LF ∉ title -> LF ∉ category' -> LF ∉ title' ->
  (build_prompt category title source_path
   = build_prompt category' title' source_path'
   <-> category = category' /\ title = title' /\ source_path = source_path').
Proof.
  intros Hc Ht Hc' Ht'. split; [| by intros (-> & -> & ->)].
  unfold build_prompt. cbv zeta. by apply prompt_lines_inj.
Qed.

End Prompts.

Lemma build_prompt_injective_witness :
  build_prompt (py "GUI") (py "Button_Click") (py "GUI/Button_Click.ahk")
  = build_prompt (py "Test") (py "test_id") (py "test/path")
  <-> py "GUI" = py "Test" /\ py "Button_Click" = py "test_id"
      /\ py "GUI/Button_Click.ahk" = py "test/path".
Proof.
  apply build_prompt_injective; vm_compute;
    intros H; repeat (apply elem_of_cons in H as [H | H]; [discriminate |]);
    inversion H.
Defined.

(* ===================================================================== *)
(** * The snippet collector, file by file *)
(* ===================================================================== *)

Section Snippets.

Implicit Types (f : SourceFile) (r : SnippetRecord) (s : str).

Lemma drop_while_all (p : N -> bool) s :
  forallb p s = true -> drop_while p s = [].
Proof.
  induction s as [|c s IH]; simpl; [done |].
  intros H. apply andb_prop in H as [-> H]. by apply IH.
Qed.

Lemma strip_nil_iff s : strip s = [] <-> forallb isspace s = true.
Proof.
  split.
  - intros H. destruct (strip_stripped_of s) as ((l & r0 & Hs & Hl & Hr) & _).
    rewrite H in Hs. rewrite Hs, forallb_app, Hl. exact Hr.
  - intros H. unfold strip, lstrip. by rewrite (drop_while_all _ _ H).
Qed.

Lemma rstrip_fixed s :
  (forall x l, s = l ++ [x] -> isspace x = false) -> rstrip s = s.
Proof.
  intros Hl. unfold rstrip. rewrite drop_while_id; [apply rev_involutive |].
  intros x rest H. apply (Hl x (rev rest)).
  apply (f_equal (@rev N)) in H. rewrite rev_involutive in H. by rewrite H.
Qed.

Lemma rstrip_strip s : rstrip (strip s) = strip s.
Proof.
  destruct (strip_stripped_of s) as (_ & _ & Hl). by apply rstrip_fixed.
Qed.

(** [rstrip] keeps a first character that is no white space. *)
Lemma rstrip_keeps_head x s :
  isspace x = false -> exists rest, rstrip (x :: s) = x :: rest.
Proof.
  intros Hx. destruct (rstrip_split (x :: s)) as (r0 & Hs & Hr).
  destruct (rstrip (x :: s)) as [|y rest].
  - simpl in Hs. rewrite <- Hs in Hr. simpl in Hr. by rewrite Hx in Hr.
  - injection Hs as <- _. by exists rest.
Qed.

(** What the body of the loop yields. *)
Lemma snippet_of_file_some f r :
  snippet_of_file f = Some r ->
  let snippet := strip (lstrip_chars [BOM] (text f)) in
  is_file f = true
  /\ snippet <> []
  /\ prompt r = build_prompt (file_category f) (file_stem f) (as_posix f)
  /\ response r = snippet ++ [LF]
  /\ metadata r =
       <[py "record_type" := MStr (py "snippet")]>
       (<[py "line_count" := MInt (Z.of_nat (length (splitlines snippet)))]>
       (<[py "filename" := MStr (file_name f)]>
       (<[py "category" := MStr (file_category f)]>
       (<[py "source_path" := MStr (as_posix f)]> ∅)))).
Proof.
  unfold snippet_of_file. destruct (is_file f); [| done]. simpl negb. cbv iota zeta.
  pose proof (rstrip_strip (lstrip_chars [BOM] (text f))) as Hr.
  destruct (strip (lstrip_chars [BOM] (text f))) as [|c s'] eqn:Hs; [done |].
  intros [= <-]. simpl. rewrite Hr. done.
Qed.


Lemma source_path_of_snippet f r :
  snippet_of_file f = Some r ->
  metadata r !! py "source_path" = Some (MStr (as_posix f)).
Proof.
  intros H. apply snippet_of_file_some in H as (_ & _ & _ & _ & ->).
  rewrite !lookup_insert_ne by done. apply lookup_insert_eq.
Qed.


Lemma iterate_snippets_elem (files : list SourceFile) r :
  r ∈ iterate_snippets files <-> exists f, f ∈ files /\ snippet_of_file f = Some r.
Proof. unfold iterate_snippets. apply list_elem_of_omap. Qed.

(** A non-empty list has a last element. *)
Lemma nonempty_last {A} (l : list A) : l <> [] -> exists l' x, l = l' ++ [x].
Proof.
  intros H. destruct (rev l) as [|x l'] eqn:Hr.
  - apply (f_equal (@rev A)) in Hr. rewrite rev_involutive in Hr. done.
  - exists (rev l'), x. apply (f_equal (@rev A)) in Hr.
    by rewrite rev_involutive in Hr.
Qed.

(** X5. The response of a record of [iterate_snippets] ends with one
    line feed behind a character that is no white space, and does not
    begin with white space: the [rstrip] of the source finds nothing to
    remove. *)
Theorem snippet_response_shape (files : list SourceFile) r :
  r ∈ iterate_snippets files ->
  (exists body x, response r = body ++ [x; LF] /\ isspace x = false)
  /\ (forall y rest, response r = y :: rest -> isspace y = false).
Proof.
  intros Hr. apply iterate_snippets_elem in Hr as (f & _ & Hf).
  apply snippet_of_file_some in Hf as (_ & Hne & _ & Hresp & _).
  destruct (strip_stripped_of (lstrip_chars [BOM] (text f))) as (_ & Hh & Hl).
  destruct (strip (lstrip_chars [BOM] (text f))) as [|c s'] eqn:Hs; [done |].
  split.
  - destruct (nonempty_last (c :: s') Hne) as (l & x & Hlx).
    exists l, x. split; [| by apply (Hl x l)].
    by rewrite Hresp, Hlx, <- app_assoc.
  - intros y rest Hy. rewrite Hresp in Hy. injection Hy as <- _.
    by apply (Hh c s').
Qed.

Lemma lstrip_chars_split s :
  exists k, s = repeat BOM k ++ lstrip_chars [BOM] s.
Proof.
  unfold lstrip_chars. induction s as [|c s IH]; simpl.
  - by exists 0%nat.
  - destruct (N.eqb_spec c BOM) as [-> | Hne]; simpl.
    + destruct IH as [k Hk]. exists (S k). simpl. f_equal. exact Hk.
    + by exists 0%nat.
Qed.

Lemma lstrip_chars_repeat k s :
  lstrip_chars [BOM] (repeat BOM k ++ s) = lstrip_chars [BOM] s.
Proof. unfold lstrip_chars. induction k as [|k IH]; simpl; done. Qed.

Lemma lstrip_chars_head s x rest :
  lstrip_chars [BOM] s = x :: rest -> x <> BOM.
Proof.
  intros H. apply drop_while_head in H. simpl in H.
  rewrite orb_false_r in H. by apply N.eqb_neq in H.
Qed.

Lemma lstrip_app_space ws s :
  forallb isspace ws = true -> lstrip (ws ++ s) = lstrip s.
Proof.
  unfold lstrip. induction ws as [|c ws IH]; simpl; [done |].
  intros H. apply andb_prop in H as [-> H]. by apply IH.
Qed.

(** X6. The response of a file begins with a byte-order mark exactly
    when the text is a run of byte-order marks (possibly none), then some
    white space, then a byte-order mark: the marks at the very start are
    removed, one behind white space is not. *)
Theorem response_starts_with_bom_iff f r :
  snippet_of_file f = Some r ->
  (startswith (response r) [BOM] = true
   <-> exists k ws rest,
         text f = repeat BOM k ++ ws ++ BOM :: rest
         /\ ws <> [] /\ forallb isspace ws = true).
Proof.
  intros Hf. apply snippet_of_file_some in Hf as (_ & Hne & _ & Hresp & _).
  set (raw := lstrip_chars [BOM] (text f)) in *.
  destruct (lstrip_chars_split (text f)) as [k Hk]. fold raw in Hk.
  split.
  - intros Hb. unfold strip in *.
    destruct (drop_while_split isspace raw) as (ws & Hws & Hsp).
    fold (lstrip raw) in Hws, Hne, Hresp.
    destruct (rstrip (lstrip raw)) as [|c s'] eqn:Hs; [done |].
    rewrite Hresp in Hb. simpl in Hb. rewrite startswith_nil, andb_true_r in Hb.
    apply N.eqb_eq in Hb as ->.
    apply rstrip_head in Hs as [rest Hs].
    exists k, ws, rest. rewrite Hs in Hws. rewrite <- Hws. split; [done |].
    split; [| done]. intros ->. simpl in Hws.
    by apply lstrip_chars_head in Hws.
  - intros (k' & ws & rest & Ht & Hws & Hsp).
    assert (Hraw : raw = ws ++ BOM :: rest).
    { subst raw. rewrite Ht, lstrip_chars_repeat.
      destruct ws as [|w ws]; [done |]. unfold lstrip_chars. simpl.
      simpl in Hsp. apply andb_prop in Hsp as [Hw _].
      destruct (N.eqb_spec w BOM) as [-> | _]; [done | done]. }
    rewrite Hresp. unfold strip. rewrite Hraw, (lstrip_app_space ws _ Hsp).
    unfold lstrip. simpl drop_while.
    destruct (rstrip_keeps_head BOM rest eq_refl) as [rest' ->].
    simpl. by rewrite ?N.eqb_refl, ?startswith_nil.
Qed.

Lemma splitlines_from_nonempty s : forall cur,
  cur <> [] \/ s <> [] -> splitlines_from cur s <> [].
Proof.
  induction s as [|c s IH]; intros cur H; simpl.
  - destruct cur; [by destruct H | done].
  - destruct (is_linebreak c); [done |]. apply IH. by left.
Qed.

(** X7. The metadata of a record of [iterate_snippets] has exactly the
    keys ["source_path"], ["category"], ["filename"], ["line_count"] and
    ["record_type"]; the record type is ["snippet"] and the line count is
    at least one. *)
Theorem snippet_metadata (files : list SourceFile) r :
  r ∈ iterate_snippets files ->
  dom (metadata r)
  = list_to_set [py "source_path"; py "category"; py "filename";
                 py "line_count"; py "record_type"]
  /\ metadata r !! py "record_type" = Some (MStr (py "snippet"))
  /\ exists n, metadata r !! py "line_count" = Some (MInt n) /\ (1 <= n)%Z.
Proof.
  intros Hr. apply iterate_snippets_elem in Hr as (f & _ & Hf).
  apply snippet_of_file_some in Hf as (_ & Hne & _ & _ & ->).
  split; [| split].
  - rewrite !dom_insert_L, dom_empty_L. set_solver.
  - apply lookup_insert_eq.
  - eexists. split.
    + rewrite lookup_insert_ne by done. apply lookup_insert_eq.
    + unfold splitlines.
      pose proof (splitlines_from_nonempty
                    (strip (lstrip_chars [BOM] (text f))) [] (or_intror Hne)) as H.
      destruct (splitlines_from [] _); [done |]. simpl. lia.
Qed.

End Snippets.

Lemma response_starts_with_bom_iff_witness :
  exists r, snippet_of_file bom_space_bom_file = Some r
  /\ (startswith (response r) [BOM] = true
      <-> exists k ws rest,
            text bom_space_bom_file = repeat BOM k ++ ws ++ BOM :: rest
            /\ ws <> [] /\ forallb isspace ws = true).
Proof.
  eexists. split; [vm_compute; reflexivity |].
  apply (response_starts_with_bom_iff bom_space_bom_file). vm_compute. reflexivity.
Defined.

Lemma snippet_response_shape_witness :
  exists r, r ∈ iterate_snippets [blank_file; gui_file; directory_entry]
  /\ (exists body x, response r = body ++ [x; LF] /\ isspace x = false)
  /\ (forall y rest, response r = y :: rest -> isspace y = false).
Proof.
  eexists. split; [vm_compute; left |].
  apply (snippet_response_shape [blank_file; gui_file; directory_entry]).
  vm_compute. left.
Defined.

Lemma snippet_metadata_witness :
  exists r, r ∈ iterate_snippets [blank_file; gui_file; directory_entry]
  /\ dom (metadata r)
     = list_to_set [py "source_path"; py "category"; py "filename";
                    py "line_count"; py "record_type"]
  /\ metadata r !! py "record_type" = Some (MStr (py "snippet"))
  /\ exists n, metadata r !! py "line_count" = Some (MInt n) /\ (1 <= n)%Z.
Proof.
  eexists. split; [vm_compute; left |].
  apply (snippet_metadata [blank_file; gui_file; directory_entry]).
  vm_compute. left.
Defined.

(* ===================================================================== *)
(** * The line count *)
(* ===================================================================== *)

Section Lines.

Implicit Types (s cur : str).

Lemma linebreak_isspace c : is_linebreak c = true -> isspace c = true.
Proof.
  unfold is_linebreak. intros H.
  repeat (apply orb_prop in H as [H | H]);
    apply N.eqb_eq in H as ->; reflexivity.
Qed.

(** A line feed behind a last line that is not empty adds no line. *)
Lemma splitlines_from_line_feed n : forall s cur,
  (length s <= n)%nat ->
  (cur <> [] \/ s <> []) ->
  (forall l x, s = l ++ [x] -> is_linebreak x = false) ->
  splitlines_from cur (s ++ [LF]) = splitlines_from cur s.
Proof.
  induction n as [|n IH]; intros s cur Hlen Hne Hlast.
  - destruct s; [| simpl in Hlen; lia]. simpl.
    destruct cur; [by destruct Hne |]. done.
  - destruct s as [|c rest].
    { simpl. destruct cur; [by destruct Hne |]. done. }
    assert (Hrest : forall l x, rest = l ++ [x] -> is_linebreak x = false).
    { intros l x ->. by apply (Hlast (c :: l) x). }
    simpl in Hlen. simpl app. cbn [splitlines_from].
    destruct (is_linebreak c) eqn:Hc.
    + destruct rest as [|c' rest0].
      { by rewrite (Hlast [] c eq_refl) in Hc. }
      simpl app. f_equal.
      destruct ((c =? CR)%N && (c' =? LF)%N) eqn:Hcr.
      * destruct rest0 as [|c'' rest1].
        { apply andb_prop in Hcr as [_ Hlf]. apply N.eqb_eq in Hlf as ->.
          by pose proof (Hlast [c] LF eq_refl). }
        apply IH; [simpl in *; lia | by right |].
        intros l x Hx. apply (Hrest (c' :: l) x). by rewrite Hx.
      * change (c' :: rest0 ++ [LF]) with ((c' :: rest0) ++ [LF]).
        apply IH; [simpl in *; lia | by right | done].
    + apply IH; [lia | by left | done].
Qed.

(** X8. The line count in the metadata of a record of
    [iterate_snippets] is the number of lines of its response: the line
    feed the collector appends ends the last line and adds none. *)
Theorem line_count_of_response (files : list SourceFile) (rec : SnippetRecord) :
  rec ∈ iterate_snippets files ->
  metadata rec !! py "line_count"
  = Some (MInt (Z.of_nat (length (splitlines (response rec))))).
Proof.
  intros Hr. apply iterate_snippets_elem in Hr as (f & _ & Hf).
  apply snippet_of_file_some in Hf as (_ & Hne & _ & -> & ->).
  rewrite lookup_insert_ne by done. rewrite lookup_insert_eq.
  unfold splitlines.
  rewrite (splitlines_from_line_feed _ _ [] (Nat.le_refl _)); [done | by right |].
  intros l x Hx. destruct (strip_stripped_of (lstrip_chars [BOM] (text f)))
    as (_ & _ & Hl).
  destruct (is_linebreak x) eqn:Hb; [| done].
  apply linebreak_isspace in Hb. by rewrite (Hl x l Hx) in Hb.
Qed.

End Lines.

Lemma line_count_of_response_witness :
  exists rec,
    rec ∈ iterate_snippets [bom_file]
    /\ metadata rec !! py "line_count" = Some (MInt 2)
    /\ metadata rec !! py "line_count"
       = Some (MInt (Z.of_nat (length (splitlines (response rec))))).
Proof.
  eexists. split; [vm_compute; left |]. split; [vm_compute; reflexivity |].
  apply (line_count_of_response [bom_file]). vm_compute. left.
Defined.

(* ===================================================================== *)
(** * File names and prompts *)
(* ===================================================================== *)

Section Stems.

Implicit Types (s l r : str) (f : SourceFile).

Lemma rfind_from_absent c s : forall i, c ∉ s -> rfind_from i c s = None.
Proof.
  induction s as [|d s IH]; intros i H; simpl; [done |].
  apply not_elem_of_cons in H as [Hne Hs]. rewrite (IH _ Hs).
  destruct (N.eqb_spec d c); [congruence | done].
Qed.

Lemma rfind_from_last c l r : forall i,
  c ∉ r -> rfind_from i c (l ++ c :: r) = Some (i + length l)%nat.
Proof.
  induction l as [|d l IH]; intros i Hr; simpl.
  - rewrite (rfind_from_absent c r _ Hr), N.eqb_refl. f_equal. lia.
  - rewrite (IH _ Hr). f_equal. lia.
Qed.

Lemma file_stem_ahk f base :
  file_name f = base ++ py ".ahk" -> base <> [] -> file_stem f = base.
Proof.
  intros Hn Hb. unfold file_stem. rewrite Hn. unfold rfind.
  change (py ".ahk") with (46%N :: py "ahk").
  rewrite rfind_from_last.
  - rewrite Nat.add_0_l.
    assert (Hc : ((0 <? length base)
                  && (length base <? length (base ++ 46%N :: py "ahk") - 1))%nat = true).
    { rewrite length_app. change (length (46%N :: py "ahk")) with 4%nat.
      destruct base; [done |]. simpl length.
      apply andb_true_intro. split; apply Nat.ltb_lt; lia. }
    rewrite Hc. apply take_app_length.
  - intros H. apply list_elem_of_In in H. simpl in H.
    destruct H as [H | [H | [H | H]]]; done.
Qed.

(** X9. The prompt of the record of a file: when the name of the file
    ends in [.ahk] behind at least one character, as the pattern of
    [rglob] has it, the prompt is built from the name without that
    suffix, the category and the relative path of that same file, the
    path the record carries under ["source_path"]. *)
Theorem snippet_prompt_of_ahk_file (f : SourceFile) (rec : SnippetRecord) base :
  snippet_of_file f = Some rec ->
  file_name f = base ++ py ".ahk" ->
  base <> [] ->
  prompt rec = build_prompt (file_category f) base (as_posix f)
  /\ metadata rec !! py "source_path" = Some (MStr (as_posix f)).
Proof.
  intros Hsome Hn Hb. split; [| by apply source_path_of_snippet].
  apply snippet_of_file_some in Hsome as (_ & _ & -> & _).
  by rewrite (file_stem_ahk f base Hn Hb).
Qed.

End Stems.

Lemma snippet_prompt_of_ahk_file_witness :
  exists rec,
    iterate_snippets [blank_file; gui_file] = [rec]
    /\ prompt rec
       = build_prompt (file_category gui_file) (py "Button_Click") (as_posix gui_file)
    /\ metadata rec !! py "source_path" = Some (MStr (as_posix gui_file)).
Proof.
  eexists. split; [vm_compute; reflexivity |].
  apply (snippet_prompt_of_ahk_file gui_file _ (py "Button_Click")).
  - vm_compute. reflexivity.
  - reflexivity.
  - discriminate.
Defined.

(* ===================================================================== *)
(** * Deduplication: errors, order and composition *)
(* ===================================================================== *)

Section DedupeOrder.

Implicit Types (rs unique out kept : list SnippetRecord) (seen : gset str).

Lemma utf8_char_some c :
  is_Some (utf8_char c) <-> ((c < 0xD800 \/ 0xDFFF < c) /\ c < 0x110000)%N.
Proof.
  unfold utf8_char.
  destruct (N.ltb_spec c 0x80); [split; [intros _; lia | eauto] |].
  destruct (N.ltb_spec c 0x800); [split; [intros _; lia | eauto] |].
  destruct (N.leb_spec 0xD800 c), (N.leb_spec c 0xDFFF); simpl.
  - split; [by intros [? ?] | intros ?; lia].
  - destruct (N.ltb_spec c 0x10000); [split; [intros _; lia | eauto] |].
    destruct (N.ltb_spec c 0x110000); [split; [intros _; lia | eauto] |].
    split; [by intros [? ?] | intros ?; lia].
  - destruct (N.ltb_spec c 0x10000); [split; [intros _; lia | eauto] |]. lia.
  - lia.
Qed.

Lemma utf8_encode_some s : is_Some (utf8_encode s) <-> encodable s.
Proof.
  unfold encodable. induction s as [|c s IH]; simpl.
  - split; [constructor | eauto].
  - rewrite Forall_cons, <- IH, <- utf8_char_some.
    destruct (utf8_char c), (utf8_encode s); split;
      try (intros [? ?]; done); try (intros [[? ?] [? ?]]; done); eauto.
Qed.

Lemma sha256_hex_cases s :
  (exists d, sha256_hex s = Ok d /\ encodable s)
  \/ (sha256_hex s = Raise UnicodeEncodeError /\ ~ encodable s).
Proof.
  unfold sha256_hex. pose proof (utf8_encode_some s) as H.
  destruct (utf8_encode s) as [bs|].
  - left. eexists. split; [done |]. apply H. eauto.
  - right. split; [done |]. intros He. apply H in He as [? ?]. done.
Qed.

Lemma dedupe_loop_cases rs : forall unique seen,
  match dedupe_loop rs unique seen with
  | Ok out => Forall (fun r => encodable (response r)) rs
  | Raise e => e = UnicodeEncodeError
               /\ Exists (fun r => ~ encodable (response r)) rs
  end.
Proof.
  induction rs as [|r rs IH]; intros unique seen; simpl; [constructor |].
  destruct (sha256_hex_cases (response r)) as [(d & -> & He) | [-> Hne]].
  - destruct (decide (d ∈ seen)).
    + specialize (IH unique seen). destruct (dedupe_loop rs unique seen).
      * by constructor.
      * destruct IH. split; [done |]. by apply Exists_cons_tl.
    + match goal with |- match dedupe_loop rs ?u ?s with _ => _ end =>
        specialize (IH u s); destruct (dedupe_loop rs u s) end.
      * by constructor.
      * destruct IH. split; [done |]. by apply Exists_cons_tl.
  - split; [done |]. by apply Exists_cons_hd.
Qed.

(** X10. [dedupe] returns a list exactly when every response can be
    encoded as UTF-8, that is, holds no surrogate; otherwise it raises,
    and the only exception it raises is [UnicodeEncodeError]. *)
Theorem dedupe_raises_iff rs :
  ((exists out, dedupe rs = Ok out)
   <-> Forall (fun r => encodable (response r)) rs)
  /\ (forall e, dedupe rs = Raise e -> e = UnicodeEncodeError).
Proof.
  pose proof (dedupe_loop_cases rs [] ∅) as H. unfold dedupe.
  destruct (dedupe_loop rs [] ∅) as [out|e].
  - split; [| done]. split; [done | eauto].
  - destruct H as [-> Hex]. split; [| by intros e [= <-]].
    split; [by intros [? ?] |]. intros Hall. exfalso.
    apply Exists_exists in Hex as (r & Hr & Hne).
    rewrite Forall_forall in Hall. by apply Hne, Hall.
Qed.

Lemma dedupe_loop_sublist rs : forall unique seen out,
  dedupe_loop rs unique seen = Ok out ->
  exists kept,
    out = unique ++ kept
    /\ (fun o => (prompt o, response o)) <$> kept
       `sublist_of` (fun r => (prompt r, response r)) <$> rs.
Proof.
  induction rs as [|r rs IH]; intros unique seen out; simpl.
  - intros [= <-]. exists []. by rewrite app_nil_r.
  - destruct (sha256_hex (response r)) as [d|e]; [| done].
    destruct (decide (d ∈ seen)).
    + intros H. apply IH in H as (kept & -> & Hsub). exists kept.
      split; [done |]. by apply sublist_cons.
    + intros H. apply IH in H as (kept & -> & Hsub).
      eexists (_ :: kept). split; [by rewrite <- app_assoc |].
      rewrite fmap_cons. simpl. by apply sublist_skip.
Qed.

(** X11. [dedupe] only drops records: the prompts and responses of its
    output are a subsequence of those of the input, in the same order. *)
Theorem dedupe_keeps_order rs out :
  dedupe rs = Ok out ->
  (fun o => (prompt o, response o)) <$> out
  `sublist_of` (fun r => (prompt r, response r)) <$> rs.
Proof.
  intros H. apply dedupe_loop_sublist in H as (kept & -> & Hsub). done.
Qed.

Lemma dedupe_loop_covers rs : forall unique seen out,
  dedupe_loop rs unique seen = Ok out ->
  (forall d, d ∈ seen -> exists o, o ∈ unique /\ stored_hash o = Some (MStr d)) ->
  forall r, r ∈ rs ->
    exists o d, o ∈ out /\ sha256_hex (response r) = Ok d
                /\ stored_hash o = Some (MStr d).
Proof.
  induction rs as [|r0 rs IH]; intros unique seen out Hrun Hseen r Hr;
    [inversion Hr |].
  simpl in Hrun.
  destruct (sha256_hex (response r0)) as [d|e] eqn:Hd; [| done].
  destruct (decide (d ∈ seen)) as [Hin | Hnin].
  - apply elem_of_cons in Hr as [-> | Hr]; [| by apply (IH _ _ _ Hrun Hseen)].
    destruct (Hseen d Hin) as (o & Ho & Hs).
    apply dedupe_loop_spec in Hrun as (kept & -> & _).
    exists o, d. split; [| done]. apply elem_of_app. by left.
  - set (enriched := {| prompt := prompt r0; response := response r0;
                        metadata := <[py "sha256" := MStr d]> (metadata r0) |}) in *.
    assert (Hseen' : forall d', d' ∈ {[d]} ∪ seen ->
              exists o, o ∈ unique ++ [enriched] /\ stored_hash o = Some (MStr d')).
    { intros d' Hd'. apply elem_of_union in Hd' as [Hd' | Hd'].
      - apply elem_of_singleton in Hd' as ->. exists enriched.
        split; [apply elem_of_app; right; by left |].
        unfold stored_hash. simpl. apply lookup_insert_eq.
      - destruct (Hseen d' Hd') as (o & Ho & Hs). exists o.
        split; [apply elem_of_app; by left | done]. }
    apply elem_of_cons in Hr as [-> | Hr]; [| by apply (IH _ _ _ Hrun Hseen')].
    apply dedupe_loop_spec in Hrun as (kept & -> & _).
    exists enriched, d. split; [| split; [done |]].
    + apply elem_of_app. left. apply elem_of_app. right. by left.
    + unfold stored_hash. simpl. apply lookup_insert_eq.
Qed.

(** X12. [dedupe] loses no content: for every input record the output
    has a record that stores the digest of its response. *)
Theorem dedupe_loses_no_hash rs out :
  dedupe rs = Ok out ->
  forall r, r ∈ rs ->
    exists o d, o ∈ out /\ sha256_hex (response r) = Ok d
                /\ stored_hash o = Some (MStr d).
Proof.
  intros H. apply (dedupe_loop_covers rs [] ∅ out H).
  intros d Hd. set_solver.
Qed.




End DedupeOrder.

Lemma dedupe_raises_on_surrogate : dedupe surrogate_record = Raise UnicodeEncodeError.
Proof. vm_compute. reflexivity. Qed.

Lemma dedupe_keeps_order_witness :
  exists out,
    dedupe three_records = Ok out
    /\ (fun o => (prompt o, response o)) <$> out
       `sublist_of` (fun r => (prompt r, response r)) <$> three_records.
Proof.
  eexists. split; [vm_compute; reflexivity |].
  apply (dedupe_keeps_order three_records). vm_compute. reflexivity.
Defined.

Lemma dedupe_loses_no_hash_witness :
  exists out,
    dedupe three_records = Ok out
    /\ forall r, r ∈ three_records ->
         exists o d, o ∈ out /\ sha256_hex (response r) = Ok d
                     /\ stored_hash o = Some (MStr d).
Proof.
  eexists. split; [vm_compute; reflexivity |].
  apply (dedupe_loses_no_hash three_records). vm_compute. reflexivity.
Defined.


(* ===================================================================== *)
(** * The stored digest *)
(* ===================================================================== *)

Section Digests.

Local Open Scope N_scope.

Lemma round_length st kw : length st = 8%nat -> length (Sha256.round st kw) = 8%nat.
Proof.
  intros H. do 9 (destruct st as [|? st]; try done).
Qed.

Lemma fold_round_length kws : forall st,
  length st = 8%nat -> length (fold_left Sha256.round kws st) = 8%nat.
Proof.
  induction kws as [|kw kws IH]; intros st H; simpl; [done |].
  by apply IH, round_length.
Qed.

Lemma compress_length st block :
  length st = 8%nat -> length (Sha256.compress st block) = 8%nat.
Proof.
  intros H. unfold Sha256.compress.
  rewrite length_map, length_combine, fold_round_length, H; done.
Qed.

Lemma blocks_length n : forall bs st,
  length st = 8%nat -> length (Sha256.blocks n bs st) = 8%nat.
Proof.
  induction n as [|n IH]; intros bs st H; simpl; [done |].
  by apply IH, compress_length.
Qed.

Lemma be_bytes_bytes n x : Forall (fun b => b < 256) (Sha256.be_bytes n x).
Proof.
  induction n as [|n IH]; simpl; constructor; [| done].
  change 255 with (N.ones 8). rewrite N.land_ones.
  apply N.mod_lt. done.
Qed.

Lemma be_bytes_length n x : length (Sha256.be_bytes n x) = n.
Proof. induction n as [|n IH]; simpl; congruence. Qed.

Lemma flat_map_length_const {A B} (f : A -> list B) k l :
  (forall a, length (f a) = k) -> length (flat_map f l) = (k * length l)%nat.
Proof.
  intros Hf. induction l as [|a l IH]; simpl; [lia |].
  rewrite length_app, Hf, IH. lia.
Qed.

Lemma digest_shape msg :
  length (Sha256.digest msg) = 32%nat
  /\ Forall (fun b => b < 256) (Sha256.digest msg).
Proof.
  unfold Sha256.digest. split.
  - rewrite (flat_map_length_const _ 4); [| intros; apply be_bytes_length].
    rewrite blocks_length; done.
  - apply Forall_flat_map, Forall_forall. intros w _. apply be_bytes_bytes.
Qed.

Lemma hex_digit_range d :
  d < 16 ->
  48 <= Sha256.hex_digit d <= 57 \/ 97 <= Sha256.hex_digit d <= 102.
Proof.
  intros H. unfold Sha256.hex_digit. destruct (N.ltb_spec d 10); lia.
Qed.

Lemma hexdigest_shape msg :
  length (Sha256.hexdigest msg) = 64%nat
  /\ Forall (fun c => 48 <= c <= 57 \/ 97 <= c <= 102) (Sha256.hexdigest msg).
Proof.
  destruct (digest_shape msg) as [Hlen Hb]. unfold Sha256.hexdigest. split.
  - rewrite (flat_map_length_const _ 2); [| done]. by rewrite Hlen.
  - apply Forall_flat_map. eapply Forall_impl; [exact Hb |].
    intros b Hlt. simpl in Hlt.
    apply Forall_cons. split; [| apply Forall_cons; split; [| constructor]];
      apply hex_digit_range.
    + rewrite N.shiftr_div_pow2. change (2 ^ 4) with 16.
      apply N.Div0.div_lt_upper_bound. lia.
    + change 15 with (N.ones 4). rewrite N.land_ones. by apply N.mod_lt.
Qed.

(** X14. The value [dedupe] stores under ["sha256"] is a string of 64
    characters, each a digit or a letter from [a] to [f]. *)
Theorem dedupe_hash_is_hex (rs out : list SnippetRecord) :
  dedupe rs = Ok out ->
  forall o, o ∈ out ->
    exists d, stored_hash o = Some (MStr d)
              /\ length d = 64%nat
              /\ Forall (fun c => 48 <= c <= 57 \/ 97 <= c <= 102) d.
Proof.
  intros H o Ho. apply dedupe_spec in H as [Hk _].
  apply Hk, kept_from_stored_hash in Ho as (d & Hd & Hs & _).
  exists d. split; [done |]. unfold sha256_hex in Hd.
  destruct (utf8_encode (response o)) as [bs|]; [| done].
  injection Hd as <-. apply hexdigest_shape.
Qed.

End Digests.

(** The digests [hashlib] gives for four strings: that of
    [test_adds_sha256_to_metadata], the empty string, a string of two
    blocks, and one with characters of two, three and four bytes. *)
Example sha256_hex_known_answers :
  sha256_hex (py "response")
  = Ok (py "a9f4b3d22a523fdada41c85c175425bcd15b32b4cd0f54d9433accd52d7195a1")
  /\ sha256_hex []
     = Ok (py "e3b0c44298fc1c149afbf4c8996fb92427ae41e4649b934ca495991b7852b855")
  /\ sha256_hex (repeat 97%N 100)
     = Ok (py "2816597888e4a0d3a36b82b83316ab32680eb8f00f8cd3b904d681246d285a0e")
  /\ sha256_hex [233; 8364; 128512]%N
     = Ok (py "df9226927fd572c1ee66eec85de1bb139497614899f36e4e90474cb71f6ef9d0").
Proof. split; [| split; [| split]]; vm_compute; reflexivity. Qed.

Lemma dedupe_hash_is_hex_witness :
  exists out,
    dedupe with_metadata = Ok out
    /\ forall o, o ∈ out ->
         exists d, stored_hash o = Some (MStr d)
                   /\ length d = 64%nat
                   /\ Forall (fun c => 48 <= c <= 57 \/ 97 <= c <= 102)%N d.
Proof.
  eexists. split; [vm_compute; reflexivity |].
  apply (dedupe_hash_is_hex with_metadata). vm_compute. reflexivity.
Defined.

(* ===================================================================== *)
(** * The sizes of the splits *)
(* ===================================================================== *)

Section SplitSizes.

Context {R : Random}.

Implicit Types (h : store) (x : loc) (l rs train val test : list SnippetRecord).
Implicit Types (f : SnippetRecord -> SnippetRecord).

Lemma swap_items_fmap f i j l :
  swap_items i j (f <$> l) = f <$> swap_items i j l.
Proof.
  unfold swap_items. rewrite !list_lookup_fmap.
  destruct (l !! j), (l !! i); simpl; try done.
  by rewrite !list_fmap_insert.
Qed.

Lemma shuffle_items_fmap f i : forall rng l,
  shuffle_items i rng (f <$> l)
  = (f <$> (shuffle_items i rng l).1, (shuffle_items i rng l).2).
Proof.
  induction i as [|i IH]; intros rng l; [done |].
  cbn [shuffle_items]. destruct (randbelow rng (Z.of_nat (S i) + 1)) as [j rng'].
  by rewrite swap_items_fmap, IH.
Qed.

Lemma shuffled_fmap f seed l : shuffled seed (f <$> l) = f <$> shuffled seed l.
Proof. unfold shuffled. by rewrite length_fmap, shuffle_items_fmap. Qed.

Lemma slice_list_fmap f l lo hi :
  slice_list (f <$> l) lo hi = f <$> slice_list l lo hi.
Proof. unfold slice_list. by rewrite length_fmap, fmap_take, fmap_drop. Qed.

Lemma split_items_fmap f rs v t seed :
  split_items (f <$> rs) v t seed
  = match split_items rs v t seed with
    | Ok (train, val, test) => Ok (f <$> train, f <$> val, f <$> test)
    | Raise e => Raise e
    end.
Proof.
  unfold split_items.
  destruct (negb (le zero v && lt v one)); [done |].
  destruct (negb (le zero t && lt t one)); [done |].
  destruct (ge (add v t) one); [done |].
  cbv zeta. rewrite shuffled_fmap, length_fmap.
  destruct (int_times _ v); [| done]. destruct (int_times _ t); [| done].
  by rewrite !slice_list_fmap.
Qed.

(** X15. The split a record lands in depends on its position in the
    input, on the length of the input and on the seed, not on the
    record: when the same change is made to every record of the input,
    the three lists are the former ones with that change made to their
    records, and the same exception is raised if one was. *)
Theorem split_by_position f h x h' x' rs v t seed :
  h !! x = Some rs ->
  h' !! x' = Some (f <$> rs) ->
  (split_records x' v t seed h').1
  = match (split_records x v t seed h).1 with
    | Ok (train, val, test) => Ok (f <$> train, f <$> val, f <$> test)
    | Raise e => Raise e
    end.
Proof.
  intros Hx Hx'.
  rewrite (split_records_run h' x' _ v t seed Hx'),
          (split_records_run h x rs v t seed Hx).
  apply split_items_fmap.
Qed.

(** The lengths of the three slices when the counts fit. *)
Lemma slices_lengths {A} (l : list A) (a b : Z) :
  (0 <= a)%Z -> (0 <= b)%Z -> (a + b <= Z.of_nat (length l))%Z ->
  let tc := (Z.of_nat (length l) - a - b)%Z in
  Z.of_nat (length (slice_list l None (Some tc))) = tc
  /\ Z.of_nat (length (slice_list l (Some tc) (Some (tc + a)%Z))) = a
  /\ Z.of_nat (length (slice_list l (Some (tc + a)%Z) None)) = b.
Proof.
  intros Ha Hb Hab tc. rewrite !slice_list_length. subst tc. unfold clamp.
  repeat match goal with |- context [(?u <? 0)%Z] =>
    destruct (Z.ltb_spec u 0) end; lia.
Qed.

(** X16. For a list of at most [2 ^ 53] records and valid ratios,
    [val] has [int(total * val_ratio)] records, [test] has
    [int(total * test_ratio)] and [train] the rest of the input; the two
    counts are at most the real products, up to a rounding error of
    [2 ^ -53] of the product. *)
Theorem split_sizes h x rs v t seed :
  h !! x = Some rs ->
  is_float v -> is_float t ->
  (Z.of_nat (length rs) <= 2 ^ 53)%Z ->
  le zero v = true -> lt v one = true ->
  le zero t = true -> lt t one = true ->
  lt (add v t) one = true ->
  exists train val test val_count test_count,
    (split_records x v t seed h).1 = Ok (train, val, test)
    /\ int_times (Z.of_nat (length rs)) v = Ok val_count
    /\ int_times (Z.of_nat (length rs)) t = Ok test_count
    /\ Z.of_nat (length val) = val_count
    /\ Z.of_nat (length test) = test_count
    /\ Z.of_nat (length train) = (Z.of_nat (length rs) - val_count - test_count)%Z
    /\ (IZR val_count <= IZR (Z.of_nat (length rs)) * value v * (1 + bpow (-53)))%R
    /\ (IZR test_count <= IZR (Z.of_nat (length rs)) * value t * (1 + bpow (-53)))%R.
Proof.
  intros Hx Hfv Hft Hlen Hv0 Hv1 Ht0 Ht1 Hsum.
  assert (Hge : ge (add v t) one = false) by by apply lt_one_not_ge.
  assert (Hacc : ratios_rejected v t = false).
  { unfold ratios_rejected. by rewrite Hv0, Hv1, Ht0, Ht1, Hge. }
  rewrite (split_records_run h x rs v t seed Hx). cbn [fst].
  rewrite split_items_accepted by done. cbv zeta. rewrite shuffled_length.
  set (n := Z.of_nat (length rs)) in *.
  assert (Hn : (0 <= n <= 2 ^ 53)%Z) by (subst n; lia).
  destruct (counts_fit n v t Hn Hfv Hft Hv0 Hv1 Ht0 Ht1 Hge)
    as (a & b & Ha & Hb & Ha0 & Hb0 & Hab).
  destruct (int_times_bound n v Hn (ratio_cases v Hfv Hv0 Hv1))
    as (a' & Ha' & _ & Hra).
  destruct (int_times_bound n t Hn (ratio_cases t Hft Ht0 Ht1))
    as (b' & Hb' & _ & Hrb).
  rewrite Ha in Ha'. injection Ha' as <-. rewrite Hb in Hb'. injection Hb' as <-.
  rewrite Ha, Hb.
  assert (Hab' : (a + b <= Z.of_nat (length (shuffled seed rs)))%Z)
    by (rewrite shuffled_length; subst n; lia).
  destruct (slices_lengths (shuffled seed rs) a b Ha0 Hb0 Hab') as (Htr & Hva & Hte).
  cbv zeta in Htr, Hva, Hte. rewrite shuffled_length in Htr, Hva, Hte.
  fold n in Htr, Hva, Hte.
  eexists _, _, _, a, b. split; [reflexivity |]. repeat split; done.
Qed.

Lemma int_times_zero n s :
  (0 <= n < 2 ^ 63)%Z -> int_times n (S754_zero s) = Ok 0%Z.
Proof.
  intros Hn. unfold int_times, int_mul_float.
  destruct (Z.eq_dec n 0%Z) as [-> | Hne]; [by destruct s |].
  destruct (float_of_int_finite n) as (m & e & -> & _); [lia |].
  by destruct s.
Qed.

(** X17. With both ratios zero (of either sign) [split_records] puts
    every record into [train]: [val] and [test] are empty and [train] is
    a permutation of the input. *)
Theorem split_zero_ratios h x rs seed (s s' : bool) :
  h !! x = Some rs ->
  (Z.of_nat (length rs) < 2 ^ 63)%Z ->
  exists train,
    (split_records x (S754_zero s) (S754_zero s') seed h).1 = Ok (train, [], [])
    /\ train ≡ₚ rs.
Proof.
  intros Hx Hlen. rewrite (split_records_run h x rs _ _ seed Hx). cbn [fst].
  assert (Hacc : ratios_rejected (S754_zero s) (S754_zero s') = false)
    by by destruct s, s'.
  rewrite split_items_accepted by done. cbv zeta.
  rewrite !int_times_zero by (rewrite shuffled_length; lia).
  exists (shuffled seed rs).
  pose proof (slices_partition (shuffled seed rs) 0%Z 0%Z) as Hp.
  pose proof (slices_lengths (shuffled seed rs) 0%Z 0%Z) as Hl.
  cbv zeta in Hp, Hl. rewrite !Z.sub_0_r, !Z.add_0_r in *.
  destruct Hl as (_ & Hva & Hte); [lia .. |].
  destruct (slice_list (shuffled seed rs) (Some _) (Some _)); [| simpl in Hva; lia].
  destruct (slice_list (shuffled seed rs) (Some _) None); [| simpl in Hte; lia].
  rewrite !app_nil_r in Hp. rewrite Hp by lia.
  split; [done |]. apply shuffled_perm.
Qed.

End SplitSizes.

Lemma split_by_position_witness :
  (split_records (R := lcg) 0%nat point_one point_one 42
     [tag_record <$> three_records]).1
  = match (split_records (R := lcg) 0%nat point_one point_one 42 [three_records]).1 with
    | Ok (train, val, test) =>
        Ok (tag_record <$> train, tag_record <$> val, tag_record <$> test)
    | Raise e => Raise e
    end.
Proof.
  apply (@split_by_position lcg tag_record [three_records] 0%nat
           [tag_record <$> three_records] 0%nat three_records);
    reflexivity.
Defined.

Lemma split_sizes_witness :
  exists train val test,
    (split_records (R := lcg) 0%nat point_one_five point_one_five 42 [hundred_records]).1
    = Ok (train, val, test)
    /\ length val = 15%nat /\ length test = 15%nat /\ length train = 70%nat.
Proof.
  destruct (@split_sizes lcg [hundred_records] 0%nat hundred_records
              point_one_five point_one_five 42)
    as (train & val & test & a & b & Hs & Ha & Hb & Hva & Hte & Htr & _);
    try (vm_compute; reflexivity).
  { vm_compute. discriminate. }
  exists train, val, test. split; [exact Hs |].
  assert (Ha' : int_times (Z.of_nat (length hundred_records)) point_one_five = Ok 15%Z)
    by (vm_compute; reflexivity).
  rewrite Ha' in Ha, Hb. injection Ha as <-. injection Hb as <-.
  change (Z.of_nat (length hundred_records)) with 100%Z in Htr. lia.
Defined.

Lemma split_zero_ratios_witness :
  exists train,
    (split_records (R := lcg) 0%nat zero zero 42 [hundred_records]).1
    = Ok (train, [], [])
    /\ train ≡ₚ hundred_records.
Proof.
  apply (@split_zero_ratios lcg [hundred_records] 0%nat hundred_records 42 false false).
  - reflexivity.
  - vm_compute. reflexivity.
Defined.

(* ===================================================================== *)
(** * Harmony records of the pipeline *)
(* ===================================================================== *)

Section HarmonyStrip.

Implicit Types (s l r : str).

Lemma join_cons (sep p q : str) ps :
  join sep (p :: q :: ps) = p ++ sep ++ join sep (q :: ps).
Proof. reflexivity. Qed.

Lemma join_head (sep : str) x p ps :
  exists rest, join sep ((x :: p) :: ps) = x :: rest.
Proof. destruct ps; simpl; eauto. Qed.

Lemma join_last (sep : str) ps p x :
  exists l, join sep (ps ++ [p ++ [x]]) = l ++ [x].
Proof.
  induction ps as [|q ps [l IH]]; simpl app; [by exists p |].
  destruct (ps ++ [p ++ [x]]) as [|q' ps'] eqn:Hps.
  { by destruct ps. }
  rewrite join_cons, IH. exists (q ++ sep ++ l). by rewrite <- !app_assoc.
Qed.

(** A string between a first and a last character that are no white
    space is its own [strip]. *)
Lemma strip_between x s y :
  isspace x = false -> isspace y = false ->
  forall l rest, s = x :: rest -> s = l ++ [y] -> strip s = s.
Proof.
  intros Hx Hy l rest H1 H2. apply strip_fixed.
  - intros x' rest' H. rewrite H1 in H. by injection H as <- _.
  - intros y' l' H. rewrite H2 in H. apply app_inj_tail in H as [_ <-]. done.
Qed.

Lemma build_prompt_stripped category title source_path :
  strip (build_prompt category title source_path)
  = build_prompt category title source_path.
Proof.
  destruct (join_head [LF]
              89%N (py "ou are maintaining a knowledge base of AutoHotkey examples.")
              [py "Category: " ++ category; py "Example ID: " ++ title;
               py "Source Path: " ++ source_path;
               py "Return the exact AutoHotkey snippet associated with this reference."])
    as [rest Hrest].
  destruct (join_last [LF]
              [py "You are maintaining a knowledge base of AutoHotkey examples.";
               py "Category: " ++ category; py "Example ID: " ++ title;
               py "Source Path: " ++ source_path]
              (py "Return the exact AutoHotkey snippet associated with this reference")
              46%N)
    as [l Hl].
  by apply (strip_between 89%N _ 46%N eq_refl eq_refl l rest).
Qed.

Lemma drop_while_app (p : N -> bool) s r :
  forallb p s = false -> drop_while p (s ++ r) = drop_while p s ++ r.
Proof.
  induction s as [|c s IH]; simpl; [done |].
  destruct (p c); [apply IH | done].
Qed.

Lemma rstrip_app_space s r :
  forallb isspace r = true -> rstrip (s ++ r) = rstrip s.
Proof.
  intros Hr. unfold rstrip. rewrite rev_app_distr.
  rewrite <- forallb_rev in Hr. by rewrite (lstrip_app_space _ _ Hr).
Qed.

Lemma strip_app_space s r :
  forallb isspace r = true -> strip (s ++ r) = strip s.
Proof.
  intros Hr. unfold strip, lstrip.
  destruct (forallb isspace s) eqn:Hs.
  - rewrite !drop_while_all; [done | done |]. by rewrite forallb_app, Hs.
  - rewrite (drop_while_app _ _ _ Hs). by apply rstrip_app_space.
Qed.

Lemma strip_padded l s r :
  forallb isspace l = true -> forallb isspace r = true ->
  strip (l ++ s ++ r) = strip s.
Proof.
  intros Hl Hr. unfold strip at 1. rewrite (lstrip_app_space _ _ Hl).
  fold (strip (s ++ r)). by apply strip_app_space.
Qed.

(** X18. [to_harmony] on a record of [iterate_snippets]: the user
    message is the prompt as it is, and the assistant message is the
    response without the line feed the collector appended. *)
Theorem to_harmony_of_snippet (files : list SourceFile) (rec : SnippetRecord) :
  rec ∈ iterate_snippets files ->
  exists snippet,
    response rec = snippet ++ [LF]
    /\ to_harmony (prompt rec) (response rec)
       = VDict
           [(py "messages",
             VList
               [ message (py "system")
                   (py "Reasoning medium. You are a helpful assistant.");
                 message (py "user") (prompt rec);
                 message (py "assistant") snippet ])].
Proof.
  intros Hr. apply iterate_snippets_elem in Hr as (f & _ & Hf).
  apply snippet_of_file_some in Hf as (_ & _ & Hp & Hresp & _).
  exists (strip (lstrip_chars [BOM] (text f))). split; [done |].
  unfold to_harmony. rewrite Hp, build_prompt_stripped, Hresp.
  by rewrite (strip_app_space _ [LF] eq_refl), strip_idempotent.
Qed.

(** X19. [to_harmony] ignores white space around the prompt and around
    the response. *)
Theorem to_harmony_ignores_padding (l r l' r' prompt response : str) :
  forallb isspace l = true -> forallb isspace r = true ->
  forallb isspace l' = true -> forallb isspace r' = true ->
  to_harmony (l ++ prompt ++ r) (l' ++ response ++ r')
  = to_harmony prompt response.
Proof.
  intros Hl Hr Hl' Hr'. unfold to_harmony.
  by rewrite (strip_padded l prompt r Hl Hr), (strip_padded l' response r' Hl' Hr').
Qed.

End HarmonyStrip.

Lemma to_harmony_of_snippet_witness :
  exists rec,
    rec ∈ iterate_snippets [blank_file; gui_file; directory_entry]
    /\ exists snippet,
         response rec = snippet ++ [LF]
         /\ to_harmony (prompt rec) (response rec)
            = VDict
                [(py "messages",
                  VList
                    [ message (py "system")
                        (py "Reasoning medium. You are a helpful assistant.");
                      message (py "user") (prompt rec);
                      message (py "assistant") snippet ])].
Proof.
  eexists. split; [vm_compute; left |].
  apply (to_harmony_of_snippet [blank_file; gui_file; directory_entry]).
  vm_compute. left.
Defined.

Lemma to_harmony_ignores_padding_witness :
  to_harmony (py "  " ++ py "Write a script" ++ py "  " ++ [LF])
             ([LF] ++ py "  " ++ py "MsgBox('test')" ++ py "  " ++ [LF])
  = to_harmony (py "Write a script") (py "MsgBox('test')").
Proof.
  apply (to_harmony_ignores_padding (py "  ") (py "  " ++ [LF])
           ([LF] ++ py "  ") (py "  " ++ [LF])
           (py "Write a script") (py "MsgBox('test')")); reflexivity.
Defined.

(* ===================================================================== *)
(** * Reference entries *)
(* ===================================================================== *)

Section References.

Implicit Types (row : Row) (r : SnippetRecord) (parts : list str).

Lemma strip_ends_well s : strip s <> [] -> ends_well (strip s).
Proof.
  intros Hne. destruct (nonempty_last _ Hne) as (l & y & H).
  exists l, y. split; [done |].
  destruct (strip_stripped_of s) as (_ & _ & Hl). by apply (Hl y l).
Qed.

Lemma append_if_ends_well label s parts :
  Forall ends_well parts -> Forall ends_well (append_if label (strip s) parts).
Proof.
  intros H. unfold append_if.
  destruct (strip s) as [|c s'] eqn:Hs; [done |].
  apply Forall_app. split; [done |]. constructor; [| constructor].
  destruct (strip_ends_well s) as (l & y & Hl & Hy); [by rewrite Hs |].
  rewrite Hs in Hl. exists (label ++ l), y. split; [| done].
  by rewrite Hl, app_assoc.
Qed.

Lemma append_if_head label value p parts :
  exists parts', append_if label value (p :: parts) = p :: parts'.
Proof. unfold append_if. destruct value; simpl; eauto. Qed.

Lemma join_stripped x p parts :
  isspace x = false -> Forall ends_well ((x :: p) :: parts) ->
  strip (join [LF] ((x :: p) :: parts)) = join [LF] ((x :: p) :: parts).
Proof.
  intros Hx Hall.
  destruct (join_head [LF] x p parts) as [rest Hrest].
  destruct (nonempty_last ((x :: p) :: parts)) as (ps & q & Hq); [done |].
  assert (Hq' : ends_well q).
  { rewrite Forall_forall in Hall. apply Hall. rewrite Hq.
    apply elem_of_app. right. by left. }
  destruct Hq' as (l & y & -> & Hy).
  destruct (join_last [LF] ps l y) as [l' Hl']. rewrite <- Hq in Hl'.
  by apply (strip_between x _ y Hx Hy l' rest).
Qed.

Lemma get_or_default row key default :
  get_or row key default
  = match get_or row key [] with [] => default | c :: s => c :: s end.
Proof.
  unfold get_or. destruct (row !! key) as [[[|c s]|]|]; done.
Qed.

(** What the body of the loop yields. *)
Lemma reference_of_row_some source_csv row r :
  reference_of_row source_csv row = Some r ->
  let name := strip (get_or row (py "Name") []) in
  let description := strip (get_or row (py "Description") []) in
  let element_type :=
    match strip (get_or row (py "ElementType") (py "Unknown")) with
    | [] => py "Unknown"
    | c :: s => c :: s
    end in
  name <> [] /\ description <> []
  /\ (exists parts, response r = strip (join [LF] (description :: parts)) ++ [LF]
                    /\ Forall ends_well (description :: parts))
  /\ metadata r !! py "name" = Some (MStr name)
  /\ metadata r !! py "element_type" = Some (MStr element_type)
  /\ metadata r !! py "record_type" = Some (MStr (py "reference"))
  /\ metadata r !! py "source_csv" = Some (MStr source_csv).
Proof.
  unfold reference_of_row.
  destruct (strip (get_or row (py "Name") [])) as [|c n] eqn:Hn; [done |].
  destruct (strip (get_or row (py "Description") [])) as [|d ds] eqn:Hd; [done |].
  intros [= <-]. cbv zeta. split; [done |]. split; [done |]. split.
  - cbn [response].
    set (p0 := [d :: ds]).
    assert (H0 : Forall ends_well p0).
    { constructor; [| constructor]. rewrite <- Hd. apply strip_ends_well.
      by rewrite Hd. }
    set (p1 := append_if (py "Signature Type: ") _ p0).
    assert (H1 : Forall ends_well p1) by by apply append_if_ends_well.
    set (p2 := append_if (py "Return Type: ") _ p1).
    assert (H2 : Forall ends_well p2) by by apply append_if_ends_well.
    set (p3 := append_if (py "Symbol: ") _ p2).
    assert (H3 : Forall ends_well p3) by by apply append_if_ends_well.
    set (p4 := append_if (py "Parameters: ") _ p3).
    assert (H4 : Forall ends_well p4) by by apply append_if_ends_well.
    assert (Hhead : exists parts, p4 = (d :: ds) :: parts).
    { subst p4 p3 p2 p1 p0.
      destruct (append_if_head (py "Signature Type: ")
                  (strip (get_or row (py "Type") [])) (d :: ds) []) as [q1 ->].
      destruct (append_if_head (py "Return Type: ")
                  (strip (get_or row (py "ReturnType") [])) (d :: ds) q1) as [q2 ->].
      destruct (append_if_head (py "Symbol: ")
                  (strip (get_or row (py "Symbol") [])) (d :: ds) q2) as [q3 ->].
      destruct (append_if_head (py "Parameters: ")
                  (strip (get_or row (py "Parameters") [])) (d :: ds) q3) as [q4 ->].
      by exists q4. }
    destruct Hhead as [parts Hparts]. exists parts. by rewrite <- Hparts.
  - cbn [metadata]. split; [| split; [| split]];
      rewrite ?lookup_insert_ne by done; apply lookup_insert_eq.
Qed.

Lemma reference_of_row_none source_csv row :
  reference_of_row source_csv row = None <-> has_reference row = false.
Proof.
  unfold reference_of_row, has_reference.
  rewrite andb_false_iff, !negb_false_iff, <- !strip_nil_iff.
  destruct (strip (get_or row (py "Name") [])) as [|c n];
    destruct (strip (get_or row (py "Description") [])) as [|d ds];
    split; try done; try (by left); try (by right).
  by intros [? | ?].
Qed.

Lemma reference_names (source_csv : str) (rows : list Row) :
  (fun r => metadata r !! py "name") <$> omap (reference_of_row source_csv) rows
  = (fun row => Some (MStr (strip (get_or row (py "Name") []))))
    <$> List.filter has_reference rows.
Proof.
  induction rows as [|row rows IH]; [done |].
  cbn [omap list_omap List.filter].
  destruct (reference_of_row source_csv row) as [r|] eqn:Hr.
  - assert (Hh : has_reference row = true).
    { destruct (has_reference row) eqn:Hh; [done |].
      apply (reference_of_row_none source_csv) in Hh. congruence. }
    apply reference_of_row_some in Hr as (_ & _ & _ & Hname & _).
    rewrite Hh, !fmap_cons, Hname. f_equal. exact IH.
  - apply reference_of_row_none in Hr. rewrite Hr. exact IH.
Qed.

(** X20. [iterate_reference_elements] raises [FileNotFoundError] when
    the file does not exist; an exception of [open] or of the reader on
    a file that exists (a directory, bytes that are no UTF-8, a field
    beyond the limit) passes through; and only when neither happens does
    it return: then it yields one record for each row whose name and
    description are not blank, in the order of the rows, with the
    stripped name under ["name"], and skips every other row (also one
    where a column is missing or [None]). *)
Theorem reference_rows_kept (csv_path : CsvFile) :
  (csv_exists csv_path = false ->
     iterate_reference_elements csv_path
     = inl (FileNotFoundError (py "Reference CSV not found: " ++ csv_str csv_path)))
  /\ (forall e, csv_exists csv_path = true -> csv_failure csv_path = Some e ->
        iterate_reference_elements csv_path = inl e)
  /\ (csv_exists csv_path = true -> csv_failure csv_path = None ->
        exists out,
          iterate_reference_elements csv_path = inr out
          /\ (fun r => metadata r !! py "name") <$> out
             = (fun row => Some (MStr (strip (get_or row (py "Name") []))))
               <$> List.filter has_reference (csv_rows csv_path))
  /\ (forall out, iterate_reference_elements csv_path = inr out ->
        csv_exists csv_path = true /\ csv_failure csv_path = None).
Proof.
  unfold iterate_reference_elements. split; [by intros -> |].
  split; [by intros e -> -> |]. split.
  - intros -> ->. eexists. split; [reflexivity |]. apply reference_names.
  - intros out. destruct (csv_exists csv_path); [| done].
    by destruct (csv_failure csv_path).
Qed.

Lemma iterate_reference_elements_elem csv_path out r :
  iterate_reference_elements csv_path = inr out ->
  r ∈ out ->
  exists row, row ∈ csv_rows csv_path
              /\ reference_of_row (csv_posix csv_path) row = Some r.
Proof.
  unfold iterate_reference_elements.
  destruct (csv_exists csv_path); [| done].
  destruct (csv_failure csv_path); [done |]. intros [= <-].
  apply list_elem_of_omap.
Qed.

(** X21. A reference record comes from a row of the file, and its
    response ends with one line feed behind a character that is no white
    space and begins with the stripped description of that row. *)
Theorem reference_response_shape csv_path out r :
  iterate_reference_elements csv_path = inr out ->
  r ∈ out ->
  exists row,
    row ∈ csv_rows csv_path
    /\ reference_of_row (csv_posix csv_path) row = Some r
    /\ (exists body x, response r = body ++ [x; LF] /\ isspace x = false)
    /\ strip (get_or row (py "Description") []) <> []
    /\ (exists rest,
          response r = strip (get_or row (py "Description") []) ++ rest).
Proof.
  intros Hout Hr.
  destruct (iterate_reference_elements_elem _ _ _ Hout Hr) as (row & Hrow & Hsome).
  exists row. split; [done |]. split; [done |].
  apply reference_of_row_some in Hsome
    as (_ & Hd & (parts & Hresp & Hall) & _).
  destruct (strip_stripped_of (get_or row (py "Description") [])) as (_ & Hh & _).
  destruct (strip (get_or row (py "Description") [])) as [|d ds] eqn:Hds; [done |].
  rewrite (join_stripped d ds parts (Hh d ds eq_refl) Hall) in Hresp.
  split; [| split; [done |]].
  - destruct (nonempty_last ((d :: ds) :: parts)) as (ps & q & Hq); [done |].
    assert (Hq' : ends_well q).
    { rewrite Forall_forall in Hall. apply Hall. rewrite Hq.
      apply elem_of_app. right. by left. }
    destruct Hq' as (l & y & -> & Hy).
    destruct (join_last [LF] ps l y) as [l' Hl']. rewrite <- Hq in Hl'.
    exists l', y. split; [| done]. by rewrite Hresp, Hl', <- app_assoc.
  - destruct parts as [|p parts].
    + exists [LF]. by rewrite Hresp.
    + exists ([LF] ++ join [LF] (p :: parts) ++ [LF]).
      by rewrite Hresp, join_cons, <- !app_assoc.
Qed.

(** X22. A reference record comes from a row of the file, and its
    element type is never empty and has no white space around it: it is
    ["Unknown"] when the column of that row is missing, [None], empty or
    blank, and the stripped column otherwise. *)
Theorem reference_element_type csv_path out r :
  iterate_reference_elements csv_path = inr out ->
  r ∈ out ->
  exists row element_type,
    row ∈ csv_rows csv_path
    /\ reference_of_row (csv_posix csv_path) row = Some r
    /\ metadata r !! py "element_type" = Some (MStr element_type)
    /\ element_type <> []
    /\ strip element_type = element_type
    /\ (forallb isspace (get_or row (py "ElementType") []) = true ->
        element_type = py "Unknown")
    /\ (forallb isspace (get_or row (py "ElementType") []) = false ->
        element_type = strip (get_or row (py "ElementType") [])).
Proof.
  intros Hout Hr.
  destruct (iterate_reference_elements_elem _ _ _ Hout Hr) as (row & Hrow & Hsome).
  pose proof Hsome as Hsome'.
  apply reference_of_row_some in Hsome as (_ & _ & _ & _ & Het & _).
  exists row. eexists. split; [done |]. split; [exact Hsome' |].
  split; [exact Het |].
  rewrite (get_or_default row (py "ElementType") (py "Unknown")).
  destruct (get_or row (py "ElementType") []) as [|c s] eqn:Hg.
  - change (strip (py "Unknown")) with (py "Unknown").
    split; [done |]. split; [done |]. split; [done |]. done.
  - destruct (strip (c :: s)) as [|c' s'] eqn:Hs.
    + split; [done |]. split; [done |]. split; [done |].
      intros Hb. apply strip_nil_iff in Hs. congruence.
    + split; [done |]. split; [by rewrite <- Hs, strip_idempotent |].
      split; [| done].
      intros Hb. apply strip_nil_iff in Hb. congruence.
Qed.

End References.

Lemma reference_rows_kept_witness :
  (exists out,
     iterate_reference_elements reference_csv = inr out
     /\ (fun r => metadata r !! py "name") <$> out = [Some (MStr (py "ValidEntry"))])
  /\ iterate_reference_elements undecodable_csv = inl UnicodeDecodeError.
Proof.
  split.
  - destruct (reference_rows_kept reference_csv) as (_ & _ & H & _).
    destruct (H eq_refl eq_refl) as (out & Hout & Hnames).
    exists out. split; [exact Hout |]. rewrite Hnames. vm_compute. reflexivity.
  - destruct (reference_rows_kept undecodable_csv) as (_ & H & _).
    exact (H UnicodeDecodeError eq_refl eq_refl).
Defined.

Lemma reference_response_shape_witness :
  exists out r,
    iterate_reference_elements reference_csv = inr out
    /\ r ∈ out
    /\ response r = py "Valid description" ++ [LF] ++ py "Parameters: param1" ++ [LF]
    /\ exists row,
         row ∈ csv_rows reference_csv
         /\ reference_of_row (csv_posix reference_csv) row = Some r
         /\ (exists body x, response r = body ++ [x; LF] /\ isspace x = false)
         /\ strip (get_or row (py "Description") []) <> []
         /\ (exists rest,
               response r = strip (get_or row (py "Description") []) ++ rest).
Proof.
  eexists _, _. split; [vm_compute; reflexivity |]. split; [left |].
  split; [reflexivity |].
  eapply (reference_response_shape reference_csv); [vm_compute; reflexivity | left].
Defined.

Lemma reference_element_type_witness :
  exists out r,
    iterate_reference_elements reference_csv = inr out
    /\ r ∈ out
    /\ exists row element_type,
         row ∈ csv_rows reference_csv
         /\ reference_of_row (csv_posix reference_csv) row = Some r
         /\ metadata r !! py "element_type" = Some (MStr element_type)
         /\ element_type <> []
         /\ strip element_type = element_type
         /\ (forallb isspace (get_or row (py "ElementType") []) = true ->
             element_type = py "Unknown")
         /\ (forallb isspace (get_or row (py "ElementType") []) = false ->
             element_type = strip (get_or row (py "ElementType") [])).
Proof.
  eexists _, _. split; [vm_compute; reflexivity |]. split; [left |].
  eapply (reference_element_type reference_csv); [vm_compute; reflexivity | left].
Defined.

(* ===================================================================== *)
(** * The pipeline of main *)
(* ===================================================================== *)

Section Pipeline.

Context {R : Random}.

Implicit Types (h : store) (x : loc) (rs unique out train val test : list SnippetRecord).

Lemma dedupe_responses_distinct rs out :
  dedupe rs = Ok out -> NoDup (response <$> out).
Proof.
  intros H. pose proof (dedupe_spec _ _ H) as [Hk Hnd].
  apply (NoDup_fmap_1 (fun s => match sha256_hex s with
                                 | Ok d => Some (MStr d)
                                 | Raise _ => None
                                 end)).
  rewrite <- list_fmap_compose.
  erewrite list_fmap_ext; [exact Hnd |].
  intros i o Hi. simpl. symmetry.
  apply (stored_hash_of_response rs out); [done |].
  by apply list_elem_of_lookup_2 in Hi.
Qed.

Lemma split_items_ok_inv rs v t seed res :
  split_items rs v t seed = Ok res -> ratios_rejected v t = false.
Proof.
  unfold split_items, ratios_rejected.
  destruct (negb (le zero v && lt v one)); [done |].
  destruct (negb (le zero t && lt t one)); [done |].
  destruct (ge (add v t) one); done.
Qed.

(** X23. [dedupe] and then [split_records], as [main] runs them on at
    most [2 ^ 53] records: the three lists together are a permutation of
    the deduplicated records, and no response is in two of the lists, or
    twice in one. *)
Theorem dedupe_then_split_disjoint rs unique h x v t seed train val test :
  dedupe rs = Ok unique ->
  h !! x = Some unique ->
  is_float v -> is_float t ->
  (Z.of_nat (length unique) <= 2 ^ 53)%Z ->
  (split_records x v t seed h).1 = Ok (train, val, test) ->
  train ++ val ++ test ≡ₚ unique
  /\ NoDup (response <$> train ++ val ++ test)
  /\ (forall a b, a ∈ train -> b ∈ val ++ test -> response a <> response b)
  /\ (forall a b, a ∈ val -> b ∈ test -> response a <> response b).
Proof.
  intros Hd Hx Hfv Hft Hlen Hs.
  rewrite (split_records_run h x unique v t seed Hx) in Hs. cbn [fst] in Hs.
  pose proof (split_items_ok_inv _ _ _ _ _ Hs) as Hacc.
  destruct (split_items_ok unique v t seed Hfv Hft Hlen Hacc)
    as (tr & va & te & Hs' & Happ).
  rewrite Hs in Hs'. injection Hs' as <- <- <-.
  assert (Hperm : train ++ val ++ test ≡ₚ unique)
    by (rewrite Happ; apply shuffled_perm).
  assert (Hnd : NoDup (response <$> train ++ val ++ test)).
  { rewrite Hperm. by apply (dedupe_responses_distinct rs). }
  split; [done |]. split; [done |].
  rewrite !fmap_app in Hnd. apply NoDup_app in Hnd as (_ & Hdis & Hnd').
  split.
  - intros a b Ha Hb Heq. apply (Hdis (response a)).
    + by apply list_elem_of_fmap_2.
    + rewrite <- fmap_app, Heq. by apply list_elem_of_fmap_2.
  - apply NoDup_app in Hnd' as (_ & Hdis' & _).
    intros a b Ha Hb Heq. apply (Hdis' (response a)).
    + by apply list_elem_of_fmap_2.
    + rewrite Heq. by apply list_elem_of_fmap_2.
Qed.

End Pipeline.

Section Encodable.

Implicit Types (s l : str) (f : SourceFile) (row : Row).

Lemma encodable_nil : encodable [].
Proof. constructor. Qed.

Lemma encodable_app s l : encodable (s ++ l) <-> encodable s /\ encodable l.
Proof. apply Forall_app. Qed.

Lemma encodable_drop_while (p : N -> bool) s :
  encodable s -> encodable (drop_while p s).
Proof.
  intros H. destruct (drop_while_split p s) as (l & Hl & _).
  rewrite Hl in H. by apply encodable_app in H as [_ H].
Qed.

Lemma encodable_strip s : encodable s -> encodable (strip s).
Proof.
  intros H. destruct (strip_infix s) as (l & r & Hs). rewrite Hs in H.
  apply encodable_app in H as [_ H]. by apply encodable_app in H as [H _].
Qed.

Lemma encodable_py (lit : string) : encodable (py lit).
Proof.
  unfold encodable, py. apply Forall_forall. intros c Hc.
  apply list_elem_of_In, in_map_iff in Hc as (a & <- & _).
  pose proof (N_ascii_bounded a). lia.
Qed.

Lemma encodable_join sep parts :
  encodable sep -> Forall encodable parts -> encodable (join sep parts).
Proof.
  intros Hsep. induction 1 as [|p ps Hp Hps IH]; simpl; [constructor |].
  destruct ps as [|q ps]; [done |].
  apply encodable_app. split; [done |]. apply encodable_app. by split.
Qed.

Lemma snippet_encodable f r :
  snippet_of_file f = Some r -> encodable (text f) -> encodable (response r).
Proof.
  intros Hf Ht. apply snippet_of_file_some in Hf as (_ & _ & _ & -> & _).
  apply encodable_app. split.
  - by apply encodable_strip, encodable_drop_while.
  - apply (encodable_py (String "010" EmptyString)).
Qed.

Lemma get_or_encodable row key default :
  row_encodable row -> encodable default -> encodable (get_or row key default).
Proof.
  intros Hrow Hd. unfold get_or.
  destruct (row !! key) as [[[|c s]|]|] eqn:Hk; try done.
  exact (Hrow key _ Hk).
Qed.

Lemma append_if_encodable label row key parts :
  row_encodable row -> encodable label -> Forall encodable parts ->
  Forall encodable (append_if label (strip (get_or row key [])) parts).
Proof.
  intros Hrow Hl Hp. unfold append_if.
  pose proof (encodable_strip _ (get_or_encodable row key [] Hrow encodable_nil)) as Hs.
  destruct (strip (get_or row key [])); [done |].
  apply Forall_app. split; [done |]. constructor; [| constructor].
  apply encodable_app. by split.
Qed.

Lemma reference_encodable source_csv row r :
  reference_of_row source_csv row = Some r ->
  row_encodable row -> encodable (response r).
Proof.
  unfold reference_of_row. intros Hr Hrow.
  pose proof (encodable_strip _
                (get_or_encodable row (py "Description") [] Hrow encodable_nil)) as Hd.
  destruct (strip (get_or row (py "Name") [])) as [|c n]; [done |].
  destruct (strip (get_or row (py "Description") [])) as [|d ds]; [done |].
  injection Hr as <-. cbn [response].
  apply encodable_app. split; [| apply (encodable_py (String "010" EmptyString))].
  apply encodable_strip, encodable_join; [apply (encodable_py (String "010" EmptyString)) |].
  repeat (apply append_if_encodable; [done | apply encodable_py |]).
  by constructor.
Qed.

(** X24. Texts and fields as a decoder returns them, without
    surrogates: [dedupe] does not raise on the records the collector and
    the loader of reference entries make of them. *)
Theorem dedupe_of_decoded_text (files : list SourceFile) (csv_path : CsvFile)
    (references : list SnippetRecord) :
  Forall (fun f => encodable (text f)) files ->
  Forall row_encodable (csv_rows csv_path) ->
  iterate_reference_elements csv_path = inr references ->
  exists unique, dedupe (iterate_snippets files ++ references) = Ok unique.
Proof.
  intros Hfiles Hrows Hrefs.
  pose proof (dedupe_loop_cases (iterate_snippets files ++ references) [] ∅) as H.
  unfold dedupe. destruct (dedupe_loop _ [] ∅) as [out|e]; [eauto |].
  exfalso. destruct H as [_ Hex].
  apply Exists_exists in Hex as (r & Hr & Hne). apply Hne.
  apply elem_of_app in Hr as [Hr | Hr].
  - apply iterate_snippets_elem in Hr as (f & Hf & Hsome).
    apply (snippet_encodable f r Hsome).
    rewrite Forall_forall in Hfiles. by apply Hfiles.
  - destruct (iterate_reference_elements_elem _ _ _ Hrefs Hr) as (row & Hrow & Hsome).
    apply (reference_encodable _ row r Hsome).
    rewrite Forall_forall in Hrows. by apply Hrows.
Qed.

End Encodable.

Lemma dedupe_then_split_disjoint_witness :
  exists train val test,
    (split_records (R := lcg) 0%nat point_one point_one 42 [deduped_three]).1
    = Ok (train, val, test)
    /\ train ++ val ++ test ≡ₚ deduped_three
    /\ NoDup (response <$> train ++ val ++ test)
    /\ (forall a b, a ∈ train -> b ∈ val ++ test -> response a <> response b)
    /\ (forall a b, a ∈ val -> b ∈ test -> response a <> response b).
Proof.
  eexists _, _, _. split; [vm_compute; reflexivity |].
  apply (@dedupe_then_split_disjoint lcg three_records deduped_three
           [deduped_three] 0%nat point_one point_one 42);
    try (vm_compute; reflexivity).
  vm_compute. discriminate.
Defined.

Lemma dedupe_of_decoded_text_witness :
  exists unique,
    dedupe (iterate_snippets [blank_file; gui_file; directory_entry]
            ++ reference_records) = Ok unique.
Proof.
  apply (dedupe_of_decoded_text
           [blank_file; gui_file; directory_entry] reference_csv reference_records).
  - apply Forall_cons_2;
      [| apply Forall_cons_2; [| apply Forall_cons_2; [| apply Forall_nil_2]]];
      cbn [text blank_file gui_file directory_entry];
      repeat first
        [ apply encodable_py | apply encodable_nil
        | apply encodable_app; split
        | apply Forall_cons_2; [unfold LF; lia |] ].
  - unfold reference_csv, reference_rows, csv_rows.
    repeat (apply Forall_cons_2;
            [ repeat (apply map_Forall_insert_2;
                      [first [exact I | apply encodable_py | apply encodable_nil] |]);
              apply map_Forall_empty |]).
    apply Forall_nil_2.
  - vm_compute. reflexivity.
Defined.
